(** * Neon Drift Protocol: vehicle integrator and road provider

    A shallow embedding of [src/js/modules/physics.js] (class [Vehicle]) and of
    the road part of the world module (class [GameWorld]), with the properties
    of the specification stated over it.

    Numbers.  A JavaScript number is modelled as an exact rational, one of the
    two infinities, or NaN.  Rounding, overflow and the sign of zero are not
    modelled: arithmetic on finite values is exact, and a zero divisor is
    read as +0.  The special values follow ECMAScript: NaN is absorbing,
    every comparison with NaN is false, [0/0], [Infinity - Infinity] and
    [0 * Infinity] are NaN. *)

From Stdlib Require Import QArith Qabs Qround Qminmax Lqa.
From Stdlib Require Import ZArith Lia List Bool String.
Import ListNotations.

Set Implicit Arguments.

(** ** JavaScript numbers *)

Module JS.

Inductive num : Type :=
| Fin (q : Q)
| PInf
| NInf
| NaN.

Definition Qltb (x y : Q) : bool := negb (Qle_bool y x).

Definition inf_of (positive : bool) : num := if positive then PInf else NInf.

Definition neg (a : num) : num :=
  match a with
  | Fin x => Fin (- x)
  | PInf => NInf
  | NInf => PInf
  | NaN => NaN
  end.

Definition add (a b : num) : num :=
  match a, b with
  | NaN, _ | _, NaN => NaN
  | Fin x, Fin y => Fin (x + y)
  | PInf, NInf | NInf, PInf => NaN
  | PInf, _ | _, PInf => PInf
  | NInf, _ | _, NInf => NInf
  end.

Definition sub (a b : num) : num :=
  match a, b with
  | NaN, _ | _, NaN => NaN
  | Fin x, Fin y => Fin (x - y)
  | PInf, PInf | NInf, NInf => NaN
  | PInf, _ | _, NInf => PInf
  | NInf, _ | _, PInf => NInf
  end.

Definition mul (a b : num) : num :=
  match a, b with
  | NaN, _ | _, NaN => NaN
  | Fin x, Fin y => Fin (x * y)
  | Fin x, PInf | PInf, Fin x => if Qeq_bool x 0 then NaN else inf_of (Qltb 0 x)
  | Fin x, NInf | NInf, Fin x => if Qeq_bool x 0 then NaN else inf_of (Qltb x 0)
  | PInf, PInf | NInf, NInf => PInf
  | PInf, NInf | NInf, PInf => NInf
  end.

Definition div (a b : num) : num :=
  match a, b with
  | NaN, _ | _, NaN => NaN
  | Fin x, Fin y =>
      if Qeq_bool y 0
      then (if Qeq_bool x 0 then NaN else inf_of (Qltb 0 x))
      else Fin (x / y)
  | Fin _, (PInf | NInf) => Fin 0
  | PInf, Fin y => inf_of (Qle_bool 0 y)
  | NInf, Fin y => inf_of (Qltb y 0)
  | (PInf | NInf), (PInf | NInf) => NaN
  end.

(** [a < b], [a <= b], [a > b], [a >= b] and [a === b] on numbers. *)
Definition lt (a b : num) : bool :=
  match a, b with
  | NaN, _ | _, NaN => false
  | Fin x, Fin y => Qltb x y
  | _, NInf => false
  | PInf, _ => false
  | NInf, _ => true
  | Fin _, PInf => true
  end.

Definition le (a b : num) : bool :=
  match a, b with
  | NaN, _ | _, NaN => false
  | Fin x, Fin y => Qle_bool x y
  | NInf, _ => true
  | _, PInf => true
  | PInf, _ => false
  | Fin _, NInf => false
  end.

Definition gt (a b : num) : bool := lt b a.
Definition ge (a b : num) : bool := le b a.

Definition eqb (a b : num) : bool :=
  match a, b with
  | Fin x, Fin y => Qeq_bool x y
  | PInf, PInf | NInf, NInf => true
  | _, _ => false
  end.

(** ToBoolean on a number, and [a || b]. *)
Definition truthy (a : num) : bool :=
  match a with
  | Fin x => negb (Qeq_bool x 0)
  | PInf | NInf => true
  | NaN => false
  end.

Definition or_else (a b : num) : num := if truthy a then a else b.

Definition isNaN (a : num) : bool :=
  match a with NaN => true | _ => false end.

Definition isFinite (a : num) : bool :=
  match a with Fin _ => true | _ => false end.

(** A finite number: neither NaN nor an infinity. *)
Definition finite (a : num) : Prop := exists q, a = Fin q.

(** The same value up to the representation of the rational. *)
Definition same (a b : num) : Prop :=
  match a, b with
  | Fin x, Fin y => x == y
  | PInf, PInf | NInf, NInf | NaN, NaN => True
  | _, _ => False
  end.

Definition Math_min (a b : num) : num :=
  match a, b with
  | NaN, _ | _, NaN => NaN
  | _, _ => if lt b a then b else a
  end.

Definition Math_max (a b : num) : num :=
  match a, b with
  | NaN, _ | _, NaN => NaN
  | _, _ => if lt a b then b else a
  end.

Definition Math_abs (a : num) : num :=
  match a with
  | Fin x => Fin (Qabs x)
  | PInf | NInf => PInf
  | NaN => NaN
  end.

Definition Math_sign (a : num) : num :=
  match a with
  | Fin x => if Qltb 0 x then Fin 1 else if Qltb x 0 then Fin (-1) else Fin 0
  | PInf => Fin 1
  | NInf => Fin (-1)
  | NaN => NaN
  end.

(** The host's elementary functions on the finite arguments where ECMAScript
    leaves the value to the implementation.  The special cases are written
    out in [Math_sqrt], [Math_pow], [Math_sin] and [Math_cos] below. *)
Class MathLib : Type := {
  lib_sqrt : Q -> Q;
  lib_pow : Q -> Q -> Q;
  lib_sin : Q -> Q;
  lib_cos : Q -> Q
}.

Section Elementary.
Context {M : MathLib}.

Definition Math_sqrt (a : num) : num :=
  match a with
  | Fin x => if Qltb x 0 then NaN
             else if Qeq_bool x 0 then Fin 0
             else Fin (lib_sqrt x)
  | PInf => PInf
  | NInf | NaN => NaN
  end.

Definition is_integer (y : Q) : bool := Qeq_bool (inject_Z (Qfloor y)) y.

(** [Math.pow], after Number::exponentiate. *)
Definition Math_pow (b e : num) : num :=
  match e with
  | NaN => NaN
  | Fin y =>
      if Qeq_bool y 0 then Fin 1 else
      match b with
      | NaN => NaN
      | PInf => if Qltb 0 y then PInf else Fin 0
      | NInf =>
          if Qltb 0 y
          then (if is_integer y && Z.odd (Qfloor y) then NInf else PInf)
          else Fin 0
      | Fin x =>
          if Qeq_bool x 0 then (if Qltb 0 y then Fin 0 else PInf)
          else if Qltb x 0 && negb (is_integer y) then NaN
          else Fin (lib_pow x y)
      end
  | PInf =>
      match b with
      | NaN => NaN
      | Fin x => if Qltb 1 (Qabs x) then PInf
                 else if Qeq_bool (Qabs x) 1 then NaN else Fin 0
      | PInf | NInf => PInf
      end
  | NInf =>
      match b with
      | NaN => NaN
      | Fin x => if Qltb 1 (Qabs x) then Fin 0
                 else if Qeq_bool (Qabs x) 1 then NaN else PInf
      | PInf | NInf => Fin 0
      end
  end.

Definition Math_sin (a : num) : num :=
  match a with Fin x => Fin (lib_sin x) | _ => NaN end.

Definition Math_cos (a : num) : num :=
  match a with Fin x => Fin (lib_cos x) | _ => NaN end.

End Elementary.

End JS.

Import JS.

Declare Scope js_scope.
Delimit Scope js_scope with js.
Bind Scope js_scope with num.
Infix "+" := add : js_scope.
Infix "-" := sub : js_scope.
Infix "*" := mul : js_scope.
Infix "/" := div : js_scope.
Notation "- a" := (neg a) : js_scope.
Infix "<?" := lt : js_scope.
Infix "<=?" := le : js_scope.
Infix ">?" := gt : js_scope.
Infix ">=?" := ge : js_scope.
Infix "===" := eqb (at level 70) : js_scope.
Infix "=~" := same (at level 70) : js_scope.

Local Open Scope js_scope.

(** ** three.js vectors

    [Vector3] and the rotation matrix of [Matrix4.makeRotationY], as three.js
    defines them; only the methods the vehicle calls. *)

Module THREE.

Record Vector3 : Type := vec3 { vx : num; vy : num; vz : num }.

Definition vadd (a b : Vector3) : Vector3 :=
  vec3 (vx a + vx b) (vy a + vy b) (vz a + vz b).

Definition vsub (a b : Vector3) : Vector3 :=
  vec3 (vx a - vx b) (vy a - vy b) (vz a - vz b).

Definition multiplyScalar (a : Vector3) (s : num) : Vector3 :=
  vec3 (vx a * s) (vy a * s) (vz a * s).

Definition dot (a b : Vector3) : num :=
  vx a * vx b + vy a * vy b + vz a * vz b.

Definition set_y (a : Vector3) (y : num) : Vector3 := vec3 (vx a) y (vz a).

(** [a.equals(b)]: componentwise [===]. *)
Definition equals (a b : Vector3) : bool :=
  (vx a === vx b) && (vy a === vy b) && (vz a === vz b).

(** [MathUtils.clamp(value, min, max)]. *)
Definition clamp (value lo hi : num) : num := Math_max lo (Math_min hi value).

(** [MathUtils.lerp(x, y, t)]. *)
Definition lerp (x y t : num) : num := (Fin 1 - t) * x + t * y.

(** [Box3] and [a.intersectsBox(b)] (three.js r134): the six separating
    tests, none of which may hold. *)
Record Box3 : Type := box3 { bmin : Vector3; bmax : Vector3 }.

Definition intersectsBox (a b : Box3) : bool :=
  if (vx (bmax b) <? vx (bmin a)) || (vx (bmin b) >? vx (bmax a))
     || (vy (bmax b) <? vy (bmin a)) || (vy (bmin b) >? vy (bmax a))
     || (vz (bmax b) <? vz (bmin a)) || (vz (bmin b) >? vz (bmax a))
  then false else true.

Section Rotation.
Context {M : MathLib}.

Definition length (a : Vector3) : num :=
  Math_sqrt (vx a * vx a + vy a * vy a + vz a * vz a).

(** [divideScalar(s)] is [multiplyScalar(1 / s)]. *)
Definition normalize (a : Vector3) : Vector3 :=
  multiplyScalar a (Fin 1 / or_else (length a) (Fin 1)).

(** [v.applyMatrix4(new Matrix4().makeRotationY(theta))].  The matrix has
    rows (c, 0, s, 0), (0, 1, 0, 0), (-s, 0, c, 0), (0, 0, 0, 1) with
    c = cos theta and s = sin theta; [applyMatrix4] divides by the
    perspective component. *)
Definition applyRotationY (theta : num) (a : Vector3) : Vector3 :=
  let c := Math_cos theta in
  let s := Math_sin theta in
  let x := vx a in
  let y := vy a in
  let z := vz a in
  let w := Fin 1 / (Fin 0 * x + Fin 0 * y + Fin 0 * z + Fin 1) in
  vec3 ((c * x + Fin 0 * y + s * z + Fin 0) * w)
       ((Fin 0 * x + Fin 1 * y + Fin 0 * z + Fin 0) * w)
       (((- s) * x + Fin 0 * y + c * z + Fin 0) * w).

End Rotation.

End THREE.

Import THREE.

(** ** The vehicle ([src/js/modules/physics.js]) *)

Module Physics.

Definition MAX_SPEED : num := Fin 5000.
Definition ACCELERATION : num := Fin 2000.
Definition DECELERATION : num := Fin 800.
Definition ENGINE_BRAKING : num := Fin 1.0.
Definition DRAG_COEFFICIENT : num := Fin 0.00015.
Definition OFF_ROAD_FRICTION : num := Fin 0.03.
Definition OFF_ROAD_DAMAGE : num := Fin 10.

Definition Math_PI : num := Fin 3.141592653589793.

Definition GRAVITY : num := Fin 9.8.
Definition MAX_STEERING_ANGLE : num := Math_PI / Fin 4.
Definition STEERING_SPEED : num := Fin 2.5.
Definition STEERING_RETURN_SPEED : num := Fin 5.0.
Definition WHEEL_BASE : num := Fin 6.
Definition WHEEL_TRACK : num := Fin 4.
Definition SUSPENSION_STIFFNESS : num := Fin 50.
Definition SUSPENSION_DAMPING : num := Fin 4.
Definition SUSPENSION_TRAVEL : num := Fin 0.5.
Definition WHEEL_RADIUS : num := Fin 0.8.
Definition WHEEL_MASS : num := Fin 20.
Definition CHASSIS_MASS : num := Fin 400.
Definition TOTAL_MASS : num := CHASSIS_MASS + WHEEL_MASS * Fin 4.

(** The keyboard snapshot handed to [update]. *)
Record Input : Type := {
  accelerate : bool;
  in_brake : bool;
  in_reverse : bool;
  turnLeft : bool;
  turnRight : bool
}.

Record Wheel : Type := {
  wheel_position : Vector3;
  contactPoint : Vector3;
  suspensionForce : num;
  compression : num;
  onGround : bool;
  isFront : bool
}.

(** The rotation of a wheel mesh (set by [setMesh], read by the renderer). *)
Record WheelMesh : Type := { rotation_x : num; mesh_rotation_y : num }.

(** [this.debug.forces]. *)
Record DebugForces : Type := {
  dbg_tractiveForce : num;
  dbg_dragForce : num;
  dbg_rollingResistance : num;
  dbg_totalLongitudinalForce : num;
  dbg_angularAcceleration : num
}.

(** The fields of [Vehicle] the physics reads or writes.  [rotation_y] is
    [this.rotation.y]; [angularAcceleration] is undefined until the first
    [calculateForces] (NaN as a number).  [this.mesh] and
    [this.debug.suspension], a copy of the wheels' fields, are left out. *)
Record Vehicle : Type := {
  position : Vector3;
  velocity : Vector3;
  acceleration : Vector3;
  direction : Vector3;
  right : Vector3;
  up : Vector3;
  rotation_y : num;
  angularVelocity : num;
  angularAcceleration : num;
  speed : num;
  wheelSpeed : num;
  steeringAngle : num;
  throttle : num;
  brake : num;
  reverse : num;
  isGrounded : bool;
  isOffRoad : bool;
  wasOffRoad : bool;
  wheels : list Wheel;
  frontWheels : list WheelMesh;
  rearWheels : list WheelMesh;
  input : option Input;
  debugForces : option DebugForces
}.

(** What the vehicle sees of a road segment: its world position and yaw. *)
Record RoadSegment : Type := { segPosition : Vector3; segRotationY : num }.

(** The [world] argument of [update]: [None] fields are absent properties. *)
Record WorldView : Type := {
  roadSegments : option (list RoadSegment);
  events : bool
}.

Definition zero3 : Vector3 := vec3 (Fin 0) (Fin 0) (Fin 0).

Definition newWheel (x z : num) (front : bool) : Wheel :=
  {| wheel_position := vec3 x (Fin 0) z;
     contactPoint := zero3;
     suspensionForce := Fin 0;
     compression := Fin 0;
     onGround := true;
     isFront := front |}.

(** [new Vehicle()]. *)
Definition constructor : Vehicle :=
  {| position := vec3 (Fin 0) (Fin 0.8) (Fin 0);
     velocity := zero3;
     acceleration := zero3;
     direction := vec3 (Fin 0) (Fin 0) (Fin 1);
     right := vec3 (Fin 1) (Fin 0) (Fin 0);
     up := vec3 (Fin 0) (Fin 1) (Fin 0);
     rotation_y := Fin 0;
     angularVelocity := Fin 0;
     angularAcceleration := NaN;
     speed := Fin 0;
     wheelSpeed := Fin 0;
     steeringAngle := Fin 0;
     throttle := Fin 0;
     brake := Fin 0;
     reverse := Fin 0;
     isGrounded := true;
     isOffRoad := false;
     wasOffRoad := false;
     wheels :=
       [ newWheel ((- WHEEL_TRACK) / Fin 2) (WHEEL_BASE / Fin 2) true;
         newWheel (WHEEL_TRACK / Fin 2) (WHEEL_BASE / Fin 2) true;
         newWheel ((- WHEEL_TRACK) / Fin 2) ((- WHEEL_BASE) / Fin 2) false;
         newWheel (WHEEL_TRACK / Fin 2) ((- WHEEL_BASE) / Fin 2) false ];
     frontWheels := [];
     rearWheels := [];
     input := None;
     debugForces := None |}.

Definition flag (b : bool) : num := if b then Fin 1.0 else Fin 0.0.

(** The first statements of [update]: the input is stored, [wasOffRoad]
    takes the value of [isOffRoad]. *)
Definition storeInput (v : Vehicle) (inp : Input) : Vehicle :=
  {| position := position v; velocity := velocity v;
     acceleration := acceleration v; direction := direction v;
     right := right v; up := up v; rotation_y := rotation_y v;
     angularVelocity := angularVelocity v;
     angularAcceleration := angularAcceleration v;
     speed := speed v; wheelSpeed := wheelSpeed v;
     steeringAngle := steeringAngle v; throttle := throttle v;
     brake := brake v; reverse := reverse v;
     isGrounded := isGrounded v; isOffRoad := isOffRoad v;
     wasOffRoad := isOffRoad v;
     wheels := wheels v; frontWheels := frontWheels v;
     rearWheels := rearWheels v; input := Some inp;
     debugForces := debugForces v |}.

(** [const dt = Math.min(deltaTime, 0.1)]. *)
Definition capDeltaTime (deltaTime : num) : num := Math_min deltaTime (Fin 0.1).

(** A delta time is clamped when it is a number between 0 and 0.1. *)
Definition clampedDeltaTime (dt : num) : Prop :=
  (Fin 0 <=? dt) = true /\ (dt <=? Fin 0.1) = true.

(** The start-up block of [update] (physics.js, lines 125-130). *)
Definition initialBoost (v : Vehicle) (inp : Input) : Vehicle :=
  if (speed v <? Fin 0.1) && accelerate inp then
    {| position := position v;
       velocity := vec3 (Fin 0) (Fin 0) (Fin 30.0);
       acceleration := acceleration v; direction := direction v;
       right := right v; up := up v; rotation_y := rotation_y v;
       angularVelocity := angularVelocity v;
       angularAcceleration := angularAcceleration v;
       speed := Fin 30.0; wheelSpeed := wheelSpeed v;
       steeringAngle := steeringAngle v; throttle := throttle v;
       brake := brake v; reverse := reverse v;
       isGrounded := isGrounded v; isOffRoad := isOffRoad v;
       wasOffRoad := wasOffRoad v;
       wheels := wheels v; frontWheels := frontWheels v;
       rearWheels := rearWheels v; input := input v;
       debugForces := debugForces v |}
  else v.

(** The numbers the vertical motion of a frame is computed from are
    finite. *)
Definition numericState (v : Vehicle) : Prop :=
  finite (vy (position v)) /\ finite (vy (velocity v))
  /\ finite (speed v) /\ finite (steeringAngle v)
  /\ finite (vy (direction v)) /\ finite (vy (right v)).

(** A number of magnitude at most [bound]. *)
Definition within (bound : Q) (a : num) : Prop :=
  exists q, a = Fin q /\ (Qabs q <= bound)%Q.

(** A magnitude far above what the game reaches and far below the range of
    a double: the arithmetic of a frame on numbers within it neither
    overflows nor leaves the numbers. *)
Definition MAGNITUDE : Q := 1000000.

(** The numbers the vertical motion of a frame is computed from are within
    [MAGNITUDE]. *)
Definition boundedState (v : Vehicle) : Prop :=
  within MAGNITUDE (vy (position v)) /\ within MAGNITUDE (vy (velocity v))
  /\ within MAGNITUDE (speed v) /\ within MAGNITUDE (steeringAngle v)
  /\ within MAGNITUDE (vy (direction v)) /\ within MAGNITUDE (vy (right v)).

(** The input with only the accelerate key down, and the idle input. *)
Definition accelerateOnly : Input :=
  {| accelerate := true; in_brake := false; in_reverse := false;
     turnLeft := false; turnRight := false |}.

Definition idle : Input :=
  {| accelerate := false; in_brake := false; in_reverse := false;
     turnLeft := false; turnRight := false |}.

Section Methods.
Context {M : MathLib}.

(** The steering target of [updateControls]. *)
Definition steer (angle : num) (inp : Input) (dt : num) : num :=
  if turnLeft inp then
    Math_min (angle + STEERING_SPEED * dt) MAX_STEERING_ANGLE
  else if turnRight inp then
    Math_max (angle - STEERING_SPEED * dt) (- MAX_STEERING_ANGLE)
  else if Math_abs angle <? STEERING_RETURN_SPEED * dt then Fin 0
  else angle - Math_sign angle * STEERING_RETURN_SPEED * dt.

(** [speedFactor] of [updateControls]. *)
Definition steeringSpeedFactor (spd : num) : num :=
  Math_max (Fin 0.15)
           (Fin 1.0 - Math_pow (spd / MAX_SPEED) (Fin 0.7) * Fin 0.85).

Definition updateControls (v : Vehicle) (inp : Input) (dt : num) : Vehicle :=
  let brake' := flag (in_brake inp) in
  let reverse' := flag (in_reverse inp) in
  let throttle' := flag (accelerate inp && negb (in_brake inp)) in
  let steeringAngle' := steer (steeringAngle v) inp dt in
  let speedFactor := steeringSpeedFactor (speed v) in
  let effectiveSteeringAngle := steeringAngle' * speedFactor in
  {| position := position v; velocity := velocity v;
     acceleration := acceleration v; direction := direction v;
     right := right v; up := up v; rotation_y := rotation_y v;
     angularVelocity := angularVelocity v;
     angularAcceleration := angularAcceleration v;
     speed := speed v; wheelSpeed := wheelSpeed v;
     steeringAngle := steeringAngle'; throttle := throttle';
     brake := brake'; reverse := reverse';
     isGrounded := isGrounded v; isOffRoad := isOffRoad v;
     wasOffRoad := wasOffRoad v;
     wheels := wheels v;
     frontWheels :=
       map (fun w => {| rotation_x := rotation_x w;
                        mesh_rotation_y := effectiveSteeringAngle |})
           (frontWheels v);
     rearWheels := rearWheels v; input := input v;
     debugForces := debugForces v |}.

Definition getWheelWorldPosition (v : Vehicle) (w : Wheel) : Vector3 :=
  vadd (applyRotationY (rotation_y v) (wheel_position w)) (position v).

Definition updateWheel (v : Vehicle) (w : Wheel) : Wheel :=
  let wheelPos := getWheelWorldPosition v w in
  let restLength := WHEEL_RADIUS + SUSPENSION_TRAVEL in
  let groundHeight := Fin 0 in
  let compressionDistance :=
    Math_max (Fin 0) (restLength - (vy wheelPos - groundHeight)) in
  let onGround' := compressionDistance >? Fin 0 in
  {| wheel_position := wheel_position w;
     contactPoint :=
       if onGround' then set_y wheelPos groundHeight else contactPoint w;
     suspensionForce :=
       if onGround'
       then compressionDistance * SUSPENSION_STIFFNESS
            - vy (velocity v) * SUSPENSION_DAMPING
       else Fin 0;
     compression := compressionDistance / restLength;
     onGround := onGround';
     isFront := isFront w |}.

Definition updateSuspension (v : Vehicle) : Vehicle :=
  let wheels' := map (updateWheel v) (wheels v) in
  {| position := position v; velocity := velocity v;
     acceleration := acceleration v; direction := direction v;
     right := right v; up := up v; rotation_y := rotation_y v;
     angularVelocity := angularVelocity v;
     angularAcceleration := angularAcceleration v;
     speed := speed v; wheelSpeed := wheelSpeed v;
     steeringAngle := steeringAngle v; throttle := throttle v;
     brake := brake v; reverse := reverse v;
     isGrounded := existsb onGround wheels'; isOffRoad := isOffRoad v;
     wasOffRoad := wasOffRoad v;
     wheels := wheels'; frontWheels := frontWheels v;
     rearWheels := rearWheels v; input := input v;
     debugForces := debugForces v |}.

(** The tractive force of [calculateForces] (lines 288-322). *)
Definition tractiveForce (v : Vehicle) : num :=
  if isGrounded v then
    if (throttle v >? Fin 0) && (speed v >=? Fin (-1)) then
      let speedRatio :=
        Math_max (Fin 0) (Math_min (Fin 1) (speed v / MAX_SPEED)) in
      let accelerationMultiplier :=
        Fin 1.8 * Math_pow (Fin 1 - speedRatio) (Fin 1.5) + Fin 0.2 in
      ACCELERATION * accelerationMultiplier * throttle v
    else if brake v >? Fin 0 then
      (- Math_sign (speed v)) * DECELERATION * Fin 6.0 * brake v
    else if reverse v >? Fin 0 then
      if speed v >? Fin 5 then (- DECELERATION) * Fin 2.0 * reverse v
      else if speed v >? Fin 0 then (- DECELERATION) * Fin 2.5 * reverse v
      else (- ACCELERATION) * Fin 0.4 * reverse v
    else (- Math_sign (speed v)) * ENGINE_BRAKING
  else Fin 0.

Definition dragForce (v : Vehicle) : num :=
  (- Math_sign (speed v)) * DRAG_COEFFICIENT * speed v * speed v.

Definition rollingResistance (v : Vehicle) : num :=
  if isGrounded v then
    let resistanceFactor :=
      if isOffRoad v then OFF_ROAD_FRICTION else Fin 0.001 in
    (- Math_sign (speed v)) * resistanceFactor * Math_abs (speed v)
  else Fin 0.

(** Whether the cornering block runs, and whether the drift block inside it
    does. *)
Definition cornering (v : Vehicle) : bool :=
  isGrounded v && (Math_abs (speed v) >? Fin 0.5).

Definition drifting (v : Vehicle) : bool :=
  (Math_abs (steeringAngle v) >? Fin 0.25)
  && (Math_abs (speed v) >? MAX_SPEED * Fin 0.6).

Definition corneringAcceleration (v : Vehicle) : num :=
  let steeringFactor := steeringAngle v / (WHEEL_BASE * Fin 0.5) in
  let speedFactor :=
    Math_max (Fin 0.2) (Math_min (Fin 1.0) (Math_abs (speed v) / Fin 30.0)) in
  let directionFactor := if speed v <? Fin 0 then Fin (-1) else Fin 1 in
  directionFactor * steeringFactor
  * Math_sqrt (Math_abs (speed v) * Fin 20) * speedFactor.

Definition lateralAcceleration (v : Vehicle) : num :=
  let tractionLoss :=
    Math_min (Fin 0.7)
      ((Math_abs (steeringAngle v) * Math_abs (speed v))
       / (MAX_STEERING_ANGLE * MAX_SPEED * Fin 1.5)) in
  let speedDampening :=
    Fin 1.0 / (Fin 1.0 + Math_abs (speed v) / Fin 2000) in
  let driftAcceleration :=
    Math_abs (speed v) * tractionLoss * Fin 0.4 * speedDampening in
  let steeringSign := Math_sign (steeringAngle v) in
  let directionMultiplier := if speed v <? Fin 0 then Fin (-1) else Fin 1 in
  steeringSign * directionMultiplier * driftAcceleration.

Definition calculateForces (v : Vehicle) : Vehicle :=
  let acc0 :=
    if isGrounded v then zero3 else vec3 (Fin 0) (Fin 0 - GRAVITY) (Fin 0) in
  let tractive := tractiveForce v in
  let drag := dragForce v in
  let rolling := rollingResistance v in
  let totalLongitudinalForce := tractive + drag + rolling in
  let forwardAcceleration := totalLongitudinalForce / TOTAL_MASS in
  let acc1 := vadd acc0 (multiplyScalar (direction v) forwardAcceleration) in
  let totalAngularAcceleration :=
    if cornering v then corneringAcceleration v else Fin 0 in
  let acc2 :=
    if cornering v && drifting v
    then vadd acc1 (multiplyScalar (right v) (lateralAcceleration v))
    else acc1 in
  {| position := position v; velocity := velocity v;
     acceleration := acc2; direction := direction v;
     right := right v; up := up v; rotation_y := rotation_y v;
     angularVelocity := angularVelocity v;
     angularAcceleration := totalAngularAcceleration;
     speed := speed v; wheelSpeed := wheelSpeed v;
     steeringAngle := steeringAngle v; throttle := throttle v;
     brake := brake v; reverse := reverse v;
     isGrounded := isGrounded v; isOffRoad := isOffRoad v;
     wasOffRoad := wasOffRoad v;
     wheels := wheels v; frontWheels := frontWheels v;
     rearWheels := rearWheels v; input := input v;
     debugForces :=
       Some {| dbg_tractiveForce := tractive;
               dbg_dragForce := drag;
               dbg_rollingResistance := rolling;
               dbg_totalLongitudinalForce := totalLongitudinalForce;
               dbg_angularAcceleration := totalAngularAcceleration |} |}.

(** The position the integration reaches before the ground check, and the
    velocity it moved by. *)
Definition integratedVelocity (v : Vehicle) (dt : num) : Vector3 :=
  let forwardSpeed := dot (velocity v) (direction v) in
  let verticalVelocity := vy (velocity v) in
  let forwardAccel := dot (acceleration v) (direction v) in
  let newForwardSpeed := forwardSpeed + forwardAccel * dt in
  let lateralVelocity :=
    multiplyScalar
      (vsub (velocity v) (multiplyScalar (direction v) forwardSpeed))
      (Fin 0.98) in
  set_y (vadd (multiplyScalar (direction v) newForwardSpeed) lateralVelocity)
        (verticalVelocity + vy (acceleration v) * dt).

Definition integratedPosition (v : Vehicle) (dt : num) : Vector3 :=
  vadd (position v) (multiplyScalar (integratedVelocity v dt) dt).

(** The ground check fires: the position reached is below 0.5. *)
Definition clampEngages (v : Vehicle) (dt : num) : bool :=
  vy (integratedPosition v dt) <? Fin 0.5.

Definition integrate (v : Vehicle) (dt : num) : Vehicle :=
  let newForwardSpeed :=
    dot (velocity v) (direction v)
    + dot (acceleration v) (direction v) * dt in
  let velocity1 := integratedVelocity v dt in
  let angularVelocity1 := angularVelocity v + angularAcceleration v * dt in
  let position1 := integratedPosition v dt in
  let position2 :=
    if clampEngages v dt then set_y position1 (Fin 0.5) else position1 in
  let velocity2 :=
    if clampEngages v dt && (vy velocity1 <? Fin 0)
    then set_y velocity1 (Fin 0) else velocity1 in
  {| position := position2; velocity := velocity2;
     acceleration := acceleration v; direction := direction v;
     right := right v; up := up v;
     rotation_y := rotation_y v + angularVelocity1 * dt;
     angularVelocity := angularVelocity1 * Fin 0.97;
     angularAcceleration := angularAcceleration v;
     speed := newForwardSpeed; wheelSpeed := wheelSpeed v;
     steeringAngle := steeringAngle v; throttle := throttle v;
     brake := brake v; reverse := reverse v;
     isGrounded := isGrounded v; isOffRoad := isOffRoad v;
     wasOffRoad := wasOffRoad v;
     wheels := wheels v; frontWheels := frontWheels v;
     rearWheels := rearWheels v; input := input v;
     debugForces := debugForces v |}.

(** The search loop of [checkSurfaceInteraction]: the segment nearest in z,
    with its distance, starting from no segment at distance [Infinity]. *)
Definition closerSegment (pz : num) (best : option RoadSegment * num)
    (segment : RoadSegment) : option RoadSegment * num :=
  let zDistance := Math_abs (vz (segPosition segment) - pz) in
  if zDistance <? snd best then (Some segment, zDistance) else best.

Definition closestSegment (pz : num) (segments : list RoadSegment)
    : option RoadSegment * num :=
  fold_left (closerSegment pz) segments (None, PInf).

Definition ROAD_HALF_WIDTH : num := Fin 15.

(** The locals [isOffRoad] and [closestSegmentX] of
    [checkSurfaceInteraction] after the road has been looked up. *)
Definition surfaceProbe (v : Vehicle) (world : option WorldView)
    : bool * num :=
  match world with
  | Some {| roadSegments := Some segments |} =>
      match closestSegment (vz (position v)) segments with
      | (Some segment, closestZDistance) =>
          if closestZDistance <? Fin 30 then
            let localPoint0 := vsub (position v) (segPosition segment) in
            let localPoint :=
              if segRotationY segment === Fin 0 then localPoint0
              else applyRotationY (- segRotationY segment) localPoint0 in
            (Math_abs (vx localPoint) >? ROAD_HALF_WIDTH, vx localPoint)
          else (true, Fin 0)
      | (None, _) => (true, Fin 0)
      end
  | _ => (Math_abs (vx (position v)) >? ROAD_HALF_WIDTH, vx (position v))
  end.

Definition hasEvents (world : option WorldView) : bool :=
  match world with Some w => events w | None => false end.

(** [checkSurfaceInteraction]: the vehicle and the events triggered on
    [world.events]; [None] is the TypeError of reading a flag of a null
    [this.input]. *)
Definition checkSurfaceInteraction (v : Vehicle) (world : option WorldView)
    (dt : num) : option (Vehicle * list string) :=
  let wasOffRoad0 := isOffRoad v in
  let (isOffRoad', closestSegmentX) := surfaceProbe v world in
  if isOffRoad' then
    match input v with
    | None => None
    | Some inp =>
        let speed1 := speed v * Fin 0.9998 in
        let steeringAngle1 :=
          if negb (turnLeft inp) && negb (turnRight inp) then
            let roadForce :=
              (- Math_sign closestSegmentX) * Fin 0.0005 * dt
              * Math_min (Fin 5) speed1 in
            lerp (steeringAngle v) roadForce (Fin 0.01)
          else steeringAngle v in
        let hit := negb wasOffRoad0 && (Math_abs speed1 >? Fin 20) in
        let speedReduction :=
          Math_min (Math_abs speed1 * Fin 0.005) (OFF_ROAD_DAMAGE / Fin 4) in
        let speed2 :=
          if hit
          then speed1 * ((Math_abs speed1 - speedReduction) / Math_abs speed1)
          else speed1 in
        let velocity2 :=
          if hit then set_y (velocity v) (vy (velocity v) + Fin 0.3)
          else velocity v in
        Some
          ({| position := position v; velocity := velocity2;
              acceleration := acceleration v; direction := direction v;
              right := right v; up := up v; rotation_y := rotation_y v;
              angularVelocity := angularVelocity v;
              angularAcceleration := angularAcceleration v;
              speed := speed2; wheelSpeed := wheelSpeed v;
              steeringAngle := steeringAngle1; throttle := throttle v;
              brake := brake v; reverse := reverse v;
              isGrounded := isGrounded v; isOffRoad := true;
              wasOffRoad := true;
              wheels := wheels v; frontWheels := frontWheels v;
              rearWheels := rearWheels v; input := input v;
              debugForces := debugForces v |},
           if hit && hasEvents world then ["offRoadCollision"%string] else [])
    end
  else
    Some
      ({| position := position v; velocity := velocity v;
          acceleration := acceleration v; direction := direction v;
          right := right v; up := up v; rotation_y := rotation_y v;
          angularVelocity := angularVelocity v;
          angularAcceleration := angularAcceleration v;
          speed := speed v; wheelSpeed := wheelSpeed v;
          steeringAngle := steeringAngle v; throttle := throttle v;
          brake := brake v; reverse := reverse v;
          isGrounded := isGrounded v; isOffRoad := false;
          wasOffRoad := false;
          wheels := wheels v; frontWheels := frontWheels v;
          rearWheels := rearWheels v; input := input v;
          debugForces := debugForces v |},
       []).

Definition spin (rotationAmount : num) (w : WheelMesh) : WheelMesh :=
  {| rotation_x := rotation_x w - rotationAmount;
     mesh_rotation_y := mesh_rotation_y w |}.

Definition updateWheelRotation (v : Vehicle) (dt : num) : Vehicle :=
  let wheelSpeed' := speed v / WHEEL_RADIUS in
  let rotationAmount := wheelSpeed' * dt in
  {| position := position v; velocity := velocity v;
     acceleration := acceleration v; direction := direction v;
     right := right v; up := up v; rotation_y := rotation_y v;
     angularVelocity := angularVelocity v;
     angularAcceleration := angularAcceleration v;
     speed := speed v; wheelSpeed := wheelSpeed';
     steeringAngle := steeringAngle v; throttle := throttle v;
     brake := brake v; reverse := reverse v;
     isGrounded := isGrounded v; isOffRoad := isOffRoad v;
     wasOffRoad := wasOffRoad v;
     wheels := wheels v;
     frontWheels := map (spin rotationAmount) (frontWheels v);
     rearWheels := map (spin rotationAmount) (rearWheels v);
     input := input v; debugForces := debugForces v |}.

Definition updateVehicleVectors (v : Vehicle) : Vehicle :=
  {| position := position v; velocity := velocity v;
     acceleration := acceleration v;
     direction :=
       normalize (applyRotationY (rotation_y v) (vec3 (Fin 0) (Fin 0) (Fin 1)));
     right :=
       normalize (applyRotationY (rotation_y v) (vec3 (Fin 1) (Fin 0) (Fin 0)));
     up := normalize (vec3 (Fin 0) (Fin 1) (Fin 0));
     rotation_y := rotation_y v;
     angularVelocity := angularVelocity v;
     angularAcceleration := angularAcceleration v;
     speed := speed v; wheelSpeed := wheelSpeed v;
     steeringAngle := steeringAngle v; throttle := throttle v;
     brake := brake v; reverse := reverse v;
     isGrounded := isGrounded v; isOffRoad := isOffRoad v;
     wasOffRoad := wasOffRoad v;
     wheels := wheels v; frontWheels := frontWheels v;
     rearWheels := rearWheels v; input := input v;
     debugForces := debugForces v |}.

(** What [update] leaves: the vehicle, the returned flag and the events
    triggered on [world.events]. *)
Record UpdateResult : Type := {
  vehicle : Vehicle;
  changed : bool;
  triggered : list string
}.

(** [update] from [updateControls] on, given the capped [dt] and the
    position at entry. *)
Definition updateFromControls (previousPosition : Vector3) (v : Vehicle)
    (inp : Input) (dt : num) (world : option WorldView)
    : option UpdateResult :=
  let v3 := updateControls v inp dt in
  let v4 := updateSuspension v3 in
  let v5 := calculateForces v4 in
  let v6 := integrate v5 dt in
  match checkSurfaceInteraction v6 world dt with
  | None => None
  | Some (v7, evs) =>
      let v8 := updateWheelRotation v7 dt in
      let v9 := updateVehicleVectors v8 in
      Some {| vehicle := v9;
              changed :=
                negb (equals previousPosition (position v9))
                || negb (Bool.eqb (wasOffRoad v9) (isOffRoad v9))
                || (speed v9 >? Fin 0.1);
              triggered := evs |}
  end.

Definition update (v : Vehicle) (inp : Input) (deltaTime : num)
    (world : option WorldView) : option UpdateResult :=
  let previousPosition := position v in
  let v1 := storeInput v inp in
  let dt := capDeltaTime deltaTime in
  let v2 := initialBoost v1 inp in
  updateFromControls previousPosition v2 inp dt world.

(** What [collideWithObstacle] returns. *)
Record CollisionResult : Type := {
  speedReduction : num;
  effects : list string
}.

(** [collideWithObstacle], with [random] the value [Math.random()] returns. *)
Definition collideWithObstacle (v : Vehicle) (random : num)
    : Vehicle * CollisionResult :=
  let speedReduction' := Math_min (Math_abs (speed v)) (Fin 60) in
  let oldSpeed := speed v in
  let speed' :=
    Math_sign (speed v)
    * Math_max (Fin 0) (Math_abs (speed v) - speedReduction') in
  let velocity' :=
    set_y (multiplyScalar (velocity v) (speed' / oldSpeed)) (Fin 0.5) in
  ({| position :=
        if vy (position v) <? Fin 0.5
        then set_y (position v) (Fin 0.5) else position v;
      velocity := velocity';
      acceleration := acceleration v; direction := direction v;
      right := right v; up := up v; rotation_y := rotation_y v;
      angularVelocity :=
        angularVelocity v + (random - Fin 0.5) * Fin 0.2;
      angularAcceleration := angularAcceleration v;
      speed := speed'; wheelSpeed := wheelSpeed v;
      steeringAngle := steeringAngle v; throttle := throttle v;
      brake := brake v; reverse := reverse v;
      isGrounded := isGrounded v; isOffRoad := isOffRoad v;
      wasOffRoad := wasOffRoad v;
      wheels := wheels v; frontWheels := frontWheels v;
      rearWheels := rearWheels v; input := input v;
      debugForces := debugForces v |},
   {| speedReduction := speedReduction';
      effects := ["heavyGlitch"; "screenShake"; "flashRed"]%string |}).

End Methods.

(** [getBoundingBox()], for a vehicle whose mesh is set ([hasMesh]);
    without a mesh it returns null. *)
Definition getBoundingBox (hasMesh : bool) (v : Vehicle) : option Box3 :=
  if hasMesh then
    let halfWidth := Fin 1.7 in
    let halfHeight := Fin 0.5 in
    let halfLength := Fin 3.5 in
    let frontVector := multiplyScalar (direction v) halfLength in
    let rightVector := multiplyScalar (right v) halfWidth in
    let upVector := multiplyScalar (up v) halfHeight in
    Some {| bmin := vsub (vsub (vsub (position v) frontVector) rightVector)
                         upVector;
            bmax := vadd (vadd (vadd (position v) frontVector) rightVector)
                         upVector |}
  else None.

(** The speed boost the game gives on a collectible:
    [vehicle.speed = Math.min(vehicle.speed + 2, MAX_SPEED)]. *)
Definition collectibleBoost (v : Vehicle) : Vehicle :=
  {| position := position v; velocity := velocity v;
     acceleration := acceleration v; direction := direction v;
     right := right v; up := up v; rotation_y := rotation_y v;
     angularVelocity := angularVelocity v;
     angularAcceleration := angularAcceleration v;
     speed := Math_min (speed v + Fin 2) MAX_SPEED;
     wheelSpeed := wheelSpeed v;
     steeringAngle := steeringAngle v; throttle := throttle v;
     brake := brake v; reverse := reverse v;
     isGrounded := isGrounded v; isOffRoad := isOffRoad v;
     wasOffRoad := wasOffRoad v;
     wheels := wheels v; frontWheels := frontWheels v;
     rearWheels := rearWheels v; input := input v;
     debugForces := debugForces v |}.

(** The four wheels stand where the constructor put them. *)
Definition standardWheels (v : Vehicle) : Prop :=
  map wheel_position (wheels v) = map wheel_position (wheels constructor).

End Physics.

(** ** The road ([GameWorld], world module)

    The road code is embedded over the rationals: segment coordinates start
    as multiples of [SEGMENT_LENGTH] and only ever move by it, and the
    player's z is taken to be a finite number. *)

Module World.

Local Open Scope Q_scope.

Definition ROAD_SEGMENTS : Q := 200.
Definition ROAD_LENGTH : Q := 2000.
(** [ROAD_LENGTH / ROAD_SEGMENTS], kept in lowest terms. *)
Definition SEGMENT_LENGTH : Q :=
  Eval vm_compute in Qred (ROAD_LENGTH / ROAD_SEGMENTS).
Definition LANE_WIDTH : Q := 10.

(** JavaScript's [a % b] for a nonzero [b]: the quotient is truncated
    towards zero, so the result has the sign of [a]. *)
Definition Qtruncate (q : Q) : Z := Z.quot (Qnum q) (Zpos (Qden q)).

Definition rem (a b : Q) : Q := a - b * inject_Z (Qtruncate (a / b)).

Record TrackPoint : Type := { pos : Q; turn : Q }.

(** The bracketing loop the three users of the track share: the first
    consecutive pair with [pos p1 <= patternPosition < pos p2]. *)
Fixpoint findBracket (patternPosition : Q) (points : list TrackPoint)
    : option (TrackPoint * TrackPoint) :=
  match points with
  | p1 :: ((p2 :: _) as rest) =>
      if Qle_bool (pos p1) patternPosition && Qltb patternPosition (pos p2)
      then Some (p1, p2)
      else findBracket patternPosition rest
  | _ => None
  end.

Definition noPoint : TrackPoint := {| pos := 0; turn := 0 |}.

(** [p1] and [p2] after the loop: they start as the first and the last
    point. *)
Definition bracket (patternPosition : Q) (points : list TrackPoint)
    : TrackPoint * TrackPoint :=
  match findBracket patternPosition points with
  | Some b => b
  | None => (hd noPoint points, last points noPoint)
  end.

Definition cubicEase (t : Q) : Q := t * t * (3 - 2 * t).

(** The offset computed from a pattern position and a track definition. *)
Definition offsetOnTrack (points : list TrackPoint) (patternPosition : Q) : Q :=
  let (p1, p2) := bracket patternPosition points in
  let segmentProgress := (patternPosition - pos p1) / (pos p2 - pos p1) in
  let easeSegmentProgress := cubicEase segmentProgress in
  let turnValue := turn p1 + (turn p2 - turn p1) * easeSegmentProgress in
  turnValue * LANE_WIDTH * 5.0.

(** The track literal of [getTrackXPositionAtZ]. *)
Definition trackPoints_getTrackX : list TrackPoint :=
  [ {| pos := 0.0; turn := 0 |};
    {| pos := 0.15; turn := -1.0 |};
    {| pos := 0.3; turn := 0 |};
    {| pos := 0.35; turn := 0 |};
    {| pos := 0.5; turn := 1.0 |};
    {| pos := 0.65; turn := 0 |};
    {| pos := 0.7; turn := 0 |};
    {| pos := 0.85; turn := -0.6 |};
    {| pos := 1.0; turn := 0 |} ].

Definition getTrackXPositionAtZ (zPosition : Q) : Q :=
  let patternPosition := rem zPosition ROAD_LENGTH / ROAD_LENGTH in
  offsetOnTrack trackPoints_getTrackX patternPosition.

(** A road segment mesh: [position.x], [position.z] and [rotation.y]. *)
Record Segment : Type := { seg_x : Q; seg_z : Q; seg_rotation_y : Q }.

(** The track literal of [positionRoadSegment]. *)
Definition trackPoints_positionRoadSegment : list TrackPoint :=
  [ {| pos := 0.0; turn := 0 |};
    {| pos := 0.15; turn := -1.0 |};
    {| pos := 0.3; turn := 0 |};
    {| pos := 0.35; turn := 0 |};
    {| pos := 0.5; turn := 1.0 |};
    {| pos := 0.65; turn := 0 |};
    {| pos := 0.7; turn := 0 |};
    {| pos := 0.85; turn := -0.6 |};
    {| pos := 1.0; turn := 0 |} ].

(** [positionRoadSegment(segment, playerZ, segmentZ)]: the rotation is
    reset and [position.x] is set; [position.z] is left as it is. *)
Definition positionRoadSegment (segment : Segment) (playerZ segmentZ : Q)
    : Segment :=
  let trackPosition := segmentZ in
  let patternPosition := rem trackPosition ROAD_LENGTH / ROAD_LENGTH in
  {| seg_x := offsetOnTrack trackPoints_positionRoadSegment patternPosition;
     seg_z := seg_z segment;
     seg_rotation_y := 0 |}.

(** The track literal of [createRoad]. *)
Definition trackPoints_createRoad : list TrackPoint :=
  [ {| pos := 0.0; turn := 0 |};
    {| pos := 0.15; turn := -1.0 |};
    {| pos := 0.3; turn := 0 |};
    {| pos := 0.35; turn := 0 |};
    {| pos := 0.5; turn := 1.0 |};
    {| pos := 0.65; turn := 0 |};
    {| pos := 0.7; turn := 0 |};
    {| pos := 0.85; turn := -0.6 |};
    {| pos := 1.0; turn := 0 |} ].

(** The road state of [GameWorld]. *)
Record Road : Type := {
  roadSegments : list Segment;
  roadZMin : Q;
  roadZMax : Q;
  lastRecycleFrame : nat;
  updateCount : nat;
  initialBoundsCalculated : bool;
  playerZPosition : Q
}.

(** The segment [createRoad] makes for index [i]. *)
Definition initialSegment (i : nat) : Segment :=
  let z := inject_Z (Z.of_nat i) * SEGMENT_LENGTH in
  let patternPosition := rem z ROAD_LENGTH / ROAD_LENGTH in
  {| seg_x := offsetOnTrack trackPoints_createRoad patternPosition;
     seg_z := z;
     seg_rotation_y := 0 |}.

Definition initialSegments : nat := 1000.

(** The road after [init()]: [createRoad] on a fresh [GameWorld]. *)
Definition createRoad : Road :=
  {| roadSegments := map initialSegment (seq 0 initialSegments);
     roadZMin := 0;
     roadZMax := inject_Z (Z.of_nat initialSegments) * SEGMENT_LENGTH;
     lastRecycleFrame := 0;
     updateCount := 0;
     initialBoundsCalculated := false;
     playerZPosition := 0 |}.

(** A segment moved to [newZ] and positioned there. *)
Definition relocate (segment : Segment) (playerZ newZ : Q) : Segment :=
  positionRoadSegment
    {| seg_x := seg_x segment; seg_z := newZ;
       seg_rotation_y := seg_rotation_y segment |}
    playerZ newZ.

(** The loop of the quick path over the segments it looks at: a segment
    more than 500 behind the player goes to [maxZ + SEGMENT_LENGTH]. *)
Fixpoint emergencyLoop (playerZ : Q) (segments : list Segment) (maxZ : Q)
    : list Segment * Q :=
  match segments with
  | [] => ([], maxZ)
  | segment :: rest =>
      if Qltb 500 (playerZ - seg_z segment) then
        let newZ := maxZ + SEGMENT_LENGTH in
        let (rest', maxZ') := emergencyLoop playerZ rest newZ in
        (relocate segment playerZ newZ :: rest', maxZ')
      else
        let (rest', maxZ') := emergencyLoop playerZ rest maxZ in
        (segment :: rest', maxZ')
  end.

(** The recycling loop of the full pass: it stops after 50 relocations, and
    after any segment once the road reaches more than 3000 ahead. *)
Fixpoint recycleLoop (playerZ : Q) (segments : list Segment) (maxZ : Q)
    (recycledForward : nat) : list Segment * Q * nat :=
  match segments with
  | [] => ([], maxZ, recycledForward)
  | segment :: rest =>
      if (recycledForward <? 50)%nat then
        let moved := Qltb 1000 (playerZ - seg_z segment) in
        let newZ := maxZ + SEGMENT_LENGTH in
        let segment' := if moved then relocate segment playerZ newZ else segment in
        let maxZ1 := if moved then newZ else maxZ in
        let recycled1 := if moved then S recycledForward else recycledForward in
        if Qltb 3000 (maxZ1 - playerZ) then (segment' :: rest, maxZ1, recycled1)
        else
          let '(rest', maxZ', recycled') :=
            recycleLoop playerZ rest maxZ1 recycled1 in
          (segment' :: rest', maxZ', recycled')
      else (segments, maxZ, recycledForward)
  end.

(** The elements at indices 0, 4, 8, ... ([skip] is the distance to the
    next one taken). *)
Fixpoint sampled {A : Type} (skip : nat) (l : list A) : list A :=
  match l with
  | [] => []
  | a :: rest =>
      match skip with
      | O => a :: sampled 3 rest
      | S k => sampled k rest
      end
  end.

Definition qmax (a b : Q) : Q := if Qltb a b then b else a.
Definition qmin (a b : Q) : Q := if Qltb b a then b else a.

(** [x || -Infinity] and [x || Infinity]: [None] is the infinity. *)
Definition orInfinity (x : Q) : option Q :=
  if Qeq_bool x 0 then None else Some x.

Definition maxFrom (start : option Q) (z : Q) : Q :=
  match start with Some m => qmax m z | None => z end.

Definition minFrom (start : option Q) (z : Q) : Q :=
  match start with Some m => qmin m z | None => z end.

(** The quick path of [recycleRoadSegments]: only the first 50 entries of
    the array are looked at. *)
Definition emergencyExtension (w : Road) (playerZ : Q) (frame : nat) : Road :=
  let quickAheadDistance := roadZMax w - playerZ in
  if Qltb quickAheadDistance 500 then
    let (front, maxZ) :=
      emergencyLoop playerZ (firstn 50 (roadSegments w)) (roadZMax w) in
    {| roadSegments := front ++ skipn 50 (roadSegments w);
       roadZMin := roadZMin w;
       roadZMax := maxZ;
       lastRecycleFrame := frame;
       updateCount := updateCount w;
       initialBoundsCalculated := initialBoundsCalculated w;
       playerZPosition := playerZPosition w |}
  else
    {| roadSegments := roadSegments w;
       roadZMin := roadZMin w;
       roadZMax := roadZMax w;
       lastRecycleFrame := frame;
       updateCount := updateCount w;
       initialBoundsCalculated := initialBoundsCalculated w;
       playerZPosition := playerZPosition w |}.

(** The full pass: the bounds are resampled from every fourth segment, then
    segments more than 1000 behind go ahead of the road while it reaches
    less than 3000 ahead of the player. *)
Definition fullPass (w : Road) (playerZ : Q) (shouldRecycle : bool)
    (frame : nat) : Road :=
  match roadSegments w with
  | [] =>
      {| roadSegments := [];
         roadZMin := roadZMin w;
         roadZMax := roadZMax w;
         lastRecycleFrame := frame;
         updateCount := updateCount w;
         initialBoundsCalculated := initialBoundsCalculated w;
         playerZPosition := playerZPosition w |}
  | first :: others =>
      let resample := negb (initialBoundsCalculated w) || shouldRecycle in
      let later := sampled 3 (map seg_z others) in
      let zMax :=
        if resample
        then fold_left qmax later
               (maxFrom (orInfinity (roadZMax w)) (seg_z first))
        else roadZMax w in
      let zMin :=
        if resample
        then fold_left qmin later
               (minFrom (orInfinity (roadZMin w)) (seg_z first))
        else roadZMin w in
      let roadAheadDistance := zMax - playerZ in
      if Qltb roadAheadDistance 3000 then
        let '(segments', maxZ, recycledForward) :=
          recycleLoop playerZ (roadSegments w) zMax 0 in
        {| roadSegments := segments';
           roadZMin := zMin;
           roadZMax := if (0 <? recycledForward)%nat then maxZ else zMax;
           lastRecycleFrame := frame;
           updateCount := updateCount w;
           initialBoundsCalculated := initialBoundsCalculated w || resample;
           playerZPosition := playerZPosition w |}
      else
        {| roadSegments := roadSegments w;
           roadZMin := zMin;
           roadZMax := zMax;
           lastRecycleFrame := frame;
           updateCount := updateCount w;
           initialBoundsCalculated := initialBoundsCalculated w || resample;
           playerZPosition := playerZPosition w |}
  end.

Definition recycleRoadSegments (w : Road) (playerZ : Q) : Road :=
  let frame := S (lastRecycleFrame w) in
  let shouldRecycle := (10 <=? frame)%nat in
  if shouldRecycle then fullPass w playerZ true 0
  else if Qeq_bool (roadZMax w) 0 then fullPass w playerZ false frame
  else emergencyExtension w playerZ frame.

Definition setPlayerZ (w : Road) (playerZ : Q) : Road :=
  {| roadSegments := roadSegments w;
     roadZMin := roadZMin w;
     roadZMax := roadZMax w;
     lastRecycleFrame := lastRecycleFrame w;
     updateCount := updateCount w;
     initialBoundsCalculated := initialBoundsCalculated w;
     playerZPosition := playerZ |}.

(** [updateRoad(deltaTime, playerSpeed, playerPosition, currentTime)], with
    [playerPosition] the z of the position or [None] when it is absent. *)
Definition updateRoad (w : Road) (playerSpeed : Q) (playerPosition : option Q)
    : Road :=
  match playerPosition with
  | None => w
  | Some playerZ =>
      let w1 := setPlayerZ w playerZ in
      let distanceToRoadEnd := roadZMax w1 - playerZ in
      let w2 :=
        if Qltb distanceToRoadEnd 500
        then recycleRoadSegments w1 playerZ else w1 in
      if Qltb 0 playerSpeed && (updateCount w2 mod 3 =? 0)%nat
      then recycleRoadSegments w2 playerZ
      else w2
  end.

Definition countUpdate (w : Road) : Road :=
  {| roadSegments := roadSegments w;
     roadZMin := roadZMin w;
     roadZMax := roadZMax w;
     lastRecycleFrame := lastRecycleFrame w;
     updateCount := S (updateCount w);
     initialBoundsCalculated := initialBoundsCalculated w;
     playerZPosition := playerZPosition w |}.

(** The road part of [GameWorld.update]: the counter, the first-frame and
    early-game blocks and [updateRoad].  The calls after it (obstacles,
    collectibles, decorations, spawning, visual effects) do not touch the
    road state. *)
Definition update (w : Road) (playerSpeed : Q) (playerPosition : option Q)
    : Road :=
  let w0 := countUpdate w in
  match playerPosition with
  | None => updateRoad w0 playerSpeed playerPosition
  | Some playerZ =>
      let w1 :=
        if (updateCount w0 =? 1)%nat then setPlayerZ w0 playerZ else w0 in
      let earlyGameCheck := (updateCount w1 <? 100)%nat in
      let w2 :=
        if earlyGameCheck && (updateCount w1 mod 20 =? 0)%nat
           && Qltb (roadZMax w1 - playerZ) 2000
        then recycleRoadSegments w1 playerZ
        else w1 in
      updateRoad w2 playerSpeed playerPosition
  end.

(** The road after the frames of a drive: each frame hands the player's
    speed and z to [update]. *)
Definition drive (w : Road) (frames : list (Q * Q)) : Road :=
  fold_left (fun w f => update w (fst f) (Some (snd f))) frames w.

(** The road extent ahead of the player, [roadZMax - playerZ]. *)
Definition roadAhead (w : Road) (playerZ : Q) : Q := roadZMax w - playerZ.

(** [forceUpdateAllRoadSegments]: nothing happens while [playerZPosition]
    is falsy (0); otherwise the segments ahead of [playerZ - 30] are
    positioned again. *)
Definition forceUpdateAllRoadSegments (w : Road) : Road :=
  if Qeq_bool (playerZPosition w) 0 then w
  else
    let playerZ := playerZPosition w in
    {| roadSegments :=
         map (fun segment =>
                if Qltb (playerZ - 30) (seg_z segment)
                then positionRoadSegment segment playerZ (seg_z segment)
                else segment)
             (roadSegments w);
       roadZMin := roadZMin w;
       roadZMax := roadZMax w;
       lastRecycleFrame := lastRecycleFrame w;
       updateCount := updateCount w;
       initialBoundsCalculated := initialBoundsCalculated w;
       playerZPosition := playerZPosition w |}.

(** The loop [for (i = a.length - 1; i >= 0; i--) if (test(a[i]))
    { removed.push(a[i]); a.splice(i, 1); }] of [updateObstacles],
    [updateCollectibles] and [checkCollisions], from index [i - 1] down;
    [None] is the TypeError of reading an element that is not there. *)
Fixpoint spliceLoop {A : Type} (test : A -> bool) (i : nat) (a removed : list A)
    : option (list A * list A) :=
  match i with
  | O => Some (a, removed)
  | S j =>
      match nth_error a j with
      | None => None
      | Some x =>
          if test x
          then spliceLoop test j (firstn j a ++ skipn (S j) a) (removed ++ [x])
          else spliceLoop test j a removed
      end
  end.

(** An obstacle or collectible group: [position.x], [position.z] and
    [userData.lane]. *)
Record Entity : Type := { entity_x : Q; entity_z : Q; entity_lane : Z }.

(** [updateObstacles(deltaTime, playerSpeed, playerPosition)] on
    [this.obstacles]. *)
Definition updateObstacles (obstacles : list Entity)
    (playerPosition : option Q) : option (list Entity) :=
  match playerPosition with
  | None => Some obstacles
  | Some playerZ =>
      option_map fst
        (spliceLoop (fun obstacle => Qltb 150 (playerZ - entity_z obstacle))
           (List.length obstacles) obstacles [])
  end.




(** A segment at or ahead of the start line. *)
Definition ahead_of_start (segment : Segment) : Prop := 0 <= seg_z segment.

(** The roads the frame code can make of a road: every change goes through
    [recycleRoadSegments], the player position or the frame counter. *)
Inductive maintained (w : Road) : Road -> Prop :=
| maintained_start : maintained w w
| maintained_recycle (w' : Road) (playerZ : Q) :
    maintained w w' -> maintained w (recycleRoadSegments w' playerZ)
| maintained_player (w' : Road) (playerZ : Q) :
    maintained w w' -> maintained w (setPlayerZ w' playerZ)
| maintained_count (w' : Road) :
    maintained w w' -> maintained w (countUpdate w').

(** A drive at constant speed: frame k finds the player at [k * step]. *)
Definition steadyDrive (playerSpeed step : Q) (n : nat) : list (Q * Q) :=
  map (fun k => (playerSpeed, inject_Z (Z.of_nat k) * step)) (seq 1 n).

(** A segment carries the track offset of the place where it lies. *)
Definition positioned (segment : Segment) : Prop :=
  seg_x segment == getTrackXPositionAtZ (seg_z segment).

(** A segment with the yaw it is made with, [rotation.y] 0. *)
Definition unturned (segment : Segment) : Prop := seg_rotation_y segment = 0.

End World.

(** ** Runs of the vehicle

    [Math.random()] is the only source of randomness in the two files; a
    computation that may call it takes the sequence of values the host will
    return and a cursor into it, and gives back the cursor it leaves.  The
    runs execute the methods as programs in that monad ([Script]), so that
    a draw anywhere in the call tree of a method moves the cursor. *)

Module Game.

Import Physics.

Definition RandomSource : Type := nat -> num.

Definition Rand (A : Type) : Type := RandomSource -> nat -> A * nat.

Definition ret {A : Type} (a : A) : Rand A := fun _ k => (a, k).

Definition bind {A B : Type} (m : Rand A) (f : A -> Rand B) : Rand B :=
  fun src k => let (a, k') := m src k in f a src k'.

Definition Math_random : Rand num := fun src k => (src k, S k).

(** *** The methods, statement by statement

    The methods of [Vehicle] once more, as the programs the class holds:
    each statement reads or assigns a field of [this], and a method may
    call [Math.random()], trigger an event on [world.events] or throw.  A
    program gets [this] and the events triggered so far, and runs in
    [Rand]; [None] is a TypeError. *)

Module Script.

(** The assignments to the fields of [this]. *)

Definition set_position (x : Vector3) (this : Vehicle) : Vehicle :=
  {| position := x; velocity := velocity this;
     acceleration := acceleration this; direction := direction this;
     right := right this; up := up this; rotation_y := rotation_y this;
     angularVelocity := angularVelocity this;
     angularAcceleration := angularAcceleration this; speed := speed this;
     wheelSpeed := wheelSpeed this; steeringAngle := steeringAngle this;
     throttle := throttle this; brake := brake this; reverse := reverse this;
     isGrounded := isGrounded this; isOffRoad := isOffRoad this;
     wasOffRoad := wasOffRoad this; wheels := wheels this;
     frontWheels := frontWheels this; rearWheels := rearWheels this;
     input := input this; debugForces := debugForces this |}.

Definition set_velocity (x : Vector3) (this : Vehicle) : Vehicle :=
  {| position := position this; velocity := x;
     acceleration := acceleration this; direction := direction this;
     right := right this; up := up this; rotation_y := rotation_y this;
     angularVelocity := angularVelocity this;
     angularAcceleration := angularAcceleration this; speed := speed this;
     wheelSpeed := wheelSpeed this; steeringAngle := steeringAngle this;
     throttle := throttle this; brake := brake this; reverse := reverse this;
     isGrounded := isGrounded this; isOffRoad := isOffRoad this;
     wasOffRoad := wasOffRoad this; wheels := wheels this;
     frontWheels := frontWheels this; rearWheels := rearWheels this;
     input := input this; debugForces := debugForces this |}.

Definition set_acceleration (x : Vector3) (this : Vehicle) : Vehicle :=
  {| position := position this; velocity := velocity this; acceleration := x;
     direction := direction this; right := right this; up := up this;
     rotation_y := rotation_y this; angularVelocity := angularVelocity this;
     angularAcceleration := angularAcceleration this; speed := speed this;
     wheelSpeed := wheelSpeed this; steeringAngle := steeringAngle this;
     throttle := throttle this; brake := brake this; reverse := reverse this;
     isGrounded := isGrounded this; isOffRoad := isOffRoad this;
     wasOffRoad := wasOffRoad this; wheels := wheels this;
     frontWheels := frontWheels this; rearWheels := rearWheels this;
     input := input this; debugForces := debugForces this |}.

Definition set_direction (x : Vector3) (this : Vehicle) : Vehicle :=
  {| position := position this; velocity := velocity this;
     acceleration := acceleration this; direction := x; right := right this;
     up := up this; rotation_y := rotation_y this;
     angularVelocity := angularVelocity this;
     angularAcceleration := angularAcceleration this; speed := speed this;
     wheelSpeed := wheelSpeed this; steeringAngle := steeringAngle this;
     throttle := throttle this; brake := brake this; reverse := reverse this;
     isGrounded := isGrounded this; isOffRoad := isOffRoad this;
     wasOffRoad := wasOffRoad this; wheels := wheels this;
     frontWheels := frontWheels this; rearWheels := rearWheels this;
     input := input this; debugForces := debugForces this |}.

Definition set_right (x : Vector3) (this : Vehicle) : Vehicle :=
  {| position := position this; velocity := velocity this;
     acceleration := acceleration this; direction := direction this;
     right := x; up := up this; rotation_y := rotation_y this;
     angularVelocity := angularVelocity this;
     angularAcceleration := angularAcceleration this; speed := speed this;
     wheelSpeed := wheelSpeed this; steeringAngle := steeringAngle this;
     throttle := throttle this; brake := brake this; reverse := reverse this;
     isGrounded := isGrounded this; isOffRoad := isOffRoad this;
     wasOffRoad := wasOffRoad this; wheels := wheels this;
     frontWheels := frontWheels this; rearWheels := rearWheels this;
     input := input this; debugForces := debugForces this |}.

Definition set_up (x : Vector3) (this : Vehicle) : Vehicle :=
  {| position := position this; velocity := velocity this;
     acceleration := acceleration this; direction := direction this;
     right := right this; up := x; rotation_y := rotation_y this;
     angularVelocity := angularVelocity this;
     angularAcceleration := angularAcceleration this; speed := speed this;
     wheelSpeed := wheelSpeed this; steeringAngle := steeringAngle this;
     throttle := throttle this; brake := brake this; reverse := reverse this;
     isGrounded := isGrounded this; isOffRoad := isOffRoad this;
     wasOffRoad := wasOffRoad this; wheels := wheels this;
     frontWheels := frontWheels this; rearWheels := rearWheels this;
     input := input this; debugForces := debugForces this |}.

Definition set_rotation_y (x : num) (this : Vehicle) : Vehicle :=
  {| position := position this; velocity := velocity this;
     acceleration := acceleration this; direction := direction this;
     right := right this; up := up this; rotation_y := x;
     angularVelocity := angularVelocity this;
     angularAcceleration := angularAcceleration this; speed := speed this;
     wheelSpeed := wheelSpeed this; steeringAngle := steeringAngle this;
     throttle := throttle this; brake := brake this; reverse := reverse this;
     isGrounded := isGrounded this; isOffRoad := isOffRoad this;
     wasOffRoad := wasOffRoad this; wheels := wheels this;
     frontWheels := frontWheels this; rearWheels := rearWheels this;
     input := input this; debugForces := debugForces this |}.

Definition set_angularVelocity (x : num) (this : Vehicle) : Vehicle :=
  {| position := position this; velocity := velocity this;
     acceleration := acceleration this; direction := direction this;
     right := right this; up := up this; rotation_y := rotation_y this;
     angularVelocity := x; angularAcceleration := angularAcceleration this;
     speed := speed this; wheelSpeed := wheelSpeed this;
     steeringAngle := steeringAngle this; throttle := throttle this;
     brake := brake this; reverse := reverse this;
     isGrounded := isGrounded this; isOffRoad := isOffRoad this;
     wasOffRoad := wasOffRoad this; wheels := wheels this;
     frontWheels := frontWheels this; rearWheels := rearWheels this;
     input := input this; debugForces := debugForces this |}.

Definition set_angularAcceleration (x : num) (this : Vehicle) : Vehicle :=
  {| position := position this; velocity := velocity this;
     acceleration := acceleration this; direction := direction this;
     right := right this; up := up this; rotation_y := rotation_y this;
     angularVelocity := angularVelocity this; angularAcceleration := x;
     speed := speed this; wheelSpeed := wheelSpeed this;
     steeringAngle := steeringAngle this; throttle := throttle this;
     brake := brake this; reverse := reverse this;
     isGrounded := isGrounded this; isOffRoad := isOffRoad this;
     wasOffRoad := wasOffRoad this; wheels := wheels this;
     frontWheels := frontWheels this; rearWheels := rearWheels this;
     input := input this; debugForces := debugForces this |}.

Definition set_speed (x : num) (this : Vehicle) : Vehicle :=
  {| position := position this; velocity := velocity this;
     acceleration := acceleration this; direction := direction this;
     right := right this; up := up this; rotation_y := rotation_y this;
     angularVelocity := angularVelocity this;
     angularAcceleration := angularAcceleration this; speed := x;
     wheelSpeed := wheelSpeed this; steeringAngle := steeringAngle this;
     throttle := throttle this; brake := brake this; reverse := reverse this;
     isGrounded := isGrounded this; isOffRoad := isOffRoad this;
     wasOffRoad := wasOffRoad this; wheels := wheels this;
     frontWheels := frontWheels this; rearWheels := rearWheels this;
     input := input this; debugForces := debugForces this |}.

Definition set_wheelSpeed (x : num) (this : Vehicle) : Vehicle :=
  {| position := position this; velocity := velocity this;
     acceleration := acceleration this; direction := direction this;
     right := right this; up := up this; rotation_y := rotation_y this;
     angularVelocity := angularVelocity this;
     angularAcceleration := angularAcceleration this; speed := speed this;
     wheelSpeed := x; steeringAngle := steeringAngle this;
     throttle := throttle this; brake := brake this; reverse := reverse this;
     isGrounded := isGrounded this; isOffRoad := isOffRoad this;
     wasOffRoad := wasOffRoad this; wheels := wheels this;
     frontWheels := frontWheels this; rearWheels := rearWheels this;
     input := input this; debugForces := debugForces this |}.

Definition set_steeringAngle (x : num) (this : Vehicle) : Vehicle :=
  {| position := position this; velocity := velocity this;
     acceleration := acceleration this; direction := direction this;
     right := right this; up := up this; rotation_y := rotation_y this;
     angularVelocity := angularVelocity this;
     angularAcceleration := angularAcceleration this; speed := speed this;
     wheelSpeed := wheelSpeed this; steeringAngle := x;
     throttle := throttle this; brake := brake this; reverse := reverse this;
     isGrounded := isGrounded this; isOffRoad := isOffRoad this;
     wasOffRoad := wasOffRoad this; wheels := wheels this;
     frontWheels := frontWheels this; rearWheels := rearWheels this;
     input := input this; debugForces := debugForces this |}.

Definition set_throttle (x : num) (this : Vehicle) : Vehicle :=
  {| position := position this; velocity := velocity this;
     acceleration := acceleration this; direction := direction this;
     right := right this; up := up this; rotation_y := rotation_y this;
     angularVelocity := angularVelocity this;
     angularAcceleration := angularAcceleration this; speed := speed this;
     wheelSpeed := wheelSpeed this; steeringAngle := steeringAngle this;
     throttle := x; brake := brake this; reverse := reverse this;
     isGrounded := isGrounded this; isOffRoad := isOffRoad this;
     wasOffRoad := wasOffRoad this; wheels := wheels this;
     frontWheels := frontWheels this; rearWheels := rearWheels this;
     input := input this; debugForces := debugForces this |}.

Definition set_brake (x : num) (this : Vehicle) : Vehicle :=
  {| position := position this; velocity := velocity this;
     acceleration := acceleration this; direction := direction this;
     right := right this; up := up this; rotation_y := rotation_y this;
     angularVelocity := angularVelocity this;
     angularAcceleration := angularAcceleration this; speed := speed this;
     wheelSpeed := wheelSpeed this; steeringAngle := steeringAngle this;
     throttle := throttle this; brake := x; reverse := reverse this;
     isGrounded := isGrounded this; isOffRoad := isOffRoad this;
     wasOffRoad := wasOffRoad this; wheels := wheels this;
     frontWheels := frontWheels this; rearWheels := rearWheels this;
     input := input this; debugForces := debugForces this |}.

Definition set_reverse (x : num) (this : Vehicle) : Vehicle :=
  {| position := position this; velocity := velocity this;
     acceleration := acceleration this; direction := direction this;
     right := right this; up := up this; rotation_y := rotation_y this;
     angularVelocity := angularVelocity this;
     angularAcceleration := angularAcceleration this; speed := speed this;
     wheelSpeed := wheelSpeed this; steeringAngle := steeringAngle this;
     throttle := throttle this; brake := brake this; reverse := x;
     isGrounded := isGrounded this; isOffRoad := isOffRoad this;
     wasOffRoad := wasOffRoad this; wheels := wheels this;
     frontWheels := frontWheels this; rearWheels := rearWheels this;
     input := input this; debugForces := debugForces this |}.

Definition set_isGrounded (x : bool) (this : Vehicle) : Vehicle :=
  {| position := position this; velocity := velocity this;
     acceleration := acceleration this; direction := direction this;
     right := right this; up := up this; rotation_y := rotation_y this;
     angularVelocity := angularVelocity this;
     angularAcceleration := angularAcceleration this; speed := speed this;
     wheelSpeed := wheelSpeed this; steeringAngle := steeringAngle this;
     throttle := throttle this; brake := brake this; reverse := reverse this;
     isGrounded := x; isOffRoad := isOffRoad this;
     wasOffRoad := wasOffRoad this; wheels := wheels this;
     frontWheels := frontWheels this; rearWheels := rearWheels this;
     input := input this; debugForces := debugForces this |}.

Definition set_isOffRoad (x : bool) (this : Vehicle) : Vehicle :=
  {| position := position this; velocity := velocity this;
     acceleration := acceleration this; direction := direction this;
     right := right this; up := up this; rotation_y := rotation_y this;
     angularVelocity := angularVelocity this;
     angularAcceleration := angularAcceleration this; speed := speed this;
     wheelSpeed := wheelSpeed this; steeringAngle := steeringAngle this;
     throttle := throttle this; brake := brake this; reverse := reverse this;
     isGrounded := isGrounded this; isOffRoad := x;
     wasOffRoad := wasOffRoad this; wheels := wheels this;
     frontWheels := frontWheels this; rearWheels := rearWheels this;
     input := input this; debugForces := debugForces this |}.

Definition set_wasOffRoad (x : bool) (this : Vehicle) : Vehicle :=
  {| position := position this; velocity := velocity this;
     acceleration := acceleration this; direction := direction this;
     right := right this; up := up this; rotation_y := rotation_y this;
     angularVelocity := angularVelocity this;
     angularAcceleration := angularAcceleration this; speed := speed this;
     wheelSpeed := wheelSpeed this; steeringAngle := steeringAngle this;
     throttle := throttle this; brake := brake this; reverse := reverse this;
     isGrounded := isGrounded this; isOffRoad := isOffRoad this;
     wasOffRoad := x; wheels := wheels this; frontWheels := frontWheels this;
     rearWheels := rearWheels this; input := input this;
     debugForces := debugForces this |}.

Definition set_wheels (x : list Wheel) (this : Vehicle) : Vehicle :=
  {| position := position this; velocity := velocity this;
     acceleration := acceleration this; direction := direction this;
     right := right this; up := up this; rotation_y := rotation_y this;
     angularVelocity := angularVelocity this;
     angularAcceleration := angularAcceleration this; speed := speed this;
     wheelSpeed := wheelSpeed this; steeringAngle := steeringAngle this;
     throttle := throttle this; brake := brake this; reverse := reverse this;
     isGrounded := isGrounded this; isOffRoad := isOffRoad this;
     wasOffRoad := wasOffRoad this; wheels := x;
     frontWheels := frontWheels this; rearWheels := rearWheels this;
     input := input this; debugForces := debugForces this |}.

Definition set_frontWheels (x : list WheelMesh) (this : Vehicle) : Vehicle :=
  {| position := position this; velocity := velocity this;
     acceleration := acceleration this; direction := direction this;
     right := right this; up := up this; rotation_y := rotation_y this;
     angularVelocity := angularVelocity this;
     angularAcceleration := angularAcceleration this; speed := speed this;
     wheelSpeed := wheelSpeed this; steeringAngle := steeringAngle this;
     throttle := throttle this; brake := brake this; reverse := reverse this;
     isGrounded := isGrounded this; isOffRoad := isOffRoad this;
     wasOffRoad := wasOffRoad this; wheels := wheels this; frontWheels := x;
     rearWheels := rearWheels this; input := input this;
     debugForces := debugForces this |}.

Definition set_rearWheels (x : list WheelMesh) (this : Vehicle) : Vehicle :=
  {| position := position this; velocity := velocity this;
     acceleration := acceleration this; direction := direction this;
     right := right this; up := up this; rotation_y := rotation_y this;
     angularVelocity := angularVelocity this;
     angularAcceleration := angularAcceleration this; speed := speed this;
     wheelSpeed := wheelSpeed this; steeringAngle := steeringAngle this;
     throttle := throttle this; brake := brake this; reverse := reverse this;
     isGrounded := isGrounded this; isOffRoad := isOffRoad this;
     wasOffRoad := wasOffRoad this; wheels := wheels this;
     frontWheels := frontWheels this; rearWheels := x; input := input this;
     debugForces := debugForces this |}.

Definition set_input (x : option Input) (this : Vehicle) : Vehicle :=
  {| position := position this; velocity := velocity this;
     acceleration := acceleration this; direction := direction this;
     right := right this; up := up this; rotation_y := rotation_y this;
     angularVelocity := angularVelocity this;
     angularAcceleration := angularAcceleration this; speed := speed this;
     wheelSpeed := wheelSpeed this; steeringAngle := steeringAngle this;
     throttle := throttle this; brake := brake this; reverse := reverse this;
     isGrounded := isGrounded this; isOffRoad := isOffRoad this;
     wasOffRoad := wasOffRoad this; wheels := wheels this;
     frontWheels := frontWheels this; rearWheels := rearWheels this;
     input := x; debugForces := debugForces this |}.

Definition set_debugForces (x : option DebugForces) (this : Vehicle) : Vehicle :=
  {| position := position this; velocity := velocity this;
     acceleration := acceleration this; direction := direction this;
     right := right this; up := up this; rotation_y := rotation_y this;
     angularVelocity := angularVelocity this;
     angularAcceleration := angularAcceleration this; speed := speed this;
     wheelSpeed := wheelSpeed this; steeringAngle := steeringAngle this;
     throttle := throttle this; brake := brake this; reverse := reverse this;
     isGrounded := isGrounded this; isOffRoad := isOffRoad this;
     wasOffRoad := wasOffRoad this; wheels := wheels this;
     frontWheels := frontWheels this; rearWheels := rearWheels this;
     input := input this; debugForces := x |}.

Definition Method (A : Type) : Type :=
  Vehicle -> list string -> Rand (option (A * Vehicle * list string)).

Definition pure {A : Type} (a : A) : Method A :=
  fun this log => ret (Some (a, this, log)).

Definition andThen {A B : Type} (m : Method A) (f : A -> Method B)
    : Method B :=
  fun this log =>
    bind (m this log) (fun r =>
      match r with
      | None => ret None
      | Some (a, this', log') => f a this' log'
      end).

(** [this.field]. *)
Definition get {A : Type} (field : Vehicle -> A) : Method A :=
  fun this log => ret (Some (field this, this, log)).

(** [this.field = x], with [assign] one of the setters below. *)
Definition set (assign : Vehicle -> Vehicle) : Method unit :=
  fun this log => ret (Some (tt, assign this, log)).

(** [Math.random()]. *)
Definition random : Method num :=
  fun this log => bind Math_random (fun r => ret (Some (r, this, log))).

Definition throwTypeError {A : Type} : Method A := fun _ _ => ret None.

(** [world.events.trigger(event)]. *)
Definition trigger (event : string) : Method unit :=
  fun this log => ret (Some (tt, this, log ++ [event])).

Declare Scope method_scope.
Delimit Scope method_scope with method.
Bind Scope method_scope with Method.

Notation "x <- m ;; k" := (andThen m (fun x => k))
  (at level 61, m at next level, right associativity) : method_scope.
Notation "m ;; k" := (andThen m (fun _ => k))
  (at level 61, right associativity) : method_scope.

Local Open Scope method_scope.

(** [array.forEach(callback)] on an array of objects the callback
    assigns to. *)
Fixpoint forEach {A : Type} (callback : A -> Method A) (array : list A)
    : Method (list A) :=
  match array with
  | [] => pure []
  | a :: rest =>
      a' <- callback a ;;
      rest' <- forEach callback rest ;;
      pure (a' :: rest')
  end.


Section Methods.
Context {M : MathLib}.

Definition updateControls (input : Input) (dt : num) : Method unit :=
  set (set_brake (if in_brake input then Fin 1.0 else Fin 0.0)) ;;
  set (set_reverse (if in_reverse input then Fin 1.0 else Fin 0.0)) ;;
  set (set_throttle
         (if accelerate input && negb (in_brake input)
          then Fin 1.0 else Fin 0.0)) ;;
  (if turnLeft input then
     angle <- get steeringAngle ;;
     set (set_steeringAngle
            (Math_min (angle + STEERING_SPEED * dt) MAX_STEERING_ANGLE))
   else if turnRight input then
     angle <- get steeringAngle ;;
     set (set_steeringAngle
            (Math_max (angle - STEERING_SPEED * dt) (- MAX_STEERING_ANGLE)))
   else
     angle <- get steeringAngle ;;
     if Math_abs angle <? STEERING_RETURN_SPEED * dt then
       set (set_steeringAngle (Fin 0))
     else
       set (set_steeringAngle
              (angle - Math_sign angle * STEERING_RETURN_SPEED * dt))) ;;
  spd <- get speed ;;
  let speedFactor :=
    Math_max (Fin 0.15)
             (Fin 1.0 - Math_pow (spd / MAX_SPEED) (Fin 0.7) * Fin 0.85) in
  angle' <- get steeringAngle ;;
  let effectiveSteeringAngle := angle' * speedFactor in
  front <- get frontWheels ;;
  if (0 <? List.length front)%nat then
    set (set_frontWheels
           (map (fun wheel =>
                   {| rotation_x := rotation_x wheel;
                      mesh_rotation_y := effectiveSteeringAngle |})
                front))
  else pure tt.

Definition getWheelWorldPosition (wheel : Wheel) : Method Vector3 :=
  let wheelPos := wheel_position wheel in
  yaw <- get rotation_y ;;
  let wheelPos1 := applyRotationY yaw wheelPos in
  p <- get position ;;
  pure (vadd wheelPos1 p).

(** The callback of [this.wheels.forEach] in [updateSuspension]. *)
Definition suspend (wheel : Wheel) : Method Wheel :=
  wheelPos <- getWheelWorldPosition wheel ;;
  let restLength := WHEEL_RADIUS + SUSPENSION_TRAVEL in
  let groundHeight := Fin 0 in
  let compressionDistance :=
    Math_max (Fin 0) (restLength - (vy wheelPos - groundHeight)) in
  let compression' := compressionDistance / restLength in
  let onGround' := compressionDistance >? Fin 0 in
  if onGround' then
    let springForce := compressionDistance * SUSPENSION_STIFFNESS in
    vel <- get velocity ;;
    let suspensionVelocity := vy vel in
    let dampingForce := suspensionVelocity * SUSPENSION_DAMPING in
    pure {| wheel_position := wheel_position wheel;
            contactPoint := set_y wheelPos groundHeight;
            suspensionForce := springForce - dampingForce;
            compression := compression';
            onGround := onGround';
            isFront := isFront wheel |}
  else
    pure {| wheel_position := wheel_position wheel;
            contactPoint := contactPoint wheel;
            suspensionForce := Fin 0;
            compression := compression';
            onGround := onGround';
            isFront := isFront wheel |}.

Definition updateSuspension (dt : num) (world : option WorldView)
    : Method unit :=
  array <- get wheels ;;
  array' <- forEach suspend array ;;
  set (set_wheels array') ;;
  array'' <- get wheels ;;
  set (set_isGrounded (existsb onGround array'')).

Definition calculateForces (dt : num) : Method unit :=
  set (set_acceleration (vec3 (Fin 0) (Fin 0) (Fin 0))) ;;
  grounded <- get isGrounded ;;
  (if negb grounded then
     acc <- get acceleration ;;
     set (set_acceleration (set_y acc (vy acc - GRAVITY)))
   else pure tt) ;;
  spd <- get speed ;;
  thr <- get throttle ;;
  brk <- get brake ;;
  rev <- get reverse ;;
  let tractiveForce :=
    if grounded then
      if (thr >? Fin 0) && (spd >=? Fin (-1)) then
        let speedRatio :=
          Math_max (Fin 0) (Math_min (Fin 1) (spd / MAX_SPEED)) in
        let accelerationMultiplier :=
          Fin 1.8 * Math_pow (Fin 1 - speedRatio) (Fin 1.5) + Fin 0.2 in
        ACCELERATION * accelerationMultiplier * thr
      else if brk >? Fin 0 then
        (- Math_sign spd) * DECELERATION * Fin 6.0 * brk
      else if rev >? Fin 0 then
        if spd >? Fin 5 then (- DECELERATION) * Fin 2.0 * rev
        else if spd >? Fin 0 then (- DECELERATION) * Fin 2.5 * rev
        else (- ACCELERATION) * Fin 0.4 * rev
      else (- Math_sign spd) * ENGINE_BRAKING
    else Fin 0 in
  let dragForce := (- Math_sign spd) * DRAG_COEFFICIENT * spd * spd in
  offRoad <- get isOffRoad ;;
  let rollingResistance :=
    if grounded then
      let resistanceFactor :=
        if offRoad then OFF_ROAD_FRICTION else Fin 0.001 in
      (- Math_sign spd) * resistanceFactor * Math_abs spd
    else Fin 0 in
  let totalLongitudinalForce :=
    tractiveForce + dragForce + rollingResistance in
  let forwardAcceleration := totalLongitudinalForce / TOTAL_MASS in
  dir <- get direction ;;
  let forwardAccelerationVector := multiplyScalar dir forwardAcceleration in
  acc1 <- get acceleration ;;
  set (set_acceleration (vadd acc1 forwardAccelerationVector)) ;;
  angle <- get steeringAngle ;;
  totalAngularAcceleration <-
    (if grounded && (Math_abs spd >? Fin 0.5) then
       let steeringFactor := angle / (WHEEL_BASE * Fin 0.5) in
       let speedFactor :=
         Math_max (Fin 0.2) (Math_min (Fin 1.0) (Math_abs spd / Fin 30.0)) in
       let directionFactor := if spd <? Fin 0 then Fin (-1) else Fin 1 in
       let totalAngularAcceleration :=
         directionFactor * steeringFactor
         * Math_sqrt (Math_abs spd * Fin 20) * speedFactor in
       (if (Math_abs angle >? Fin 0.25)
           && (Math_abs spd >? MAX_SPEED * Fin 0.6) then
          let tractionLoss :=
            Math_min (Fin 0.7)
              ((Math_abs angle * Math_abs spd)
               / (MAX_STEERING_ANGLE * MAX_SPEED * Fin 1.5)) in
          let speedDampening :=
            Fin 1.0 / (Fin 1.0 + Math_abs spd / Fin 2000) in
          let driftAcceleration :=
            Math_abs spd * tractionLoss * Fin 0.4 * speedDampening in
          let steeringSign := Math_sign angle in
          let directionMultiplier :=
            if spd <? Fin 0 then Fin (-1) else Fin 1 in
          rgt <- get right ;;
          let lateralAccelerationVector :=
            multiplyScalar rgt
              (steeringSign * directionMultiplier * driftAcceleration) in
          acc2 <- get acceleration ;;
          set (set_acceleration (vadd acc2 lateralAccelerationVector))
        else pure tt) ;;
       pure totalAngularAcceleration
     else pure (Fin 0)) ;;
  set (set_angularAcceleration totalAngularAcceleration) ;;
  set (set_debugForces
         (Some {| dbg_tractiveForce := tractiveForce;
                  dbg_dragForce := dragForce;
                  dbg_rollingResistance := rollingResistance;
                  dbg_totalLongitudinalForce := totalLongitudinalForce;
                  dbg_angularAcceleration := totalAngularAcceleration |})).

Definition integrate (dt : num) : Method unit :=
  vel <- get velocity ;;
  dir <- get direction ;;
  let forwardSpeed := dot vel dir in
  let verticalVelocity := vy vel in
  acc <- get acceleration ;;
  let forwardAccel := dot acc dir in
  let newForwardSpeed := forwardSpeed + forwardAccel * dt in
  let lateralVelocity :=
    multiplyScalar (vsub vel (multiplyScalar dir forwardSpeed)) (Fin 0.98) in
  set (set_velocity
         (vadd (multiplyScalar dir newForwardSpeed) lateralVelocity)) ;;
  vel1 <- get velocity ;;
  set (set_velocity (set_y vel1 (verticalVelocity + vy acc * dt))) ;;
  set (set_speed newForwardSpeed) ;;
  spin <- get angularVelocity ;;
  spinUp <- get angularAcceleration ;;
  set (set_angularVelocity (spin + spinUp * dt)) ;;
  yaw <- get rotation_y ;;
  spin1 <- get angularVelocity ;;
  set (set_rotation_y (yaw + spin1 * dt)) ;;
  p <- get position ;;
  vel2 <- get velocity ;;
  set (set_position (vadd p (multiplyScalar vel2 dt))) ;;
  p1 <- get position ;;
  (if vy p1 <? Fin 0.5 then
     set (set_position (set_y p1 (Fin 0.5))) ;;
     vel3 <- get velocity ;;
     if vy vel3 <? Fin 0 then set (set_velocity (set_y vel3 (Fin 0)))
     else pure tt
   else pure tt) ;;
  spin2 <- get angularVelocity ;;
  set (set_angularVelocity (spin2 * Fin 0.97)).

Definition checkSurfaceInteraction (world : option WorldView) (dt : num)
    : Method unit :=
  let ROAD_HALF_WIDTH := Fin 15 in
  wasOffRoad' <- get isOffRoad ;;
  p <- get position ;;
  let '(isOffRoad', closestSegmentX) :=
    match world with
    | Some {| roadSegments := Some segments |} =>
        let '(closestSegment, closestZDistance) :=
          fold_left
            (fun best segment =>
               let zDistance :=
                 Math_abs (vz (segPosition segment) - vz p) in
               if zDistance <? snd best then (Some segment, zDistance)
               else best)
            segments (None, PInf) in
        match closestSegment with
        | Some segment =>
            if closestZDistance <? Fin 30 then
              let localPoint := vsub p (segPosition segment) in
              let localPoint1 :=
                if segRotationY segment === Fin 0 then localPoint
                else applyRotationY (- segRotationY segment) localPoint in
              let distanceFromCenter := Math_abs (vx localPoint1) in
              (distanceFromCenter >? ROAD_HALF_WIDTH, vx localPoint1)
            else (true, Fin 0)
        | None => (true, Fin 0)
        end
    | _ => (Math_abs (vx p) >? ROAD_HALF_WIDTH, vx p)
    end in
  set (set_isOffRoad isOffRoad') ;;
  offRoad <- get isOffRoad ;;
  (if offRoad then
     spd <- get speed ;;
     set (set_speed (spd * Fin 0.9998)) ;;
     stored <- get input ;;
     match stored with
     | None => throwTypeError
     | Some keys =>
         (if negb (turnLeft keys) && negb (turnRight keys) then
            spd1 <- get speed ;;
            let roadForce :=
              (- Math_sign closestSegmentX) * Fin 0.0005 * dt
              * Math_min (Fin 5) spd1 in
            angle <- get steeringAngle ;;
            set (set_steeringAngle (lerp angle roadForce (Fin 0.01)))
          else pure tt) ;;
         spd2 <- get speed ;;
         if negb wasOffRoad' && (Math_abs spd2 >? Fin 20) then
           let speedReduction :=
             Math_min (Math_abs spd2 * Fin 0.005) (OFF_ROAD_DAMAGE / Fin 4) in
           set (set_speed
                  (spd2 * ((Math_abs spd2 - speedReduction) / Math_abs spd2))) ;;
           vel <- get velocity ;;
           set (set_velocity (set_y vel (vy vel + Fin 0.3))) ;;
           match world with
           | Some {| events := true |} => trigger "offRoadCollision"
           | _ => pure tt
           end
         else pure tt
     end
   else pure tt) ;;
  offRoad' <- get isOffRoad ;;
  set (set_wasOffRoad offRoad').

Definition updateWheelRotation (dt : num) : Method unit :=
  spd <- get speed ;;
  set (set_wheelSpeed (spd / WHEEL_RADIUS)) ;;
  turning <- get wheelSpeed ;;
  let rotationAmount := turning * dt in
  let rotate := fun wheel =>
    {| rotation_x := rotation_x wheel - rotationAmount;
       mesh_rotation_y := mesh_rotation_y wheel |} in
  front <- get frontWheels ;;
  (if (0 <? List.length front)%nat
   then set (set_frontWheels (map rotate front)) else pure tt) ;;
  rear <- get rearWheels ;;
  if (0 <? List.length rear)%nat
  then set (set_rearWheels (map rotate rear)) else pure tt.

Definition updateVehicleVectors : Method unit :=
  set (set_direction (vec3 (Fin 0) (Fin 0) (Fin 1))) ;;
  set (set_right (vec3 (Fin 1) (Fin 0) (Fin 0))) ;;
  set (set_up (vec3 (Fin 0) (Fin 1) (Fin 0))) ;;
  yaw <- get rotation_y ;;
  dir <- get direction ;;
  set (set_direction (applyRotationY yaw dir)) ;;
  rgt <- get right ;;
  set (set_right (applyRotationY yaw rgt)) ;;
  dir1 <- get direction ;;
  set (set_direction (normalize dir1)) ;;
  rgt1 <- get right ;;
  set (set_right (normalize rgt1)) ;;
  top <- get up ;;
  set (set_up (normalize top)).

(** [update(input, deltaTime, world)]: the flag it returns. *)
Definition update (keys : Input) (deltaTime : num)
    (world : option WorldView) : Method bool :=
  set (set_input (Some keys)) ;;
  previousPosition <- get position ;;
  offRoad <- get isOffRoad ;;
  set (set_wasOffRoad offRoad) ;;
  let dt := Math_min deltaTime (Fin 0.1) in
  spd <- get speed ;;
  (if (spd <? Fin 0.1) && accelerate keys then
     set (set_speed (Fin 30.0)) ;;
     spd1 <- get speed ;;
     set (set_velocity (vec3 (Fin 0) (Fin 0) spd1))
   else pure tt) ;;
  updateControls keys dt ;;
  updateSuspension dt world ;;
  calculateForces dt ;;
  integrate dt ;;
  checkSurfaceInteraction world dt ;;
  updateWheelRotation dt ;;
  updateVehicleVectors ;;
  p <- get position ;;
  was <- get wasOffRoad ;;
  offRoad1 <- get isOffRoad ;;
  spd2 <- get speed ;;
  pure (negb (equals previousPosition p)
        || negb (Bool.eqb was offRoad1)
        || (spd2 >? Fin 0.1)).

Definition collideWithObstacle : Method CollisionResult :=
  spd <- get speed ;;
  let speedReduction' := Math_min (Math_abs spd) (Fin 60) in
  let oldSpeed := spd in
  set (set_speed
         (Math_sign spd * Math_max (Fin 0) (Math_abs spd - speedReduction'))) ;;
  vel <- get velocity ;;
  spd1 <- get speed ;;
  set (set_velocity (multiplyScalar vel (spd1 / oldSpeed))) ;;
  vel1 <- get velocity ;;
  set (set_velocity (set_y vel1 (Fin 0.5))) ;;
  spin <- get angularVelocity ;;
  r <- random ;;
  set (set_angularVelocity (spin + (r - Fin 0.5) * Fin 0.2)) ;;
  p <- get position ;;
  (if vy p <? Fin 0.5 then set (set_position (set_y p (Fin 0.5)))
   else pure tt) ;;
  pure {| speedReduction := speedReduction';
          effects := ["heavyGlitch"; "screenShake"; "flashRed"]%string |}.

End Methods.

End Script.

(** The two calls the game loop makes on the vehicle. *)
Inductive Call : Type :=
| CallUpdate (inp : Input) (deltaTime : num) (world : option WorldView)
| CallCollide.

(** What a frame shows of the vehicle. *)
Record Observation : Type := {
  obs_position : Vector3;
  obs_velocity : Vector3;
  obs_speed : num;
  obs_yaw : num;
  obs_steeringAngle : num;
  obs_isOffRoad : bool
}.

Definition observe (v : Vehicle) : Observation :=
  {| obs_position := position v;
     obs_velocity := velocity v;
     obs_speed := speed v;
     obs_yaw := rotation_y v;
     obs_steeringAngle := steeringAngle v;
     obs_isOffRoad := isOffRoad v |}.

Section Runs.
Context {M : MathLib}.

(** One call; [None] when it throws. *)
Definition call (v : Vehicle) (c : Call) : Rand (option Vehicle) :=
  match c with
  | CallUpdate inp deltaTime world =>
      bind (Script.update inp deltaTime world v [])
           (fun r => ret (option_map (fun x => snd (fst x)) r))
  | CallCollide =>
      bind (Script.collideWithObstacle v [])
           (fun r => ret (option_map (fun x => snd (fst x)) r))
  end.

(** The observations after each call of a run; the run ends at a call that
    throws. *)
Fixpoint run (v : Vehicle) (calls : list Call) : Rand (list Observation) :=
  match calls with
  | [] => ret []
  | c :: rest =>
      bind (call v c) (fun r =>
        match r with
        | None => ret []
        | Some v' => bind (run v' rest) (fun obs => ret (observe v' :: obs))
        end)
  end.

End Runs.

Definition updates (frames : list (Input * num * option WorldView))
    : list Call :=
  map (fun f => CallUpdate (fst (fst f)) (snd (fst f)) (snd f)) frames.

End Game.

(** ** Events and collisions *)

Module Events.

(** [EventSystem]: [callbacks] is an object made by [{}].  Its own
    properties are the arrays [on] has stored, [None] where it has none;
    under a name that [Object.prototype] defines a read then finds the
    inherited value, which is truthy and is no array.  A callback is known
    by its identity. *)
Definition Callbacks (C : Type) : Type := string -> option (list C).

Definition empty {C : Type} : Callbacks C := fun _ => None.

(** The property names of [Object.prototype]. *)
Definition inheritedNames : list string :=
  [ "constructor"; "__defineGetter__"; "__defineSetter__"; "hasOwnProperty";
    "__lookupGetter__"; "__lookupSetter__"; "isPrototypeOf";
    "propertyIsEnumerable"; "toString"; "valueOf"; "__proto__";
    "toLocaleString" ]%string.

Definition inherited (event : string) : bool :=
  existsb (String.eqb event) inheritedNames.

(** What [this.callbacks[event]] reads. *)
Inductive Slot (C : Type) : Type :=
| Absent
| Registered (registered : list C)
| Inherited.

Arguments Absent {C}.
Arguments Registered {C} registered.
Arguments Inherited {C}.

Definition read {C : Type} (cbs : Callbacks C) (event : string) : Slot C :=
  match cbs event with
  | Some registered => Registered registered
  | None => if inherited event then Inherited else Absent
  end.

Definition store {C : Type} (cbs : Callbacks C) (event : string)
    (registered : list C) : Callbacks C :=
  fun e => if String.eqb e event then Some registered else cbs e.

Section EventSystem.
Variable C : Type.
Variable same_callback : C -> C -> bool.

(** [on(event, callback)]; [None] is the TypeError of calling [push] on a
    value that has none. *)
Definition on (cbs : Callbacks C) (event : string) (callback : C)
    : option (Callbacks C) :=
  match read cbs event with
  | Absent => Some (store cbs event [callback])
  | Registered registered => Some (store cbs event (registered ++ [callback]))
  | Inherited => None
  end.

(** [off(event, callback)]; [None] is the TypeError of calling [filter]. *)
Definition off (cbs : Callbacks C) (event : string) (callback : C)
    : option (Callbacks C) :=
  match read cbs event with
  | Absent => Some cbs
  | Registered registered =>
      Some (store cbs event
              (filter (fun cb => negb (same_callback cb callback))
                      registered))
  | Inherited => None
  end.

(** [trigger(event, data)]: the calls made, in order; [None] is the
    TypeError of calling [forEach]. *)
Definition trigger {D : Type} (cbs : Callbacks C) (event : string) (data : D)
    : option (list (C * D)) :=
  match read cbs event with
  | Absent => Some []
  | Registered registered => Some (map (fun cb => (cb, data)) registered)
  | Inherited => None
  end.

End EventSystem.

End Events.

Module Collisions.

Import World.

(** What [GameWorld.checkCollisions] returns and leaves: the entities hit
    and the ones still on the road. *)
Record Outcome (E : Type) : Type := {
  hitObstacles : list E;
  hitCollectibles : list E;
  obstaclesLeft : list E;
  collectiblesLeft : list E
}.

(** [checkCollisions(playerBox)]; [boxOf] is [Box3.setFromObject] on an
    entity, the road group sits at the origin. *)
Definition checkCollisions {E : Type} (boxOf : E -> Box3) (playerBox : Box3)
    (obstacles collectibles : list E) : option (Outcome E) :=
  match spliceLoop (fun e => intersectsBox playerBox (boxOf e))
          (List.length obstacles) obstacles [] with
  | None => None
  | Some (obstacles', hitO) =>
      match spliceLoop (fun e => intersectsBox playerBox (boxOf e))
              (List.length collectibles) collectibles [] with
      | None => None
      | Some (collectibles', hitC) =>
          Some {| hitObstacles := hitO; hitCollectibles := hitC;
                  obstaclesLeft := obstacles';
                  collectiblesLeft := collectibles' |}
      end
  end.

(** The score and the vehicle after [Game.checkCollisions] has handled an
    outcome; [random] is the value [collideWithObstacle] draws. *)
Definition handleCollisions {E : Type} (outcome : Outcome E) (score : num)
    (v : Physics.Vehicle) (random : num) : num * Physics.Vehicle :=
  let (score1, v1) :=
    match hitObstacles outcome with
    | [] => (score, v)
    | _ :: _ =>
        (Math_max (score - Fin 50) (Fin 0),
         fst (Physics.collideWithObstacle v random))
    end in
  match hitCollectibles outcome with
  | [] => (score1, v1)
  | _ :: _ => (score1 + Fin 100, Physics.collectibleBoost v1)
  end.

End Collisions.

(** ** A rational math library

    Truncated series for the elementary functions, to run the model on
    concrete inputs. *)

Module SampleMath.

Local Open Scope Q_scope.

Fixpoint newton (n : nat) (x guess : Q) : Q :=
  match n with
  | O => guess
  | S k => newton k x (Qred ((guess + x / guess) / 2))
  end.

Definition sqrtQ (x : Q) : Q := newton 6 x (Qred ((x + 1) / 2)).

Definition sinQ (x : Q) : Q :=
  Qred (x - x * x * x / 6 + x * x * x * x * x / 120).

Definition cosQ (x : Q) : Q :=
  Qred (1 - x * x / 2 + x * x * x * x / 24).

Definition expQ (t : Q) : Q :=
  Qred (1 + t + t * t / 2 + t * t * t / 6 + t * t * t * t / 24).

Definition lnQ (x : Q) : Q :=
  let u := (x - 1) / (x + 1) in
  Qred (2 * (u + u * u * u / 3 + u * u * u * u * u / 5)).

Definition powQ (x y : Q) : Q := expQ (Qred (y * lnQ x)).

Definition lib : MathLib :=
  {| lib_sqrt := sqrtQ; lib_pow := powQ; lib_sin := sinQ; lib_cos := cosQ |}.

End SampleMath.

(** * Properties *)

(** ** Comparisons and finite numbers *)

Lemma Qltb_lt (x y : Q) : Qltb x y = true <-> (x < y)%Q.
Proof.
  unfold Qltb. rewrite negb_true_iff. split; intro H.
  - apply Qnot_le_lt. intro L. apply Qle_bool_iff in L. congruence.
  - destruct (Qle_bool y x) eqn:E; trivial.
    apply Qle_bool_iff in E. exfalso. apply (Qlt_not_le _ _ H E).
Qed.

Lemma Qltb_ge (x y : Q) : Qltb x y = false <-> (y <= x)%Q.
Proof.
  unfold Qltb. rewrite negb_false_iff. apply Qle_bool_iff.
Qed.

Lemma Qle_bool_gt (x y : Q) : Qle_bool x y = false <-> (y < x)%Q.
Proof.
  split; intro H.
  - apply Qnot_le_lt. intro L. apply Qle_bool_iff in L. congruence.
  - destruct (Qle_bool x y) eqn:E; trivial.
    apply Qle_bool_iff in E. exfalso. apply (Qlt_not_le _ _ H E).
Qed.

Lemma Qeq_bool_ne (x y : Q) : Qeq_bool x y = false <-> ~ (x == y)%Q.
Proof.
  split; intro H.
  - intro E. apply Qeq_bool_iff in E. congruence.
  - destruct (Qeq_bool x y) eqn:E; trivial.
    apply Qeq_bool_iff in E. contradiction.
Qed.

(** Every boolean test on rationals in the context becomes its
    proposition. *)
Ltac qprops :=
  repeat match goal with
  | H : Qltb _ _ = true |- _ => apply Qltb_lt in H
  | H : Qltb _ _ = false |- _ => apply Qltb_ge in H
  | H : Qle_bool _ _ = true |- _ => apply Qle_bool_iff in H
  | H : Qle_bool _ _ = false |- _ => apply Qle_bool_gt in H
  | H : Qeq_bool _ _ = true |- _ => apply Qeq_bool_iff in H
  | H : Qeq_bool _ _ = false |- _ => apply Qeq_bool_ne in H
  end.

(** Case analysis on the first rational test the goal branches on. *)
Ltac qcase :=
  match goal with
  | |- context [Qltb ?a ?b] => destruct (Qltb a b) eqn:?
  | |- context [Qle_bool ?a ?b] => destruct (Qle_bool a b) eqn:?
  | |- context [Qeq_bool ?a ?b] => destruct (Qeq_bool a b) eqn:?
  end.

Lemma finite_Fin (q : Q) : finite (Fin q).
Proof. exists q. reflexivity. Qed.

Lemma finite_isFinite (a : num) : finite a <-> isFinite a = true.
Proof.
  split.
  - intros [q ->]. reflexivity.
  - destruct a; simpl; try discriminate. intros _. apply finite_Fin.
Qed.

Lemma finite_add (a b : num) : finite a -> finite b -> finite (a + b).
Proof. intros [x ->] [y ->]. apply finite_Fin. Qed.

Lemma finite_sub (a b : num) : finite a -> finite b -> finite (a - b).
Proof. intros [x ->] [y ->]. apply finite_Fin. Qed.

Lemma finite_mul (a b : num) : finite a -> finite b -> finite (a * b).
Proof. intros [x ->] [y ->]. apply finite_Fin. Qed.

Lemma finite_neg (a : num) : finite a -> finite (- a).
Proof. intros [x ->]. apply finite_Fin. Qed.

Lemma finite_div (a : num) (y : Q) :
  finite a -> ~ (y == 0)%Q -> finite (a / Fin y).
Proof.
  intros [x ->] Hy. simpl. apply Qeq_bool_ne in Hy. rewrite Hy.
  apply finite_Fin.
Qed.

Lemma finite_abs (a : num) : finite a -> finite (Math_abs a).
Proof. intros [x ->]. apply finite_Fin. Qed.

Lemma finite_sign (a : num) : finite a -> finite (Math_sign a).
Proof. intros [x ->]. simpl. repeat qcase; apply finite_Fin. Qed.

Lemma finite_min (a b : num) : finite a -> finite b -> finite (Math_min a b).
Proof. intros [x ->] [y ->]. simpl. qcase; apply finite_Fin. Qed.

Lemma finite_max (a b : num) : finite a -> finite b -> finite (Math_max a b).
Proof. intros [x ->] [y ->]. simpl. qcase; apply finite_Fin. Qed.

Lemma finite_flag (b : bool) : finite (Physics.flag b).
Proof. destruct b; apply finite_Fin. Qed.

Lemma same_refl (a : num) : a =~ a.
Proof. destruct a; simpl; trivial. reflexivity. Qed.

Create HintDb fin.

#[global] Hint Resolve finite_Fin finite_add finite_sub finite_mul finite_neg
  finite_abs finite_sign finite_min finite_max finite_flag : fin.

(** ** The vehicle *)

Section VehicleFacts.

Import Physics.
Context {M : MathLib}.

Lemma input_initialBoost (v : Vehicle) (inp : Input) :
  input (initialBoost v inp) = input v.
Proof. unfold initialBoost. destruct (_ && _); reflexivity. Qed.

(** [checkSurfaceInteraction] throws only on a vehicle without input. *)
Lemma checkSurfaceInteraction_returns (v : Vehicle) (w : option WorldView)
    (dt : num) (inp : Input) :
  input v = Some inp ->
  exists v' evs, checkSurfaceInteraction v w dt = Some (v', evs).
Proof.
  intro H. unfold checkSurfaceInteraction.
  destruct (surfaceProbe v w) as [[|] x]; rewrite ?H; eauto.
Qed.

(** [update] never throws: it stores the input before anything reads it. *)
Lemma update_returns (v : Vehicle) (inp : Input) (deltaTime : num)
    (w : option WorldView) :
  exists r, update v inp deltaTime w = Some r.
Proof.
  unfold update, updateFromControls.
  match goal with
  | |- context [checkSurfaceInteraction ?a ?b ?c] =>
      destruct (@checkSurfaceInteraction_returns a b c inp) as (v' & evs & E)
  end.
  - cbn. rewrite input_initialBoost. reflexivity.
  - rewrite E. eauto.
Qed.

(** The fields [checkSurfaceInteraction] leaves alone. *)
Lemma checkSurfaceInteraction_keeps (v v' : Vehicle) (w : option WorldView)
    (dt : num) (evs : list string) :
  checkSurfaceInteraction v w dt = Some (v', evs) ->
  position v' = position v /\ throttle v' = throttle v
  /\ brake v' = brake v /\ reverse v' = reverse v
  /\ rotation_y v' = rotation_y v /\ input v' = input v
  /\ isGrounded v' = isGrounded v /\ debugForces v' = debugForces v
  /\ wasOffRoad v' = isOffRoad v'.
Proof.
  unfold checkSurfaceInteraction.
  destruct (surfaceProbe v w) as [[|] x].
  - destruct (input v); [|discriminate].
    intro E. injection E as <- _. cbn. repeat split.
  - intro E. injection E as <- _. cbn. repeat split.
Qed.

(** C6: control resolution sets the throttle to 1 exactly when the
    accelerate flag is set and the brake flag is not, and to 0 otherwise;
    with both flags set it is 0.  The value is the one [update] leaves. *)
Theorem brake_overrides_throttle (v : Vehicle) (inp : Input) (dt : num) :
  throttle (updateControls v inp dt)
    =~ (if accelerate inp && negb (in_brake inp) then Fin 1 else Fin 0)
  /\ (forall rev l r,
        throttle (updateControls v
                    {| accelerate := true; in_brake := true;
                       in_reverse := rev; turnLeft := l; turnRight := r |} dt)
        =~ Fin 0)
  /\ (forall deltaTime w,
        exists res, update v inp deltaTime w = Some res
          /\ throttle (vehicle res)
              =~ (if accelerate inp && negb (in_brake inp)
                  then Fin 1 else Fin 0)).
Proof.
  assert (F : forall b : bool, flag b =~ (if b then Fin 1 else Fin 0)).
  { intros [|]; simpl; reflexivity. }
  split; [apply F|]. split; [intros; simpl; reflexivity|].
  intros deltaTime w.
  destruct (update_returns v inp deltaTime w) as [res E].
  exists res. split; [exact E|].
  unfold update, updateFromControls in E.
  destruct (checkSurfaceInteraction _ _ _) as [[v7 evs]|] eqn:C;
    [|discriminate].
  apply checkSurfaceInteraction_keeps in C.
  destruct C as (_ & T & _).
  injection E as <-. cbn. rewrite T. cbn. apply F.
Qed.

(** C9, as stated, fails: a negative delta time reaches the integration
    step unchanged, and so does NaN. *)
Lemma negative_deltaTime_not_clamped :
  ~ clampedDeltaTime (capDeltaTime (Fin (-1)))
  /\ capDeltaTime (Fin (-1)) = Fin (-1)
  /\ capDeltaTime NaN = NaN.
Proof.
  split; [|split; reflexivity].
  intros [H _]. vm_compute in H. discriminate.
Qed.

(** C9, amended: the delta time [update] integrates with is
    [Math.min(deltaTime, 0.1)]; it never exceeds 0.1 when [deltaTime] is a
    number, a value not above 0.1 (a negative one included) is used as it
    is, and NaN stays NaN. *)
Theorem deltaTime_capped_above (v : Vehicle) (inp : Input) (deltaTime : num)
    (w : option WorldView) :
  update v inp deltaTime w
    = updateFromControls (position v)
        (initialBoost (storeInput v inp) inp) inp (capDeltaTime deltaTime) w
  /\ (deltaTime = NaN /\ capDeltaTime deltaTime = NaN
      \/ deltaTime <> NaN
         /\ (capDeltaTime deltaTime <=? Fin 0.1) = true
         /\ ((deltaTime <=? Fin 0.1) = true ->
             capDeltaTime deltaTime = deltaTime)
         /\ ((deltaTime <=? Fin 0.1) = false ->
             capDeltaTime deltaTime = Fin 0.1)).
Proof.
  split; [reflexivity|].
  destruct deltaTime as [q| | |]; [right|right|right|left; split; reflexivity].
  - split; [discriminate|]. unfold capDeltaTime. simpl.
    destruct (Qltb 0.1 q) eqn:E.
    + repeat split; intro H; try reflexivity.
      apply Qltb_lt in E. apply Qle_bool_iff in H.
      exfalso. apply (Qlt_not_le _ _ E H).
    + apply Qltb_ge in E. repeat split; try apply Qle_bool_iff; trivial.
      intro H. apply Qle_bool_gt in H. exfalso. apply (Qlt_not_le _ _ H E).
  - split; [discriminate|]. repeat split; simpl; intros; congruence.
  - split; [discriminate|]. repeat split; simpl; intros; congruence.
Qed.


Lemma mul_one_same (a : num) : a * Fin 1.0 =~ a.
Proof.
  destruct a; simpl; trivial. ring.
Qed.

Lemma same_trans (a b c : num) : a =~ b -> b =~ c -> a =~ c.
Proof.
  destruct a, b, c; simpl; trivial; try contradiction.
  intros H1 H2. rewrite H1. exact H2.
Qed.

(** C1: on a grounded frame the tractive force of [calculateForces] is
    ACCELERATION * (1.8 * (1 - r)^1.5 + 0.2), r = clamp(speed / MAX_SPEED,
    0, 1), when the throttle is active and speed >= -1; otherwise
    -sign(speed) * DECELERATION * 6.0 * brake when the brake is active;
    otherwise, with reverse active, -2.0 * DECELERATION for speed > 5,
    -2.5 * DECELERATION for 0 < speed <= 5 and -0.4 * ACCELERATION for
    speed <= 0; otherwise -sign(speed) * ENGINE_BRAKING. *)
Theorem tractive_force_cases (v0 : Vehicle) (inp : Input) (dt : num) :
  let v := updateSuspension (updateControls v0 inp dt) in
  isGrounded v = true ->
  let s := speed v in
  let throttleActive := accelerate inp && negb (in_brake inp) in
  let F := tractiveForce v in
  option_map dbg_tractiveForce (debugForces (calculateForces v)) = Some F
  /\ (throttleActive && (s >=? Fin (-1)) = true ->
      F =~ ACCELERATION
           * (Fin 1.8
              * Math_pow (Fin 1 - clamp (s / MAX_SPEED) (Fin 0) (Fin 1))
                         (Fin 1.5)
              + Fin 0.2))
  /\ (throttleActive && (s >=? Fin (-1)) = false ->
      (in_brake inp = true ->
       F =~ (- Math_sign s) * DECELERATION * Fin 6.0 * brake v)
      /\ (in_brake inp = false -> in_reverse inp = true ->
          ((s >? Fin 5) = true -> F =~ Fin (-2.0) * DECELERATION)
          /\ ((s >? Fin 0) = true -> (s <=? Fin 5) = true ->
              F =~ Fin (-2.5) * DECELERATION)
          /\ ((s <=? Fin 0) = true -> F =~ Fin (-0.4) * ACCELERATION))
      /\ (in_brake inp = false -> in_reverse inp = false ->
          F =~ (- Math_sign s) * ENGINE_BRAKING)).
Proof.
  intros v Hg s throttleActive F.
  split; [reflexivity|].
  assert (EF : F = tractiveForce v) by reflexivity.
  unfold tractiveForce in EF. rewrite Hg in EF.
  change (throttle v) with (flag throttleActive) in EF.
  change (brake v) with (flag (in_brake inp)) in *.
  change (reverse v) with (flag (in_reverse inp)) in EF.
  change (speed v) with s in EF.
  assert (G : forall b : bool, (flag b >? Fin 0) = b) by (intros [|]; reflexivity).
  rewrite !G in EF.
  split.
  { intro H. rewrite H in EF.
    apply andb_true_iff in H. destruct H as [H _]. rewrite H in EF.
    rewrite EF. apply mul_one_same. }
  intro H. rewrite H in EF. clear H.
  split; [|split].
  - intros Hb. rewrite Hb in EF. rewrite EF, Hb. apply same_refl.
  - intros Hb Hr. rewrite Hb, Hr in EF.
    destruct s as [q| | |]; simpl in *; repeat split; intros;
      repeat match goal with
             | H1 : ?b = true, H2 : context [if ?b then _ else _] |- _ =>
                 rewrite H1 in H2
             end;
      try discriminate.
    + rewrite EF. vm_compute. reflexivity.
    + assert (Qltb 5 q = false) as E5.
      { apply Qltb_ge. qprops. assumption. }
      rewrite E5 in EF. rewrite EF. vm_compute. reflexivity.
    + assert (Qltb 5 q = false) as E5 by (apply Qltb_ge; qprops; lra).
      assert (Qltb 0 q = false) as E0 by (apply Qltb_ge; qprops; lra).
      rewrite E5, E0 in EF. rewrite EF. vm_compute. reflexivity.
    + rewrite EF. vm_compute. reflexivity.
    + rewrite EF. vm_compute. reflexivity.
  - intros Hb Hr. rewrite Hb, Hr in EF. rewrite EF. apply same_refl.
Qed.

End VehicleFacts.

Section SampleFrames.

Import Physics.
#[local] Existing Instance SampleMath.lib.

Lemma tractive_force_cases_witness :
  option_map dbg_tractiveForce
    (debugForces
       (calculateForces
          (updateSuspension
             (updateControls constructor accelerateOnly (Fin 0.016)))))
  = Some (tractiveForce
            (updateSuspension
               (updateControls constructor accelerateOnly (Fin 0.016)))).
Proof.
  exact (proj1 (@tractive_force_cases SampleMath.lib constructor
                  accelerateOnly (Fin 0.016) eq_refl)).
Defined.


End SampleFrames.

Section GroundFloor.

Import Physics.
Context {M : MathLib}.

Ltac finite_tac :=
  unfold MAX_SPEED, ACCELERATION, DECELERATION, ENGINE_BRAKING,
    DRAG_COEFFICIENT, OFF_ROAD_FRICTION, OFF_ROAD_DAMAGE, GRAVITY,
    STEERING_SPEED, STEERING_RETURN_SPEED;
  auto 12 with fin.

Lemma finite_pow_nonneg (x y : Q) :
  (0 <= x)%Q -> (0 < y)%Q -> finite (Math_pow (Fin x) (Fin y)).
Proof.
  intros Hx Hy. simpl.
  destruct (Qeq_bool y 0) eqn:E0; [apply finite_Fin|].
  destruct (Qeq_bool x 0) eqn:E1.
  - apply Qltb_lt in Hy. rewrite Hy. apply finite_Fin.
  - assert (Qltb x 0 = false) as -> by (apply Qltb_ge; exact Hx).
    apply finite_Fin.
Qed.

Lemma clamp_unit (a : num) :
  finite a -> exists r, clamp a (Fin 0) (Fin 1) = Fin r /\ (0 <= r <= 1)%Q.
Proof.
  intros [q ->]. unfold clamp. simpl.
  destruct (Qltb q 1) eqn:E1; simpl.
  - destruct (Qltb 0 q) eqn:E0; qprops.
    + exists q. split; [reflexivity|lra].
    + exists 0%Q. split; [reflexivity|lra].
  - exists 1%Q. split; [reflexivity|lra].
Qed.

Lemma finite_tractiveForce (v : Vehicle) :
  finite (speed v) -> finite (throttle v) -> finite (brake v) ->
  finite (reverse v) -> finite (tractiveForce v).
Proof.
  intros Hs Ht Hb Hr. unfold tractiveForce.
  destruct (isGrounded v); [|apply finite_Fin].
  destruct (_ && _).
  - apply finite_mul; trivial. apply finite_mul; [apply finite_Fin|].
    apply finite_add; [|apply finite_Fin].
    apply finite_mul; [apply finite_Fin|].
    destruct (@clamp_unit (speed v / MAX_SPEED)) as (r & Er & Hr0 & Hr1).
    { apply finite_div; trivial. discriminate. }
    unfold clamp in Er. rewrite Er.
    change (Fin 1 - Fin r) with (Fin (1 - r)%Q).
    apply finite_pow_nonneg; lra.
  - destruct (brake v >? Fin 0).
    { finite_tac. }
    destruct (reverse v >? Fin 0).
    { destruct (speed v >? Fin 5); [finite_tac|].
      destruct (speed v >? Fin 0); finite_tac. }
    finite_tac.
Qed.

Lemma finite_dragForce (v : Vehicle) :
  finite (speed v) -> finite (dragForce v).
Proof. intro H. unfold dragForce. finite_tac. Qed.

Lemma finite_rollingResistance (v : Vehicle) :
  finite (speed v) -> finite (rollingResistance v).
Proof.
  intro H. unfold rollingResistance.
  destruct (isGrounded v); [|apply finite_Fin].
  destruct (isOffRoad v); finite_tac.
Qed.

Lemma finite_lateralAcceleration (v : Vehicle) :
  finite (speed v) -> finite (steeringAngle v) ->
  finite (lateralAcceleration v).
Proof.
  intros [q Hq] [a Ha]. unfold lateralAcceleration. rewrite Hq, Ha.
  apply finite_mul.
  - apply finite_mul; [apply finite_sign, finite_Fin|].
    simpl. qcase; apply finite_Fin.
  - apply finite_mul.
    + apply finite_mul; [|apply finite_Fin].
      apply finite_mul; [apply finite_Fin|].
      apply finite_min; [apply finite_Fin|].
      change (MAX_STEERING_ANGLE * MAX_SPEED * Fin 1.5)
        with (Fin (3.141592653589793 / 4 * 5000 * 1.5)).
      apply finite_div; [simpl; apply finite_Fin|]. intro H.
      vm_compute in H. discriminate.
    + simpl Math_abs. simpl.
      assert (~ (1.0 + Qabs q / 2000 == 0)%Q) as N.
      { pose proof (Qabs_nonneg q). intro E.
        assert (0 <= Qabs q / 2000)%Q.
        { apply Qle_shift_div_l; lra. }
        lra. }
      apply Qeq_bool_ne in N. rewrite N. apply finite_Fin.
Qed.

Lemma finite_steer (angle : num) (inp : Input) (dt : num) :
  finite angle -> finite dt -> finite (steer angle inp dt).
Proof.
  intros Ha Hd. unfold steer.
  assert (finite MAX_STEERING_ANGLE).
  { unfold MAX_STEERING_ANGLE, Math_PI. apply finite_div;
      [apply finite_Fin|discriminate]. }
  destruct (turnLeft inp); [finite_tac|].
  destruct (turnRight inp); [finite_tac|].
  destruct (_ <? _); finite_tac.
Qed.

Lemma finite_capDeltaTime (deltaTime : num) :
  finite deltaTime -> finite (capDeltaTime deltaTime).
Proof. intro H. unfold capDeltaTime. auto with fin. Qed.

(** The vertical acceleration of a frame is finite on a numeric state. *)
Lemma finite_vertical_acceleration (v : Vehicle) :
  finite (speed v) -> finite (steeringAngle v) ->
  finite (throttle v) -> finite (brake v) -> finite (reverse v) ->
  finite (vy (direction v)) -> finite (vy (right v)) ->
  finite (vy (acceleration (calculateForces v))).
Proof.
  intros Hs Ha Ht Hb Hr Hd Hri.
  assert (finite (vy (multiplyScalar (direction v)
            ((tractiveForce v + dragForce v + rollingResistance v)
             / TOTAL_MASS)))) as F1.
  { simpl. apply finite_mul; trivial.
    change TOTAL_MASS with (Fin (400 + 20 * 4)).
    apply finite_div; [|discriminate].
    auto using finite_add, finite_tractiveForce, finite_dragForce,
      finite_rollingResistance. }
  assert (finite (vy (if isGrounded v then zero3
                      else vec3 (Fin 0) (Fin 0 - GRAVITY) (Fin 0)))) as F0.
  { destruct (isGrounded v); simpl; apply finite_Fin. }
  unfold calculateForces. cbn [acceleration].
  destruct (cornering v && drifting v); cbn [vadd vy];
    repeat apply finite_add; trivial.
  simpl. apply finite_mul; trivial.
  apply finite_lateralAcceleration; trivial.
Qed.

(** The position [update] leaves is the one the integration step
    reaches. *)
Lemma update_position (v : Vehicle) (inp : Input) (deltaTime : num)
    (w : option WorldView) (r : UpdateResult) :
  update v inp deltaTime w = Some r ->
  position (vehicle r)
  = position
      (integrate
         (calculateForces
            (updateSuspension
               (updateControls (initialBoost (storeInput v inp) inp) inp
                  (capDeltaTime deltaTime))))
         (capDeltaTime deltaTime)).
Proof.
  intro E. unfold update, updateFromControls in E.
  destruct (checkSurfaceInteraction _ _ _) as [[v7 evs]|] eqn:C;
    [|discriminate].
  apply checkSurfaceInteraction_keeps in C. destruct C as (C & _).
  injection E as <-. cbn [vehicle]. exact C.
Qed.

Lemma initialBoost_numeric (v : Vehicle) (inp : Input) :
  numericState v -> numericState (initialBoost (storeInput v inp) inp).
Proof.
  intros (H1 & H2 & H3 & H4 & H5 & H6). unfold initialBoost.
  destruct (_ && _); repeat split; cbn; trivial; apply finite_Fin.
Qed.

Lemma position_initialBoost (v : Vehicle) (inp : Input) :
  position (initialBoost v inp) = position v.
Proof. unfold initialBoost. destruct (_ && _); reflexivity. Qed.

(** Below the floor the ground check lifts the vehicle to 0.5; a number at
    or above it stays. *)
Lemma integrate_floor (u : Vehicle) (dt : num) :
  finite (vy (integratedPosition u dt)) ->
  (vy (position (integrate u dt)) >=? Fin 0.5) = true.
Proof.
  intros [q Hq]. unfold integrate. cbn [position].
  unfold clampEngages. rewrite Hq.
  destruct (Fin q <? Fin 0.5) eqn:E.
  - reflexivity.
  - rewrite Hq. simpl in *. qprops. apply Qle_bool_iff. exact E.
Qed.

Lemma integrate_clamp (u : Vehicle) (dt : num) :
  clampEngages u dt = true ->
  vy (position (integrate u dt)) = Fin 0.5
  /\ ((vy (integratedVelocity u dt) <? Fin 0) = true ->
      vy (velocity (integrate u dt)) = Fin 0).
Proof.
  intro H. unfold integrate. cbn [position velocity]. rewrite H.
  split; [reflexivity|]. intro H'. rewrite H'. reflexivity.
Qed.

Lemma within_finite (bound : Q) (a : num) : within bound a -> finite a.
Proof. intros (q & -> & _). apply finite_Fin. Qed.

Lemma boundedState_numeric (v : Vehicle) : boundedState v -> numericState v.
Proof.
  intros (H1 & H2 & H3 & H4 & H5 & H6).
  repeat split; eapply within_finite; eassumption.
Qed.

(** C7, amended: on a frame whose delta time and state are numbers of
    magnitude up to 1000000, [update] leaves the vertical position at or
    above 0.5, whatever it was before; and where the ground check of the
    integration step fires, the position is 0.5 and a downward vertical
    velocity is set to 0 there. *)
Theorem ground_floor_on_numeric_frames (v : Vehicle) (inp : Input)
    (deltaTime : num) (w : option WorldView) :
  boundedState v -> within MAGNITUDE deltaTime ->
  let dt := capDeltaTime deltaTime in
  let u := calculateForces
             (updateSuspension
                (updateControls (initialBoost (storeInput v inp) inp)
                   inp dt)) in
  exists r, update v inp deltaTime w = Some r
    /\ position (vehicle r) = position (integrate u dt)
    /\ (vy (position (vehicle r)) >=? Fin 0.5) = true
    /\ (clampEngages u dt = true ->
        vy (position (integrate u dt)) = Fin 0.5
        /\ ((vy (integratedVelocity u dt) <? Fin 0) = true ->
            vy (velocity (integrate u dt)) = Fin 0)).
Proof.
  intros Hb Hw dt u.
  pose proof (boundedState_numeric Hb) as Hn.
  pose proof (within_finite Hw) as Hd.
  destruct (update_returns v inp deltaTime w) as [r E].
  exists r. split; [exact E|].
  assert (P : position (vehicle r) = position (integrate u dt))
    by (apply update_position with (w := w); exact E).
  split; [exact P|]. split; [|apply integrate_clamp].
  rewrite P. apply integrate_floor.
  apply initialBoost_numeric with (inp := inp) in Hn.
  destruct Hn as (H1 & H2 & H3 & H4 & H5 & H6).
  apply finite_capDeltaTime in Hd. fold dt in Hd.
  unfold integratedPosition, integratedVelocity.
  cbn [vy vadd multiplyScalar set_y].
  apply finite_add; [exact H1|].
  apply finite_mul; [|exact Hd].
  apply finite_add; [exact H2|].
  apply finite_mul; [|exact Hd].
  apply finite_vertical_acceleration; cbn; trivial;
    auto using finite_steer, finite_flag.
Qed.

End GroundFloor.

(** C7, as stated, fails: with a NaN delta time the constructor's vehicle,
    at height 0.8, ends the frame at height NaN, whatever the math library
    is, and NaN >= 0.5 is false. *)
Lemma ground_floor_fails_on_NaN_deltaTime :
  (vy (Physics.position Physics.constructor) >=? Fin 0.5) = true
  /\ ~ exists (M : MathLib) (r : Physics.UpdateResult),
        Physics.update Physics.constructor Physics.idle NaN None = Some r
        /\ (vy (Physics.position (Physics.vehicle r)) >=? Fin 0.5) = true.
Proof.
  split; [reflexivity|].
  intros (M & r & E & H).
  apply update_position in E. rewrite E in H.
  vm_compute in H. discriminate.
Qed.

Section SampleGroundFloor.

Import Physics.
#[local] Existing Instance SampleMath.lib.

Lemma ground_floor_witness :
  exists r, update constructor accelerateOnly (Fin 0.016) None = Some r
    /\ (vy (position (vehicle r)) >=? Fin 0.5) = true.
Proof.
  assert (B : forall q, (Qabs q <= 1)%Q -> within MAGNITUDE (Fin q)).
  { intros q H. exists q. split; [reflexivity|]. unfold MAGNITUDE.
    eapply Qle_trans; [exact H|]. vm_compute. discriminate. }
  destruct (@ground_floor_on_numeric_frames SampleMath.lib constructor
              accelerateOnly (Fin 0.016) None) as (r & E & _ & H & _).
  - repeat split; cbn; apply B; vm_compute; discriminate.
  - apply B. vm_compute. discriminate.
  - exists r. split; assumption.
Defined.

End SampleGroundFloor.

Section Ratios.

Import Physics.
Context {M : MathLib}.

(** What [update] returns comes from [checkSurfaceInteraction] on the
    integrated vehicle: the last two steps keep speed and position. *)
Lemma update_after (v : Vehicle) (inp : Input) (deltaTime : num)
    (w : option WorldView) (r : UpdateResult) :
  update v inp deltaTime w = Some r ->
  exists v7 evs,
    checkSurfaceInteraction
      (integrate
         (calculateForces
            (updateSuspension
               (updateControls (initialBoost (storeInput v inp) inp) inp
                  (capDeltaTime deltaTime))))
         (capDeltaTime deltaTime)) w (capDeltaTime deltaTime)
    = Some (v7, evs)
    /\ speed (vehicle r) = speed v7
    /\ position (vehicle r) = position v7.
Proof.
  intro E. unfold update, updateFromControls in E.
  destruct (checkSurfaceInteraction _ _ _) as [[v7 evs]|] eqn:C;
    [|discriminate].
  exists v7, evs. injection E as <-. repeat split.
Qed.

Lemma initialBoost_without_accelerate (v : Vehicle) (inp : Input) :
  accelerate inp = false -> initialBoost v inp = v.
Proof.
  intro H. unfold initialBoost. rewrite H, andb_false_r. reflexivity.
Qed.

Lemma add_NaN_r (a : num) : a + NaN = NaN.
Proof. destruct a; reflexivity. Qed.

Lemma mul_NaN_r (a : num) : a * NaN = NaN.
Proof. destruct a; reflexivity. Qed.

(** A NaN in the z velocity reaches the speed and the horizontal position
    in one integration step. *)
Lemma integrate_poisoned (u : Vehicle) (dt : num) :
  vz (velocity u) = NaN ->
  speed (integrate u dt) = NaN
  /\ vx (position (integrate u dt)) = NaN
  /\ vz (position (integrate u dt)) = NaN.
Proof.
  intro H.
  assert (F : dot (velocity u) (direction u) = NaN).
  { unfold dot. rewrite H. cbn [mul]. apply add_NaN_r. }
  split.
  - cbn [integrate speed]. rewrite F. reflexivity.
  - assert (vx (integratedPosition u dt) = NaN
            /\ vz (integratedPosition u dt) = NaN) as [X Z].
    { unfold integratedPosition, integratedVelocity.
      cbn [vadd multiplyScalar set_y vsub vx vy vz].
      rewrite F. cbn [add]. rewrite !mul_NaN_r. cbn [add mul].
      rewrite !add_NaN_r. split; reflexivity. }
    cbn [integrate position].
    destruct (clampEngages u dt); cbn [set_y vx vz]; split; assumption.
Qed.

(** With no world and a NaN x the vehicle counts as on the road, and
    [checkSurfaceInteraction] keeps speed and position. *)
Lemma checkSurfaceInteraction_without_x (v v' : Vehicle) (dt : num)
    (evs : list string) :
  checkSurfaceInteraction v None dt = Some (v', evs) ->
  vx (position v) = NaN ->
  speed v' = speed v /\ position v' = position v.
Proof.
  unfold checkSurfaceInteraction, surfaceProbe. intros E H.
  rewrite H in E. cbn [Math_abs gt lt] in E.
  injection E as <- _. split; reflexivity.
Qed.

(** The vehicle after a collision at rest: [new Vehicle()] hit by an
    obstacle. *)
Lemma collision_at_rest_velocity (random : num) :
  velocity (fst (collideWithObstacle constructor random))
  = vec3 NaN (Fin 0.5) NaN.
Proof. reflexivity. Qed.

(** C8 fails on the code, at both places it names.  The steering factor of
    [updateControls] is NaN at every negative speed (it is a number at
    speed 0 and above), and the front wheels are turned by NaN.  The
    rescale of [collideWithObstacle] divides 0 by 0 at speed 0: the
    horizontal velocity becomes NaN, and the next [update] makes the speed
    and the position NaN. *)
Theorem speed_ratios_yield_NaN :
  (forall q, (q < 0)%Q -> steeringSpeedFactor (Fin q) = NaN)
  /\ (forall q, (0 <= q)%Q -> finite (steeringSpeedFactor (Fin q)))
  /\ (forall v inp dt q mesh,
        speed v = Fin q -> (q < 0)%Q -> In mesh (frontWheels
          (updateControls v inp dt)) -> mesh_rotation_y mesh = NaN)
  /\ (forall random,
        speed (fst (collideWithObstacle constructor random)) =~ Fin 0
        /\ velocity (fst (collideWithObstacle constructor random))
           = vec3 NaN (Fin 0.5) NaN)
  /\ (forall random, finite random ->
      exists r,
        update (fst (collideWithObstacle constructor random)) idle
          (Fin 0.016) None = Some r
        /\ speed (vehicle r) = NaN
        /\ vz (position (vehicle r)) = NaN).
Proof.
  assert (N : forall q, (q < 0)%Q -> steeringSpeedFactor (Fin q) = NaN).
  { intros q Hq. unfold steeringSpeedFactor.
    change (Fin q / MAX_SPEED) with (Fin (q / 5000)).
    assert (Math_pow (Fin (q / 5000)) (Fin 0.7) = NaN) as ->; [|reflexivity].
    cbn -[Qltb Qeq_bool is_integer Qdiv].
    assert (q / 5000 < 0)%Q as L.
    { apply Qlt_shift_div_r; lra. }
    assert (Qeq_bool (q / 5000) 0 = false) as ->.
    { apply Qeq_bool_ne. lra. }
    apply Qltb_lt in L. rewrite L. reflexivity. }
  split; [exact N|]. split; [|split; [|split]].
  - intros q Hq. unfold steeringSpeedFactor.
    change (Fin q / MAX_SPEED) with (Fin (q / 5000)).
    apply finite_max; [apply finite_Fin|].
    apply finite_sub; [apply finite_Fin|].
    apply finite_mul; [|apply finite_Fin].
    apply finite_pow_nonneg; [|lra].
    apply Qle_shift_div_l; lra.
  - intros v inp dt q mesh Hs Hq Hin.
    cbn [updateControls frontWheels] in Hin.
    apply in_map_iff in Hin. destruct Hin as (w0 & <- & _).
    cbn [mesh_rotation_y]. rewrite Hs, (N q Hq).
    destruct (steer _ _ _); reflexivity.
  - intro random. split; [simpl; reflexivity|reflexivity].
  - intros random [x ->].
    set (c := fst (collideWithObstacle constructor (Fin x))).
    destruct (update_returns c idle (Fin 0.016) None) as [r E].
    exists r. split; [exact E|].
    pose proof E as E'. apply update_after in E'.
    destruct E' as (v7 & evs & C & -> & ->).
    rewrite initialBoost_without_accelerate in C by reflexivity.
    match type of C with
    | checkSurfaceInteraction (integrate ?u ?dt) _ _ = _ =>
        destruct (@integrate_poisoned u dt) as (S6 & X6 & Z6);
          [reflexivity|]
    end.
    apply checkSurfaceInteraction_without_x in C; [|exact X6].
    destruct C as (-> & ->). split; assumption.
Qed.

End Ratios.

(** ** Runs: no randomness in [update] *)

Section Determinism.

Import Physics Game.
Context {M : MathLib}.

Lemma andThen_run {A B : Type} (m : Script.Method A)
    (f : A -> Script.Method B) (this : Vehicle) (log : list string)
    (src : RandomSource) (k : nat) (a : A) (this' : Vehicle)
    (log' : list string) (k' : nat) :
  m this log src k = (Some (a, this', log'), k') ->
  Script.andThen m f this log src k = f a this' log' src k'.
Proof. intro E. unfold Script.andThen, bind. rewrite E. reflexivity. Qed.

Ltac run_script :=
  cbv [Script.andThen Script.get Script.set Script.pure Script.trigger
       Script.throwTypeError bind ret];
  cbn [position velocity acceleration direction right up rotation_y angularVelocity angularAcceleration speed wheelSpeed steeringAngle throttle brake reverse isGrounded isOffRoad wasOffRoad wheels frontWheels rearWheels input debugForces
       Script.set_position Script.set_velocity Script.set_acceleration Script.set_direction Script.set_right Script.set_up Script.set_rotation_y Script.set_angularVelocity Script.set_angularAcceleration Script.set_speed Script.set_wheelSpeed Script.set_steeringAngle Script.set_throttle Script.set_brake Script.set_reverse Script.set_isGrounded Script.set_isOffRoad Script.set_wasOffRoad Script.set_wheels Script.set_frontWheels Script.set_rearWheels Script.set_input Script.set_debugForces
       accelerate in_brake in_reverse turnLeft turnRight roadSegments events
       fst snd List.length Nat.ltb Nat.leb andb negb orb].

Ltac split_ifs :=
  run_script;
  repeat (match goal with
          | |- context [if ?c then _ else _] =>
              lazymatch c with
              | context [if _ then _ else _] => fail
              | _ => destruct c
              end
          end; run_script).

Lemma updateControls_runs (inp : Input) (dt : num) (this : Vehicle)
    (log : list string) (src : RandomSource) (k : nat) :
  Script.updateControls inp dt this log src k
  = (Some (tt, updateControls this inp dt, log), k).
Proof.
  destruct this, inp as [a b r l rr].
  unfold Script.updateControls, updateControls, steer, steeringSpeedFactor,
    flag.
  destruct a, b, r, l, rr, frontWheels0;
    cbn [accelerate in_brake in_reverse turnLeft turnRight andb negb];
    split_ifs; reflexivity.
Qed.

Lemma suspend_runs (wheel : Wheel) (this : Vehicle) (log : list string)
    (src : RandomSource) (k : nat) :
  Script.suspend wheel this log src k
  = (Some (updateWheel this wheel, this, log), k).
Proof.
  unfold Script.suspend, Script.getWheelWorldPosition, updateWheel,
    getWheelWorldPosition.
  split_ifs; reflexivity.
Qed.

Lemma forEach_suspend_runs (array : list Wheel) (this : Vehicle)
    (log : list string) (src : RandomSource) (k : nat) :
  Script.forEach Script.suspend array this log src k
  = (Some (map (updateWheel this) array, this, log), k).
Proof.
  induction array as [|wheel rest IH]; [reflexivity|].
  cbn [Script.forEach map].
  erewrite andThen_run by apply suspend_runs.
  erewrite andThen_run by exact IH. reflexivity.
Qed.

Lemma updateSuspension_runs (dt : num) (world : option WorldView)
    (this : Vehicle) (log : list string) (src : RandomSource) (k : nat) :
  Script.updateSuspension dt world this log src k
  = (Some (tt, updateSuspension this, log), k).
Proof.
  unfold Script.updateSuspension.
  erewrite andThen_run by reflexivity.
  erewrite andThen_run by apply forEach_suspend_runs.
  destruct this. reflexivity.
Qed.

Lemma calculateForces_runs (dt : num) (this : Vehicle)
    (log : list string) (src : RandomSource) (k : nat) :
  Script.calculateForces dt this log src k
  = (Some (tt, calculateForces this, log), k).
Proof.
  destruct this.
  unfold Script.calculateForces, calculateForces, tractiveForce, dragForce,
    rollingResistance, cornering, drifting, corneringAcceleration,
    lateralAcceleration, zero3.
  destruct isGrounded0, isOffRoad0; split_ifs; reflexivity.
Qed.

Lemma integrate_runs (dt : num) (this : Vehicle)
    (log : list string) (src : RandomSource) (k : nat) :
  Script.integrate dt this log src k
  = (Some (tt, integrate this dt, log), k).
Proof.
  destruct this.
  unfold Script.integrate, integrate, clampEngages, integratedPosition,
    integratedVelocity.
  split_ifs; reflexivity.
Qed.

Lemma andThen_cases {A B : Type} (m : Script.Method A)
    (f : A -> Script.Method B) (this : Vehicle) (log : list string)
    (src : RandomSource) (k : nat)
    (r : option (A * Vehicle * list string)) (k' : nat) :
  m this log src k = (r, k') ->
  Script.andThen m f this log src k
  = match r with
    | Some (a, this', log') => f a this' log' src k'
    | None => (None, k')
    end.
Proof.
  intro E. unfold Script.andThen, bind. rewrite E.
  destruct r as [[[a this'] log']|]; reflexivity.
Qed.

Lemma checkSurfaceInteraction_runs (world : option WorldView) (dt : num)
    (this : Vehicle) (log : list string) (src : RandomSource) (k : nat) :
  Script.checkSurfaceInteraction world dt this log src k
  = (match checkSurfaceInteraction this world dt with
     | Some (this', evs) => Some (tt, this', log ++ evs)
     | None => None
     end, k).
Proof.
  destruct this.
  unfold Script.checkSurfaceInteraction, checkSurfaceInteraction,
    surfaceProbe, hasEvents, closestSegment, closerSegment, ROAD_HALF_WIDTH.
  run_script.
  destruct world as [[[segments|] [|]]|]; cbn [roadSegments events].
  all: try (destruct (fold_left _ segments (None, PInf)) as [[segment|] d]).
  all: destruct isOffRoad0, input0 as [[a b r [|] [|]]|];
    cbn [turnLeft turnRight andb negb]; split_ifs;
    rewrite ?app_nil_r; reflexivity.
Qed.

Lemma updateWheelRotation_runs (dt : num) (this : Vehicle)
    (log : list string) (src : RandomSource) (k : nat) :
  Script.updateWheelRotation dt this log src k
  = (Some (tt, updateWheelRotation this dt, log), k).
Proof.
  destruct this.
  unfold Script.updateWheelRotation, updateWheelRotation, spin.
  destruct frontWheels0, rearWheels0; reflexivity.
Qed.

Lemma updateVehicleVectors_runs (this : Vehicle)
    (log : list string) (src : RandomSource) (k : nat) :
  Script.updateVehicleVectors this log src k
  = (Some (tt, updateVehicleVectors this, log), k).
Proof. destruct this. reflexivity. Qed.

(** The program of [update] computes what the function [update] gives: the
    same vehicle, flag and events, with no random value drawn. *)
Lemma update_runs (keys : Input) (deltaTime : num)
    (world : option WorldView) (this : Vehicle) (log : list string)
    (src : RandomSource) (k : nat) :
  Script.update keys deltaTime world this log src k
  = (match update this keys deltaTime world with
     | Some r => Some (changed r, vehicle r, log ++ triggered r)
     | None => None
     end, k).
Proof.
  unfold Script.update, update, updateFromControls.
  do 5 (erewrite andThen_run by reflexivity).
  assert (B : forall v,
            (if (speed v <? Fin 0.1) && accelerate keys
             then Script.andThen (Script.set (Script.set_speed (Fin 30.0)))
                    (fun _ =>
                       Script.andThen (Script.get speed)
                         (fun spd1 =>
                            Script.set
                              (Script.set_velocity
                                 (vec3 (Fin 0) (Fin 0) spd1))))
             else Script.pure tt) v log src k
            = (Some (tt, initialBoost v keys, log), k)).
  { intro v. unfold initialBoost. destruct v.
    destruct (_ && _); reflexivity. }
  erewrite andThen_run by apply B.
  erewrite andThen_run by apply updateControls_runs.
  erewrite andThen_run by apply updateSuspension_runs.
  erewrite andThen_run by apply calculateForces_runs.
  erewrite andThen_run by apply integrate_runs.
  assert (S : Script.set_wasOffRoad (isOffRoad (Script.set_input (Some keys) this))
                (Script.set_input (Some keys) this)
              = storeInput this keys) by (destruct this; reflexivity).
  cbv zeta. rewrite S. unfold capDeltaTime.
  erewrite andThen_cases by apply checkSurfaceInteraction_runs.
  destruct (checkSurfaceInteraction _ world _) as [[v7 evs]|];
    [|reflexivity].
  erewrite andThen_run by apply updateWheelRotation_runs.
  erewrite andThen_run by apply updateVehicleVectors_runs.
  reflexivity.
Qed.

(** [collideWithObstacle] draws one random value. *)
Lemma collideWithObstacle_runs (this : Vehicle) (log : list string)
    (src : RandomSource) (k : nat) :
  Script.collideWithObstacle this log src k
  = (Some (snd (collideWithObstacle this (src k)),
           fst (collideWithObstacle this (src k)), log), S k).
Proof.
  destruct this. unfold Script.collideWithObstacle, collideWithObstacle.
  cbv [Script.random Math_random]. split_ifs; reflexivity.
Qed.

Lemma call_update (v : Vehicle) (inp : Input) (deltaTime : num)
    (world : option WorldView) (src : RandomSource) (k : nat) :
  call v (CallUpdate inp deltaTime world) src k
  = (option_map vehicle (update v inp deltaTime world), k).
Proof.
  unfold call, bind. rewrite update_runs.
  destruct (update v inp deltaTime world); reflexivity.
Qed.

(** A call of [collideWithObstacle] moves the cursor: the monad of the
    runs does record a draw where the code makes one. *)
Lemma call_collide (v : Vehicle) (src : RandomSource) (k : nat) :
  call v CallCollide src k
  = (Some (fst (collideWithObstacle v (src k))), S k).
Proof. unfold call, bind. rewrite collideWithObstacle_runs. reflexivity. Qed.

Lemma run_step (v : Vehicle) (inp : Input) (deltaTime : num)
    (world : option WorldView) (rest : list Call) (src : RandomSource)
    (k : nat) (r : UpdateResult) :
  update v inp deltaTime world = Some r ->
  run v (CallUpdate inp deltaTime world :: rest) src k
  = (observe (vehicle r) :: fst (run (vehicle r) rest src k),
     snd (run (vehicle r) rest src k)).
Proof.
  intro E. cbn [run]. unfold bind at 1. rewrite call_update, E.
  cbn [option_map]. unfold bind, ret.
  destruct (run (vehicle r) rest src k). reflexivity.
Qed.

Lemma run_updates (frames : list (Input * num * option WorldView))
    (v : Vehicle) (src : RandomSource) (k : nat) :
  snd (run v (updates frames) src k) = k
  /\ List.length (fst (run v (updates frames) src k)) = List.length frames
  /\ forall src' k',
       fst (run v (updates frames) src' k')
       = fst (run v (updates frames) src k).
Proof.
  revert v src k. induction frames as [|[[inp dt] w] frames IH];
    intros v src k.
  - repeat split.
  - cbn [updates map fst snd]. fold (updates frames).
    destruct (update_returns v inp dt w) as [r E].
    rewrite (@run_step _ _ _ _ (updates frames) src k _ E).
    destruct (IH (vehicle r) src k) as (I1 & I2 & I3).
    cbn [fst snd List.length]. split; [exact I1|]. split; [f_equal; exact I2|].
    intros src' k'. rewrite (@run_step _ _ _ _ (updates frames) src' k' _ E).
    cbn [fst]. f_equal. apply I3.
Qed.

(** C2: two runs of [update] from the same vehicle over the same frames
    (input snapshot, delta time and world) show the same position, velocity,
    speed, yaw, steering angle and off-road flag after every frame, whatever
    values [Math.random()] would return in either run; no frame throws and
    none draws a random value.  The runs execute the methods statement by
    statement, in the monad in which [collideWithObstacle] does draw. *)
Theorem update_runs_are_deterministic
    (frames : list (Input * num * option WorldView)) (v : Vehicle)
    (src1 src2 : RandomSource) (k1 k2 : nat) :
  fst (run v (updates frames) src1 k1) = fst (run v (updates frames) src2 k2)
  /\ List.length (fst (run v (updates frames) src1 k1)) = List.length frames
  /\ snd (run v (updates frames) src1 k1) = k1
  /\ snd (run v (updates frames) src2 k2) = k2.
Proof.
  destruct (run_updates frames v src2 k2) as (A & B & C).
  destruct (run_updates frames v src1 k1) as (A' & B' & C').
  split; [apply C|]. repeat split; trivial.
Qed.

End Determinism.

(** ** The road *)

Section RoadFacts.

Import World.
Local Open Scope Q_scope.

Lemma positionRoadSegment_positioned (segment : Segment) (playerZ : Q) :
  positioned (positionRoadSegment segment playerZ (seg_z segment)).
Proof. unfold positioned. reflexivity. Qed.

Lemma relocate_positioned (segment : Segment) (playerZ newZ : Q) :
  positioned (relocate segment playerZ newZ)
  /\ seg_z (relocate segment playerZ newZ) = newZ.
Proof. split; [unfold positioned|]; reflexivity. Qed.

Lemma initialSegment_positioned (i : nat) : positioned (initialSegment i).
Proof. unfold positioned. reflexivity. Qed.

Lemma createRoad_positioned : Forall positioned (roadSegments createRoad).
Proof.
  unfold createRoad. cbn [roadSegments]. apply Forall_forall.
  intros s H. apply in_map_iff in H. destruct H as (i & <- & _).
  apply initialSegment_positioned.
Qed.

Lemma emergencyLoop_positioned (playerZ : Q) (segments : list Segment)
    (maxZ : Q) :
  Forall positioned segments ->
  Forall positioned (fst (emergencyLoop playerZ segments maxZ)).
Proof.
  revert maxZ. induction segments as [|s rest IH]; intros maxZ H.
  - constructor.
  - inversion H as [|? ? Hs Hrest]; subst. cbn [emergencyLoop].
    destruct (Qltb 500 (playerZ - seg_z s)).
    + specialize (IH (maxZ + SEGMENT_LENGTH) Hrest).
      destruct (emergencyLoop playerZ rest (maxZ + SEGMENT_LENGTH)).
      cbn [fst] in *. constructor; [apply relocate_positioned|exact IH].
    + specialize (IH maxZ Hrest).
      destruct (emergencyLoop playerZ rest maxZ).
      cbn [fst] in *. constructor; assumption.
Qed.

Lemma recycleLoop_positioned (playerZ : Q) (segments : list Segment)
    (maxZ : Q) (n : nat) :
  Forall positioned segments ->
  Forall positioned (fst (fst (recycleLoop playerZ segments maxZ n))).
Proof.
  revert maxZ n. induction segments as [|s rest IH]; intros maxZ n H.
  - constructor.
  - inversion H as [|? ? Hs Hrest]; subst. cbn [recycleLoop].
    destruct (n <? 50)%nat; [|exact H].
    assert (positioned
              (if Qltb 1000 (playerZ - seg_z s)
               then relocate s playerZ (maxZ + SEGMENT_LENGTH) else s)) as Hs'.
    { destruct (Qltb 1000 _); [apply relocate_positioned|exact Hs]. }
    destruct (Qltb 3000 _).
    + cbn [fst]. constructor; assumption.
    + match goal with
      | |- context [recycleLoop playerZ rest ?m ?k] =>
          specialize (IH m k Hrest);
            destruct (recycleLoop playerZ rest m k) as [[rest' maxZ'] n']
      end.
      cbn [fst] in *. constructor; assumption.
Qed.

Lemma recycleRoadSegments_cases (w : Road) (playerZ : Q) :
  roadSegments (recycleRoadSegments w playerZ) = roadSegments w
  \/ (exists maxZ,
        roadSegments (recycleRoadSegments w playerZ)
        = fst (emergencyLoop playerZ (firstn 50 (roadSegments w)) maxZ)
          ++ skipn 50 (roadSegments w))
  \/ (exists maxZ,
        roadSegments (recycleRoadSegments w playerZ)
        = fst (fst (recycleLoop playerZ (roadSegments w) maxZ 0))).
Proof.
  assert (F : forall b frame,
            roadSegments (fullPass w playerZ b frame) = roadSegments w
            \/ exists maxZ,
                 roadSegments (fullPass w playerZ b frame)
                 = fst (fst (recycleLoop playerZ (roadSegments w) maxZ 0))).
  { intros b frame. unfold fullPass.
    destruct (roadSegments w) as [|first others] eqn:E; [left; reflexivity|].
    destruct (Qltb _ 3000); [|left; reflexivity].
    right. eexists.
    destruct (recycleLoop _ _ _ _) as [[segs m] k] eqn:R.
    cbn [roadSegments]. rewrite R. reflexivity. }
  unfold recycleRoadSegments.
  destruct (10 <=? _)%nat.
  { destruct (F true 0%nat) as [H|H]; auto. }
  destruct (Qeq_bool _ 0).
  { destruct (F false (S (lastRecycleFrame w))) as [H|H]; auto. }
  unfold emergencyExtension.
  destruct (Qltb _ 500); [|left; reflexivity].
  right. left. eexists.
  destruct (emergencyLoop _ _ _) as [front m] eqn:R.
  cbn [roadSegments]. rewrite R. reflexivity.
Qed.

(** C4: [createRoad] positions every segment by the track function, a
    relocated segment gets the offset of its new z, and every recycling pass
    keeps all segments positioned: each stored x is the track offset at the
    segment's current z. *)
Theorem recycling_keeps_segments_positioned (w : Road) (playerZ : Q) :
  Forall positioned (roadSegments w) ->
  Forall positioned (roadSegments (recycleRoadSegments w playerZ))
  /\ Forall positioned (roadSegments createRoad)
  /\ (forall segment newZ,
        seg_z (relocate segment playerZ newZ) = newZ
        /\ seg_x (relocate segment playerZ newZ)
           == getTrackXPositionAtZ newZ).
Proof.
  intro H. split; [|split].
  - destruct (recycleRoadSegments_cases w playerZ) as [E|[[m E]|[m E]]];
      rewrite E.
    + exact H.
    + apply Forall_app. split.
      * apply emergencyLoop_positioned.
        rewrite <- (firstn_skipn 50 (roadSegments w)) in H.
        apply Forall_app in H. apply H.
      * rewrite <- (firstn_skipn 50 (roadSegments w)) in H.
        apply Forall_app in H. apply H.
    + apply recycleLoop_positioned. exact H.
  - exact createRoad_positioned.
  - intros segment newZ. split; [reflexivity|].
    apply (relocate_positioned segment playerZ newZ).
Qed.

Lemma recycling_keeps_segments_positioned_witness :
  Forall positioned (roadSegments (recycleRoadSegments createRoad 9600)).
Proof.
  exact (proj1 (@recycling_keeps_segments_positioned createRoad 9600
                  createRoad_positioned)).
Defined.

(** C3 fails on the code for negative z: [z % ROAD_LENGTH] is negative
    there, no pair of control points brackets it and the offset is 0, while
    one period further the track is in its hard left turn. *)
Theorem curvature_not_periodic_below_zero :
  getTrackXPositionAtZ (-1700) == 0
  /\ getTrackXPositionAtZ (-1700 + ROAD_LENGTH) == -50
  /\ ~ getTrackXPositionAtZ (-1700)
       == getTrackXPositionAtZ (-1700 + ROAD_LENGTH).
Proof.
  assert (A : getTrackXPositionAtZ (-1700) == 0) by (vm_compute; reflexivity).
  assert (B : getTrackXPositionAtZ (-1700 + ROAD_LENGTH) == -50)
    by (vm_compute; reflexivity).
  repeat split; trivial. rewrite A, B. intro H. vm_compute in H. discriminate.
Qed.

(** C5 fails on the code: from the road [createRoad] builds, a player
    advancing 150 per frame (MAX_SPEED at a delta time of 0.03), with
    [update] run on every frame, is ahead of the tracked road end at frame
    71; so is one advancing 300 per frame (speed 3000 at the delta time cap
    of 0.1) at frame 36. *)
Theorem road_runs_out :
  roadAhead (drive createRoad (steadyDrive 5000 150 71)) (71 * 150) < 0
  /\ roadAhead (drive createRoad (steadyDrive 3000 300 36)) (36 * 300) < 0.
Proof. split; vm_compute; reflexivity. Qed.

End RoadFacts.

(** ** The track function *)

Section TrackFacts.

Import World.
Local Open Scope Q_scope.

Lemma Qfloor_unique (x : Q) (n : Z) :
  inject_Z n <= x -> x < inject_Z (n + 1) -> Qfloor x = n.
Proof.
  intros L U.
  pose proof (Qfloor_le x) as FL. pose proof (Qlt_floor x) as FU.
  assert (inject_Z n < inject_Z (Qfloor x + 1)) as A by lra.
  assert (inject_Z (Qfloor x) < inject_Z (n + 1)) as B by lra.
  rewrite <- Zlt_Qlt in A, B. lia.
Qed.

Lemma Qtruncate_nonneg (x : Q) : 0 <= x -> Qtruncate x = Qfloor x.
Proof.
  destruct x as [n d]. unfold Qle, Qtruncate, Qfloor. simpl.
  intro H. apply Z.quot_div_nonneg; lia.
Qed.

Lemma Qtruncate_opp (x : Q) : Qtruncate (- x) = (- Qtruncate x)%Z.
Proof.
  destruct x as [n d]. unfold Qtruncate. simpl.
  apply Z.quot_opp_l. discriminate.
Qed.

Lemma Qtruncate_nonpos (x : Q) : x <= 0 -> Qtruncate x = (- Qfloor (- x))%Z.
Proof.
  intro H. rewrite <- Qtruncate_nonneg by lra.
  rewrite Qtruncate_opp. lia.
Qed.

(** [z % ROAD_LENGTH] for a z that is not negative: between 0 and the
    length, and the same one period further. *)
Lemma rem_nonneg (z : Q) :
  0 <= z ->
  0 <= rem z ROAD_LENGTH < ROAD_LENGTH
  /\ rem (z + ROAD_LENGTH) ROAD_LENGTH == rem z ROAD_LENGTH.
Proof.
  intro H. unfold rem, ROAD_LENGTH.
  assert (0 <= z / 2000) as D by (apply Qle_shift_div_l; lra).
  assert (0 <= (z + 2000) / 2000) as D' by (apply Qle_shift_div_l; lra).
  rewrite (Qtruncate_nonneg D), (Qtruncate_nonneg D').
  pose proof (Qfloor_le (z / 2000)) as FL.
  pose proof (Qlt_floor (z / 2000)) as FU.
  rewrite inject_Z_plus in FU.
  assert (z == 2000 * (z / 2000)) as E by (field; discriminate).
  assert (Qfloor ((z + 2000) / 2000) = (Qfloor (z / 2000) + 1)%Z) as P.
  { apply Qfloor_unique.
    - assert ((z + 2000) / 2000 == z / 2000 + 1) as -> by (field; discriminate).
      rewrite inject_Z_plus. change (inject_Z 1) with 1 in *. lra.
    - assert ((z + 2000) / 2000 == z / 2000 + 1) as -> by (field; discriminate).
      rewrite !inject_Z_plus. change (inject_Z 1) with 1 in *. lra. }
  rewrite P, inject_Z_plus.
  set (f := inject_Z (Qfloor (z / 2000))) in *.
  set (q := z / 2000) in *.
  change (inject_Z 1) with 1 in *.
  repeat split; lra.
Qed.

(** [z % ROAD_LENGTH] for a z that is not positive: the remainder keeps the
    sign. *)
Lemma rem_nonpos (z : Q) :
  z <= 0 -> - ROAD_LENGTH < rem z ROAD_LENGTH <= 0.
Proof.
  intro H. unfold rem, ROAD_LENGTH.
  assert (z / 2000 <= 0) as D by (apply Qle_shift_div_r; lra).
  rewrite (Qtruncate_nonpos D).
  pose proof (Qfloor_le (- (z / 2000))) as FL.
  pose proof (Qlt_floor (- (z / 2000))) as FU.
  rewrite inject_Z_plus in FU. rewrite inject_Z_opp.
  assert (z == 2000 * (z / 2000)) as E by (field; discriminate).
  set (f := inject_Z (Qfloor (- (z / 2000)))) in *.
  set (q := z / 2000) in *.
  change (inject_Z 1) with 1 in *.
  split; lra.
Qed.

Lemma findBracket_step (p : Q) (p1 p2 : TrackPoint) (rest : list TrackPoint) :
  findBracket p (p1 :: p2 :: rest)
  = if Qle_bool (pos p1) p && Qltb p (pos p2) then Some (p1, p2)
    else findBracket p (p2 :: rest).
Proof. reflexivity. Qed.

Lemma findBracket_compat (points : list TrackPoint) (p q : Q) :
  p == q -> findBracket p points = findBracket q points.
Proof.
  intro H. induction points as [|p1 rest IH]; trivial.
  destruct rest as [|p2 rest]; trivial.
  rewrite !findBracket_step, IH. unfold Qltb. rewrite H. reflexivity.
Qed.

Lemma offsetOnTrack_compat (points : list TrackPoint) (p q : Q) :
  p == q -> offsetOnTrack points p == offsetOnTrack points q.
Proof.
  intro H. unfold offsetOnTrack, bracket.
  rewrite (findBracket_compat points H).
  destruct (findBracket q points) as [[p1 p2]|]; unfold cubicEase;
    rewrite H; reflexivity.
Qed.

(** X1: the track offset repeats with period ROAD_LENGTH on z >= 0. *)
Theorem curvature_periodic_from_zero (z : Q) :
  0 <= z ->
  getTrackXPositionAtZ (z + ROAD_LENGTH) == getTrackXPositionAtZ z.
Proof.
  intro H. unfold getTrackXPositionAtZ.
  apply offsetOnTrack_compat.
  destruct (rem_nonneg H) as (_ & E). rewrite E. reflexivity.
Qed.

Lemma curvature_periodic_witness :
  getTrackXPositionAtZ (300 + ROAD_LENGTH) == getTrackXPositionAtZ 300.
Proof.
  apply (@curvature_periodic_from_zero 300). vm_compute. discriminate.
Defined.

Lemma progress_unit (a b p : Q) :
  a <= p -> p < b -> 0 <= (p - a) / (b - a) <= 1.
Proof.
  intros L U. split.
  - apply Qle_shift_div_l; lra.
  - apply Qle_shift_div_r; lra.
Qed.

Lemma cubicEase_unit (t : Q) : 0 <= t <= 1 -> 0 <= cubicEase t <= 1.
Proof.
  unfold cubicEase. intros [L U]. split.
  - assert (0 <= t * t) by nra. nra.
  - assert (0 <= (1 - t) * (1 - t) * (1 + 2 * t)) by
      (apply Qmult_le_0_compat; nra).
    nra.
Qed.

(** X2: the ease of [cubicEase] fixes 0, one half and 1, and keeps the unit
    interval inside itself. *)
Theorem cubicEase_keeps_the_unit_interval :
  cubicEase 0 == 0 /\ cubicEase (1 # 2) == 1 # 2 /\ cubicEase 1 == 1
  /\ (forall t, 0 <= t <= 1 -> 0 <= cubicEase t <= 1).
Proof.
  split; [unfold cubicEase; ring|]. split; [unfold cubicEase; ring|].
  split; [unfold cubicEase; ring|].
  intros t [L U]. unfold cubicEase. split.
  - assert (0 <= t * t) by nra. nra.
  - assert (0 <= (1 - t) * (1 - t) * (1 + 2 * t)) by
      (apply Qmult_le_0_compat; nra).
    nra.
Qed.

Lemma findBracket_sound (points : list TrackPoint) (p : Q)
    (p1 p2 : TrackPoint) :
  findBracket p points = Some (p1, p2) ->
  pos p1 <= p < pos p2 /\ In p1 points /\ In p2 points.
Proof.
  induction points as [|a rest IH]; [discriminate|].
  destruct rest as [|b rest]; [discriminate|].
  rewrite findBracket_step.
  destruct (Qle_bool (pos a) p && Qltb p (pos b)) eqn:E.
  - intro H. injection H as <- <-.
    apply andb_true_iff in E. destruct E as [E1 E2]. qprops.
    repeat split; simpl; auto.
  - intro H. destruct (IH H) as (B & I1 & I2).
    repeat split; try apply B; right; assumption.
Qed.

Lemma findBracket_below (points : list TrackPoint) (p : Q) :
  Forall (fun point => p < pos point) points -> findBracket p points = None.
Proof.
  induction points as [|a rest IH]; trivial.
  destruct rest as [|b rest]; trivial.
  intro H. inversion H as [|? ? Ha Hrest]; subst.
  rewrite findBracket_step, (IH Hrest).
  assert (Qle_bool (pos a) p = false) as -> by (apply Qle_bool_gt; exact Ha).
  reflexivity.
Qed.

Lemma last_default {A : Type} (l : list A) (d d' : A) :
  l <> [] -> last l d = last l d'.
Proof.
  induction l as [|x l IH]; [congruence|]. intros _.
  destruct l as [|y l]; [reflexivity|].
  change (last (y :: l) d = last (y :: l) d'). apply IH. discriminate.
Qed.

(** Between the first and the last control point some pair brackets. *)
Lemma findBracket_between (rest : list TrackPoint) (a : TrackPoint) (p : Q) :
  pos a <= p -> p < pos (last (a :: rest) a) ->
  exists b, findBracket p (a :: rest) = Some b.
Proof.
  revert a. induction rest as [|b rest IH]; intros a L U.
  - cbn [last] in U. lra.
  - rewrite findBracket_step.
    destruct (Qle_bool (pos a) p && Qltb p (pos b)) eqn:E; [eauto|].
    apply IH.
    + apply andb_false_iff in E. destruct E as [E|E]; qprops; lra.
    + change (last (a :: b :: rest) a) with (last (b :: rest) a) in U.
      rewrite (@last_default _ (b :: rest) a b) in U by discriminate. exact U.
Qed.

Lemma interpolation_bounds (t1 t2 e : Q) :
  -1 <= t1 <= 1 -> -1 <= t2 <= 1 -> 0 <= e <= 1 ->
  -50 <= (t1 + (t2 - t1) * e) * LANE_WIDTH * 5.0 <= 50.
Proof.
  intros [L1 U1] [L2 U2] [L U]. unfold LANE_WIDTH.
  assert (0 <= e * (t2 + 1)) by (apply Qmult_le_0_compat; lra).
  assert (0 <= (1 - e) * (t1 + 1)) by (apply Qmult_le_0_compat; lra).
  assert (0 <= e * (1 - t2)) by (apply Qmult_le_0_compat; lra).
  assert (0 <= (1 - e) * (1 - t1)) by (apply Qmult_le_0_compat; lra).
  split; nra.
Qed.

(** The offset of a track whose turns lie in [-1, 1] and whose first and
    last point turn alike. *)
Lemma offsetOnTrack_bounds (points : list TrackPoint) (p : Q) :
  Forall (fun point => -1 <= turn point <= 1) points ->
  turn (hd noPoint points) == turn (last points noPoint) ->
  -1 <= turn (hd noPoint points) <= 1 ->
  -50 <= offsetOnTrack points p <= 50.
Proof.
  intros T E H0. unfold offsetOnTrack, bracket.
  destruct (findBracket p points) as [[p1 p2]|] eqn:F.
  - destruct (findBracket_sound _ _ F) as ((L & U) & I1 & I2).
    rewrite Forall_forall in T.
    apply interpolation_bounds; auto.
    apply cubicEase_unit. apply progress_unit; assumption.
  - set (e := cubicEase _).
    assert ((turn (hd noPoint points)
             + (turn (last points noPoint) - turn (hd noPoint points)) * e)
            * LANE_WIDTH * 5.0
            == turn (hd noPoint points) * 50) as ->.
    { rewrite <- E. unfold LANE_WIDTH. ring. }
    lra.
Qed.

Lemma track_turns :
  Forall (fun point => -1 <= turn point <= 1) trackPoints_getTrackX.
Proof.
  unfold trackPoints_getTrackX.
  repeat constructor; vm_compute; discriminate.
Qed.

(** X3: the track offset never leaves [-50, 50] (LANE_WIDTH * 5 either
    way), whatever z is. *)
Theorem curvature_bounded (z : Q) :
  -50 <= getTrackXPositionAtZ z <= 50.
Proof.
  unfold getTrackXPositionAtZ. apply offsetOnTrack_bounds.
  - exact track_turns.
  - reflexivity.
  - split; vm_compute; discriminate.
Qed.

(** X4: at z <= 0 the track offset is 0: the remainder is not positive,
    and below 0 no pair of control points brackets it. *)
Theorem curvature_flat_up_to_zero (z : Q) :
  z <= 0 ->
  getTrackXPositionAtZ z == 0
  /\ (rem z ROAD_LENGTH < 0 ->
      findBracket (rem z ROAD_LENGTH / ROAD_LENGTH) trackPoints_getTrackX
      = None).
Proof.
  intro H. destruct (rem_nonpos H) as [L U].
  assert (N : rem z ROAD_LENGTH < 0 ->
              findBracket (rem z ROAD_LENGTH / ROAD_LENGTH)
                trackPoints_getTrackX = None).
  { intro Neg. apply findBracket_below.
    assert (rem z ROAD_LENGTH / ROAD_LENGTH < 0) as P.
    { unfold ROAD_LENGTH in *. apply Qlt_shift_div_r; lra. }
    unfold trackPoints_getTrackX.
    repeat constructor; cbn [pos];
      (eapply Qlt_le_trans; [exact P|]); vm_compute; discriminate. }
  split; [|exact N].
  unfold getTrackXPositionAtZ.
  destruct (Qlt_le_dec (rem z ROAD_LENGTH) 0) as [Neg|Pos].
  - unfold offsetOnTrack, bracket. rewrite (N Neg).
    cbn [hd last trackPoints_getTrackX turn pos]. unfold LANE_WIDTH. ring.
  - assert (rem z ROAD_LENGTH / ROAD_LENGTH == 0) as E.
    { assert (rem z ROAD_LENGTH == 0) as -> by lra. reflexivity. }
    rewrite (offsetOnTrack_compat trackPoints_getTrackX E).
    vm_compute. reflexivity.
Qed.

Lemma curvature_flat_witness : getTrackXPositionAtZ (-1700) == 0.
Proof.
  apply (@curvature_flat_up_to_zero (-1700)). vm_compute. discriminate.
Defined.

(** X5: at z >= 0 the pattern position lies in [0, 1) and a pair of
    consecutive control points brackets it, so the first-and-last fallback
    is never taken. *)
Theorem bracket_found_from_zero (z : Q) :
  0 <= z ->
  let patternPosition := rem z ROAD_LENGTH / ROAD_LENGTH in
  0 <= patternPosition < 1
  /\ exists p1 p2,
       findBracket patternPosition trackPoints_getTrackX = Some (p1, p2)
       /\ pos p1 <= patternPosition < pos p2.
Proof.
  intros H pp. destruct (rem_nonneg H) as ((L & U) & _).
  assert (0 <= pp < 1) as [L' U'].
  { unfold pp, ROAD_LENGTH in *. split.
    - apply Qle_shift_div_l; lra.
    - apply Qlt_shift_div_r; lra. }
  split; [split; assumption|].
  destruct (findBracket pp trackPoints_getTrackX) as [[p1 p2]|] eqn:F.
  - exists p1, p2. split; [reflexivity|].
    apply (findBracket_sound _ _ F).
  - exfalso.
    assert (exists b, findBracket pp trackPoints_getTrackX = Some b) as [b B].
    { apply findBracket_between with (a := {| pos := 0.0; turn := 0 |}).
      - cbn [pos]. lra.
      - cbn [last trackPoints_getTrackX pos]. lra. }
    congruence.
Qed.

Lemma bracket_found_witness :
  0 <= rem 300 ROAD_LENGTH / ROAD_LENGTH < 1.
Proof.
  apply (@bracket_found_from_zero 300). vm_compute. discriminate.
Defined.

End TrackFacts.

(** ** Road maintenance *)

Section Maintenance.

Import World.
Local Open Scope Q_scope.

Lemma update_maintained (w : Road) (playerSpeed : Q)
    (playerPosition : option Q) :
  maintained w (update w playerSpeed playerPosition).
Proof.
  assert (R : forall w' playerZ (b : bool),
            maintained w w' ->
            maintained w (if b then recycleRoadSegments w' playerZ else w')).
  { intros w' z [|] H; [apply maintained_recycle|]; exact H. }
  assert (U : forall w' p, maintained w w' ->
                           maintained w (updateRoad w' playerSpeed p)).
  { intros w' [z|] H; unfold updateRoad; [|exact H].
    apply R. apply R. apply maintained_player. exact H. }
  unfold update. destruct playerPosition as [z|].
  - apply U. apply R.
    destruct (_ =? 1)%nat; [apply maintained_player|];
      apply maintained_count, maintained_start.
  - apply U. apply maintained_count, maintained_start.
Qed.

Lemma maintained_trans (a b c : Road) :
  maintained a b -> maintained b c -> maintained a c.
Proof.
  intros H1 H2. induction H2.
  - exact H1.
  - apply maintained_recycle. assumption.
  - apply maintained_player. assumption.
  - apply maintained_count. assumption.
Qed.

Lemma drive_maintained (frames : list (Q * Q)) (w : Road) :
  maintained w (drive w frames).
Proof.
  revert w. induction frames as [|f frames IH]; intro w.
  - apply maintained_start.
  - cbn [drive fold_left]. eapply maintained_trans; [|apply IH].
    apply update_maintained.
Qed.

Lemma emergencyLoop_length (playerZ : Q) (segments : list Segment) (maxZ : Q) :
  List.length (fst (emergencyLoop playerZ segments maxZ))
  = List.length segments.
Proof.
  revert maxZ. induction segments as [|s rest IH]; intro maxZ; trivial.
  cbn [emergencyLoop]. destruct (Qltb 500 _).
  - specialize (IH (maxZ + SEGMENT_LENGTH)).
    destruct (emergencyLoop _ _ _). cbn [fst List.length] in *. congruence.
  - specialize (IH maxZ).
    destruct (emergencyLoop _ _ _). cbn [fst List.length] in *. congruence.
Qed.

Lemma recycleLoop_length (playerZ : Q) (segments : list Segment) (maxZ : Q)
    (n : nat) :
  List.length (fst (fst (recycleLoop playerZ segments maxZ n)))
  = List.length segments.
Proof.
  revert maxZ n. induction segments as [|s rest IH]; intros maxZ n; trivial.
  cbn [recycleLoop]. destruct (n <? 50)%nat; trivial.
  destruct (Qltb 3000 _); trivial.
  match goal with
  | |- context [recycleLoop playerZ rest ?m ?k] =>
      specialize (IH m k);
        destruct (recycleLoop playerZ rest m k) as [[rest' maxZ'] n']
  end.
  cbn [fst List.length] in *. congruence.
Qed.

Lemma recycle_length (w : Road) (playerZ : Q) :
  List.length (roadSegments (recycleRoadSegments w playerZ))
  = List.length (roadSegments w).
Proof.
  destruct (recycleRoadSegments_cases w playerZ) as [E|[[m E]|[m E]]];
    rewrite E; trivial.
  - rewrite length_app, emergencyLoop_length, <- length_app, firstn_skipn.
    reflexivity.
  - apply recycleLoop_length.
Qed.

(** X6: the segment pool keeps its size: no call of [recycleRoadSegments]
    and no frame of [update] adds or drops a segment, so after any drive
    from [createRoad] there are still 1000. *)
Theorem segment_pool_keeps_its_size (w : Road) (playerZ : Q)
    (frames : list (Q * Q)) :
  List.length (roadSegments (recycleRoadSegments w playerZ))
  = List.length (roadSegments w)
  /\ List.length (roadSegments (drive w frames))
     = List.length (roadSegments w)
  /\ List.length (roadSegments (drive createRoad frames)) = 1000%nat.
Proof.
  assert (D : forall w0, List.length (roadSegments (drive w0 frames))
                         = List.length (roadSegments w0)).
  { intro w0. induction (drive_maintained frames w0); trivial.
    rewrite recycle_length. assumption. }
  split; [apply recycle_length|]. split; [apply D|].
  rewrite D. unfold createRoad. cbn [roadSegments].
  rewrite length_map, length_seq. reflexivity.
Qed.

End Maintenance.

Section Extent.

Import World.
Local Open Scope Q_scope.

Lemma qmax_ge_l (a b : Q) : a <= qmax a b.
Proof. unfold qmax. destruct (Qltb a b) eqn:E; qprops; lra. Qed.

Lemma fold_qmax_ge (l : list Q) (a : Q) : a <= fold_left qmax l a.
Proof.
  revert a. induction l as [|x l IH]; intro a; cbn [fold_left]; [lra|].
  eapply Qle_trans; [apply (qmax_ge_l a x)|apply IH].
Qed.

Lemma segment_length_pos : 0 < SEGMENT_LENGTH.
Proof. reflexivity. Qed.

(** The quick loop only pushes the road end forward, by one segment
    length for each segment it looks at, at most. *)
Lemma emergencyLoop_extent (playerZ : Q) (segments : list Segment) (maxZ : Q) :
  maxZ <= snd (emergencyLoop playerZ segments maxZ)
  /\ snd (emergencyLoop playerZ segments maxZ)
     <= maxZ + inject_Z (Z.of_nat (List.length segments)) * SEGMENT_LENGTH.
Proof.
  revert maxZ. induction segments as [|s rest IH]; intro maxZ.
  - cbn [emergencyLoop snd List.length Z.of_nat].
    change (inject_Z 0) with 0. unfold SEGMENT_LENGTH. lra.
  - cbn [emergencyLoop List.length]. rewrite Nat2Z.inj_succ.
    unfold Z.succ. rewrite inject_Z_plus. change (inject_Z 1) with 1.
    assert (0 <= inject_Z (Z.of_nat (List.length rest))).
    { change 0 with (inject_Z 0). rewrite <- Zle_Qle. lia. }
    destruct (Qltb 500 _).
    + specialize (IH (maxZ + SEGMENT_LENGTH)).
      destruct (emergencyLoop _ _ _). cbn [snd] in *.
      unfold SEGMENT_LENGTH in *. lra.
    + specialize (IH maxZ).
      destruct (emergencyLoop _ _ _). cbn [snd] in *.
      unfold SEGMENT_LENGTH in *. lra.
Qed.

Lemma recycleLoop_extent (playerZ : Q) (segments : list Segment) (maxZ : Q)
    (n : nat) :
  maxZ <= snd (fst (recycleLoop playerZ segments maxZ n)).
Proof.
  pose proof segment_length_pos as P.
  revert maxZ n. induction segments as [|s rest IH]; intros maxZ n.
  - cbn. lra.
  - cbn [recycleLoop]. destruct (n <? 50)%nat; [|cbn; lra].
    destruct (Qltb 1000 _).
    + destruct (Qltb 3000 _); [cbn; lra|].
      specialize (IH (maxZ + SEGMENT_LENGTH) (S n)).
      destruct (recycleLoop _ _ _ _) as [[rest' maxZ'] n'].
      cbn [fst snd] in *. lra.
    + destruct (Qltb 3000 _); [cbn; lra|].
      specialize (IH maxZ n).
      destruct (recycleLoop _ _ _ _) as [[rest' maxZ'] n'].
      cbn [fst snd] in *. lra.
Qed.

Lemma fullPass_extent (w : Road) (playerZ : Q) (b : bool) (frame : nat) :
  0 < roadZMax w -> roadZMax w <= roadZMax (fullPass w playerZ b frame).
Proof.
  intro H. unfold fullPass.
  destruct (roadSegments w) as [|first others]; [cbn; lra|].
  match goal with
  | |- context [if ?c then fold_left qmax ?l ?a else roadZMax w] =>
      set (zMax := if c then fold_left qmax l a else roadZMax w)
  end.
  assert (roadZMax w <= zMax) as Z.
  { unfold zMax. destruct (_ || _); [|lra].
    eapply Qle_trans; [|apply fold_qmax_ge].
    unfold orInfinity.
    assert (Qeq_bool (roadZMax w) 0 = false) as ->
      by (apply Qeq_bool_ne; lra).
    apply qmax_ge_l. }
  destruct (Qltb _ 3000); [|cbn; exact Z].
  pose proof (recycleLoop_extent playerZ (first :: others) zMax 0) as R.
  destruct (recycleLoop _ _ _ _) as [[segs m] k].
  cbn [roadZMax fst snd] in *. destruct (0 <? k)%nat; lra.
Qed.

Lemma recycle_extent (w : Road) (playerZ : Q) :
  0 < roadZMax w -> roadZMax w <= roadZMax (recycleRoadSegments w playerZ).
Proof.
  intro H. unfold recycleRoadSegments.
  destruct (10 <=? _)%nat; [apply fullPass_extent; exact H|].
  destruct (Qeq_bool _ 0); [apply fullPass_extent; exact H|].
  unfold emergencyExtension. destruct (Qltb _ 500); [|cbn; lra].
  pose proof (emergencyLoop_extent playerZ (firstn 50 (roadSegments w))
                (roadZMax w)) as [L _].
  destruct (emergencyLoop _ _ _). cbn [roadZMax snd] in *. exact L.
Qed.

(** X7: the tracked road end never moves back: from a positive [roadZMax],
    neither a call of [recycleRoadSegments] nor any sequence of frames
    lowers it. *)
Theorem road_end_never_moves_back (w : Road) (playerZ : Q)
    (frames : list (Q * Q)) :
  0 < roadZMax w ->
  roadZMax w <= roadZMax (recycleRoadSegments w playerZ)
  /\ roadZMax w <= roadZMax (drive w frames).
Proof.
  intro H. split; [apply recycle_extent; exact H|].
  induction (drive_maintained frames w) as [|w' z m IH|w' z m IH|w' m IH].
  - lra.
  - eapply Qle_trans; [exact IH|]. apply recycle_extent. lra.
  - exact IH.
  - exact IH.
Qed.

Lemma road_end_witness :
  roadZMax createRoad <= roadZMax (recycleRoadSegments createRoad 9600).
Proof.
  apply (@road_end_never_moves_back createRoad 9600 []). reflexivity.
Defined.

(** X8: a call that takes the quick path (the counter stays below 10 and
    [roadZMax] is set) leaves every segment from index 50 on where it is,
    and moves the road end forward by 500 at most. *)
Theorem quick_path_reaches_fifty_segments (w : Road) (playerZ : Q) :
  (S (lastRecycleFrame w) < 10)%nat ->
  ~ roadZMax w == 0 ->
  skipn 50 (roadSegments (recycleRoadSegments w playerZ))
  = skipn 50 (roadSegments w)
  /\ roadZMax (recycleRoadSegments w playerZ) <= roadZMax w + 500.
Proof.
  intros Hc Hz. unfold recycleRoadSegments.
  assert ((10 <=? S (lastRecycleFrame w))%nat = false) as ->
    by (apply Nat.leb_gt; exact Hc).
  apply Qeq_bool_ne in Hz. rewrite Hz.
  unfold emergencyExtension. destruct (Qltb _ 500).
  - pose proof (emergencyLoop_extent playerZ (firstn 50 (roadSegments w))
                  (roadZMax w)) as [_ U].
    pose proof (emergencyLoop_length playerZ (firstn 50 (roadSegments w))
                  (roadZMax w)) as Len.
    destruct (emergencyLoop _ _ _) as [front m].
    cbn [roadSegments roadZMax fst snd] in *. split.
    + rewrite skipn_app, Len.
      rewrite (skipn_all2 front) by (rewrite Len, length_firstn; lia).
      rewrite length_firstn. cbn [app].
      destruct (Nat.le_ge_cases 50 (List.length (roadSegments w))) as [G|G].
      * rewrite Nat.min_l by exact G. rewrite Nat.sub_diag. reflexivity.
      * rewrite !skipn_all2; trivial.
        rewrite length_skipn. lia.
    + assert (inject_Z (Z.of_nat (List.length (firstn 50 (roadSegments w))))
              <= 50).
      { change 50 with (inject_Z 50). rewrite <- Zle_Qle.
        rewrite length_firstn. lia. }
      unfold SEGMENT_LENGTH in U. nra.
  - cbn [roadSegments roadZMax]. split; [reflexivity|lra].
Qed.

Lemma quick_path_witness :
  skipn 50 (roadSegments (recycleRoadSegments createRoad 9600))
  = skipn 50 (roadSegments createRoad).
Proof.
  apply (@quick_path_reaches_fifty_segments createRoad 9600).
  - cbn. lia.
  - vm_compute. discriminate.
Defined.

Lemma recycle_positioned (w : Road) (playerZ : Q) :
  Forall positioned (roadSegments w) ->
  Forall positioned (roadSegments (recycleRoadSegments w playerZ)).
Proof.
  intro H.
  destruct (recycleRoadSegments_cases w playerZ) as [E|[[m E]|[m E]]];
    rewrite E; trivial.
  - rewrite <- (firstn_skipn 50 (roadSegments w)) in H.
    apply Forall_app in H. destruct H as [H1 H2].
    apply Forall_app. split; [apply emergencyLoop_positioned|]; assumption.
  - apply recycleLoop_positioned. exact H.
Qed.

Lemma emergencyLoop_ahead (playerZ : Q) (segments : list Segment) (maxZ : Q) :
  0 <= maxZ -> Forall ahead_of_start segments ->
  Forall ahead_of_start (fst (emergencyLoop playerZ segments maxZ)).
Proof.
  pose proof segment_length_pos as P.
  revert maxZ. induction segments as [|s rest IH]; intros maxZ M H.
  - constructor.
  - inversion H as [|? ? Hs Hrest]; subst. cbn [emergencyLoop].
    destruct (Qltb 500 _).
    + assert (0 <= maxZ + SEGMENT_LENGTH) as M' by lra.
      specialize (IH _ M' Hrest).
      destruct (emergencyLoop _ _ _). cbn [fst] in *.
      constructor; [exact M'|exact IH].
    + specialize (IH _ M Hrest).
      destruct (emergencyLoop _ _ _). cbn [fst] in *.
      constructor; assumption.
Qed.

Lemma recycleLoop_ahead (playerZ : Q) (segments : list Segment) (maxZ : Q)
    (n : nat) :
  0 <= maxZ -> Forall ahead_of_start segments ->
  Forall ahead_of_start (fst (fst (recycleLoop playerZ segments maxZ n))).
Proof.
  pose proof segment_length_pos as P.
  revert maxZ n. induction segments as [|s rest IH]; intros maxZ n M H.
  - constructor.
  - inversion H as [|? ? Hs Hrest]; subst. cbn [recycleLoop].
    destruct (n <? 50)%nat; [|exact H].
    destruct (Qltb 1000 _).
    + assert (0 <= maxZ + SEGMENT_LENGTH) as M' by lra.
      destruct (Qltb 3000 _).
      * cbn [fst]. constructor; [exact M'|exact Hrest].
      * specialize (IH _ (S n) M' Hrest).
        destruct (recycleLoop _ _ _ _) as [[rest' maxZ'] n'].
        cbn [fst] in *. constructor; [exact M'|exact IH].
    + destruct (Qltb 3000 _).
      * cbn [fst]. constructor; assumption.
      * specialize (IH _ n M Hrest).
        destruct (recycleLoop _ _ _ _) as [[rest' maxZ'] n'].
        cbn [fst] in *. constructor; assumption.
Qed.

Lemma recycle_ahead (w : Road) (playerZ : Q) :
  0 < roadZMax w -> Forall ahead_of_start (roadSegments w) ->
  Forall ahead_of_start (roadSegments (recycleRoadSegments w playerZ)).
Proof.
  intros Hz H.
  assert (F : forall b frame,
            Forall ahead_of_start
              (roadSegments (fullPass w playerZ b frame))).
  { intros b frame. unfold fullPass.
    destruct (roadSegments w) as [|first others] eqn:E; [constructor|].
    match goal with
    | |- context [if ?c then fold_left qmax ?l ?a else roadZMax w] =>
        set (zMax := if c then fold_left qmax l a else roadZMax w)
    end.
    assert (0 <= zMax) as Z.
    { unfold zMax. destruct (_ || _); [|lra].
      eapply Qle_trans; [|apply fold_qmax_ge].
      unfold orInfinity.
      assert (Qeq_bool (roadZMax w) 0 = false) as ->
        by (apply Qeq_bool_ne; lra).
      pose proof (qmax_ge_l (roadZMax w) (seg_z first)). cbn [maxFrom]. lra. }
    destruct (Qltb _ 3000); [|cbn [roadSegments]; exact H].
    pose proof (recycleLoop_ahead playerZ 0 Z H) as R.
    destruct (recycleLoop _ _ _ _) as [[segs m] k].
    cbn [roadSegments fst] in *. exact R. }
  unfold recycleRoadSegments.
  destruct (10 <=? _)%nat; [apply F|].
  destruct (Qeq_bool _ 0); [apply F|].
  unfold emergencyExtension. destruct (Qltb _ 500); [|cbn; exact H].
  rewrite <- (firstn_skipn 50 (roadSegments w)) in H.
  apply Forall_app in H. destruct H as [H1 H2].
  assert (0 <= roadZMax w) as Z by lra.
  pose proof (emergencyLoop_ahead playerZ Z H1) as R.
  destruct (emergencyLoop _ _ _) as [front m].
  cbn [roadSegments fst] in *. apply Forall_app. split; assumption.
Qed.

Lemma emergencyLoop_unturned (playerZ : Q) (segments : list Segment)
    (maxZ : Q) :
  Forall unturned segments ->
  Forall unturned (fst (emergencyLoop playerZ segments maxZ)).
Proof.
  revert maxZ. induction segments as [|s rest IH]; intros maxZ H.
  - constructor.
  - inversion H as [|? ? Hs Hrest]; subst. cbn [emergencyLoop].
    destruct (Qltb 500 _).
    + specialize (IH (maxZ + SEGMENT_LENGTH) Hrest).
      destruct (emergencyLoop _ _ _). cbn [fst] in *.
      constructor; [reflexivity|exact IH].
    + specialize (IH maxZ Hrest).
      destruct (emergencyLoop _ _ _). cbn [fst] in *.
      constructor; assumption.
Qed.

Lemma recycleLoop_unturned (playerZ : Q) (segments : list Segment)
    (maxZ : Q) (n : nat) :
  Forall unturned segments ->
  Forall unturned (fst (fst (recycleLoop playerZ segments maxZ n))).
Proof.
  revert maxZ n. induction segments as [|s rest IH]; intros maxZ n H.
  - constructor.
  - inversion H as [|? ? Hs Hrest]; subst. cbn [recycleLoop].
    destruct (n <? 50)%nat; [|exact H].
    assert (unturned
              (if Qltb 1000 (playerZ - seg_z s)
               then relocate s playerZ (maxZ + SEGMENT_LENGTH) else s)) as Hs'.
    { destruct (Qltb 1000 _); [reflexivity|exact Hs]. }
    destruct (Qltb 3000 _).
    + cbn [fst]. constructor; assumption.
    + match goal with
      | |- context [recycleLoop playerZ rest ?m ?k] =>
          specialize (IH m k Hrest);
            destruct (recycleLoop playerZ rest m k) as [[rest' maxZ'] n']
      end.
      cbn [fst] in *. constructor; assumption.
Qed.

Lemma recycle_unturned (w : Road) (playerZ : Q) :
  Forall unturned (roadSegments w) ->
  Forall unturned (roadSegments (recycleRoadSegments w playerZ)).
Proof.
  intro H.
  destruct (recycleRoadSegments_cases w playerZ) as [E|[[m E]|[m E]]];
    rewrite E; trivial.
  - rewrite <- (firstn_skipn 50 (roadSegments w)) in H.
    apply Forall_app in H. destruct H as [H1 H2].
    apply Forall_app. split; [apply emergencyLoop_unturned|]; assumption.
  - apply recycleLoop_unturned. exact H.
Qed.

(** X9: however the player drives from the start, every segment stays at
    z >= 0, carries the track offset of its z as x and keeps the yaw 0, and
    the road end stays at 10000 or beyond; so no segment ever lies where
    the track function is cut off at 0, and the vehicle never meets a
    turned segment. *)
Theorem road_stays_ahead_and_positioned (frames : list (Q * Q)) :
  Forall ahead_of_start (roadSegments (drive createRoad frames))
  /\ Forall positioned (roadSegments (drive createRoad frames))
  /\ Forall unturned (roadSegments (drive createRoad frames))
  /\ 10000 <= roadZMax (drive createRoad frames).
Proof.
  assert (I0 : Forall ahead_of_start (roadSegments createRoad)).
  { unfold createRoad. cbn [roadSegments]. apply Forall_forall.
    intros s H. apply in_map_iff in H. destruct H as (i & <- & _).
    unfold ahead_of_start, initialSegment. cbn [seg_z].
    assert (0 <= inject_Z (Z.of_nat i)).
    { change 0 with (inject_Z 0). rewrite <- Zle_Qle. lia. }
    unfold SEGMENT_LENGTH. lra. }
  assert (U0 : Forall unturned (roadSegments createRoad)).
  { unfold createRoad. cbn [roadSegments]. apply Forall_forall.
    intros s H. apply in_map_iff in H. destruct H as (i & <- & _).
    reflexivity. }
  assert (Z0 : roadZMax createRoad == 10000) by reflexivity.
  induction (drive_maintained frames createRoad)
    as [|w' z m IH|w' z m IH|w' m IH].
  - repeat split; [exact I0|exact createRoad_positioned|exact U0|lra].
  - destruct IH as (A & P & U & Z). repeat split.
    + apply recycle_ahead; [lra|exact A].
    + apply recycle_positioned. exact P.
    + apply recycle_unturned. exact U.
    + eapply Qle_trans; [exact Z|]. apply recycle_extent. lra.
  - exact IH.
  - exact IH.
Qed.

(** X10: [forceUpdateAllRoadSegments] does nothing while the stored player
    z is 0; otherwise it moves no segment, leaves every segment at or behind
    [playerZ - 30] exactly as it is, and gives every segment ahead of that
    line the track offset of its z and the yaw 0. *)
Theorem forceUpdate_positions_segments_ahead (w : Road) :
  (playerZPosition w == 0 -> forceUpdateAllRoadSegments w = w)
  /\ (~ playerZPosition w == 0 ->
      Forall2 (fun before after =>
                 seg_z after = seg_z before
                 /\ (seg_z before <= playerZPosition w - 30 ->
                     after = before)
                 /\ (playerZPosition w - 30 < seg_z before ->
                     positioned after /\ unturned after))
              (roadSegments w)
              (roadSegments (forceUpdateAllRoadSegments w)))
  /\ (Forall positioned (roadSegments w) ->
      Forall positioned (roadSegments (forceUpdateAllRoadSegments w))).
Proof.
  unfold forceUpdateAllRoadSegments.
  destruct (Qeq_bool (playerZPosition w) 0) eqn:E; qprops.
  - repeat split; trivial. intro N. contradiction.
  - cbn [roadSegments]. repeat split.
    + intro N. contradiction.
    + intros _. induction (roadSegments w) as [|s rest IH];
        cbn [map]; constructor; [|exact IH].
      destruct (Qltb _ (seg_z s)) eqn:L; qprops.
      * split; [reflexivity|]. split; [intro G; lra|].
        intros _. split; [apply positionRoadSegment_positioned|reflexivity].
      * split; [reflexivity|]. split; [reflexivity|]. intro G. lra.
    + intro H. apply Forall_forall. intros s I.
      apply in_map_iff in I. destruct I as (s0 & <- & I).
      rewrite Forall_forall in H.
      destruct (Qltb _ _); [apply positionRoadSegment_positioned|auto].
Qed.

End Extent.

(** ** Obstacles, collectibles and events *)

Section Entities.

Import World Collisions.
Local Open Scope Q_scope.

Lemma firstn_succ_nth {A : Type} (a : list A) (j : nat) (x : A) :
  nth_error a j = Some x -> firstn (S j) a = firstn j a ++ [x].
Proof.
  revert j. induction a as [|y a IH]; intros [|j] H; try discriminate.
  - injection H as ->. reflexivity.
  - cbn [firstn app]. f_equal. apply IH. exact H.
Qed.

Lemma skipn_nth {A : Type} (a : list A) (j : nat) (x : A) :
  nth_error a j = Some x -> skipn j a = x :: skipn (S j) a.
Proof.
  revert j. induction a as [|y a IH]; intros [|j] H; try discriminate.
  - injection H as ->. reflexivity.
  - cbn [skipn]. apply IH. exact H.
Qed.

(** The backwards splice loop visits every element once: what it leaves is
    the list without the elements that pass the test, in order, and what it
    removes are those elements, last first. *)
Lemma spliceLoop_filters {A : Type} (test : A -> bool) (i : nat)
    (a removed : list A) :
  (i <= List.length a)%nat ->
  spliceLoop test i a removed
  = Some (filter (fun x => negb (test x)) (firstn i a) ++ skipn i a,
          removed ++ rev (filter test (firstn i a))).
Proof.
  revert a removed. induction i as [|j IH]; intros a removed H.
  - cbn. rewrite app_nil_r. reflexivity.
  - cbn [spliceLoop].
    destruct (nth_error a j) as [x|] eqn:N.
    2: { apply nth_error_None in N. lia. }
    rewrite (firstn_succ_nth _ _ N), !filter_app. cbn [filter].
    assert (List.length (firstn j a) = j) as Lj
      by (rewrite length_firstn; lia).
    destruct (test x) eqn:T; cbn [negb].
    + rewrite IH.
      * rewrite firstn_app, Lj, Nat.sub_diag, firstn_all2 by lia.
        cbn [firstn]. rewrite app_nil_r.
        rewrite skipn_app, Lj, Nat.sub_diag, skipn_all2 by lia.
        cbn [skipn app]. rewrite rev_app_distr. cbn [rev app].
        rewrite !app_nil_r, <- app_assoc. reflexivity.
      * rewrite length_app, Lj, length_skipn. lia.
    + rewrite IH by lia. rewrite (skipn_nth _ _ N).
      rewrite !app_nil_r, <- app_assoc. reflexivity.
Qed.

Lemma spliceLoop_all {A : Type} (test : A -> bool) (a : list A) :
  spliceLoop test (List.length a) a []
  = Some (filter (fun x => negb (test x)) a, rev (filter test a)).
Proof.
  rewrite spliceLoop_filters by lia.
  rewrite firstn_all, skipn_all, app_nil_r. reflexivity.
Qed.

(** X11: [updateObstacles] never throws; with a player position it keeps,
    in their order, exactly the obstacles that are not more than 150 behind
    the player, and without one it keeps them all. *)
Theorem updateObstacles_drops_the_far_behind (obstacles : list Entity)
    (playerPosition : option Q) :
  exists kept,
    updateObstacles obstacles playerPosition = Some kept
    /\ match playerPosition with
       | None => kept = obstacles
       | Some playerZ =>
           kept = filter (fun o => Qle_bool (playerZ - entity_z o) 150)
                         obstacles
           /\ forall o, In o kept <->
                        In o obstacles /\ playerZ - entity_z o <= 150
       end.
Proof.
  destruct playerPosition as [z|]; cbn [updateObstacles].
  - rewrite spliceLoop_all. cbn [option_map fst].
    eexists. split; [reflexivity|].
    assert (E : filter (fun x => negb (Qltb 150 (z - entity_z x))) obstacles
                = filter (fun o => Qle_bool (z - entity_z o) 150) obstacles).
    { apply filter_ext. intro o. unfold Qltb. apply negb_involutive. }
    split; [exact E|]. intro o. rewrite E, filter_In, Qle_bool_iff.
    reflexivity.
  - eauto.
Qed.

(** X12: [checkCollisions] never throws and splits both lists by the box
    test: the entities hit are reported last first, the others stay on the
    road in their order, and none is lost or counted twice. *)
Theorem checkCollisions_splits_by_the_box_test {E : Type}
    (boxOf : E -> Box3) (playerBox : Box3) (obstacles collectibles : list E) :
  let hit := fun e => intersectsBox playerBox (boxOf e) in
  exists outcome,
    checkCollisions boxOf playerBox obstacles collectibles = Some outcome
    /\ hitObstacles outcome = rev (filter hit obstacles)
    /\ obstaclesLeft outcome = filter (fun e => negb (hit e)) obstacles
    /\ hitCollectibles outcome = rev (filter hit collectibles)
    /\ collectiblesLeft outcome
       = filter (fun e => negb (hit e)) collectibles
    /\ (List.length (hitObstacles outcome)
        + List.length (obstaclesLeft outcome)
        = List.length obstacles)%nat
    /\ (List.length (hitCollectibles outcome)
        + List.length (collectiblesLeft outcome)
        = List.length collectibles)%nat.
Proof.
  intro hit. unfold checkCollisions. fold hit. rewrite !spliceLoop_all.
  eexists. split; [reflexivity|]. cbn.
  assert (P : forall l : list E,
            (List.length (rev (filter hit l))
             + List.length (filter (fun e => negb (hit e)) l)
             = List.length l)%nat).
  { intro l. rewrite length_rev. induction l as [|x l IH]; trivial.
    cbn [filter]. destruct (hit x); cbn [negb List.length]; lia. }
  repeat split; apply P.
Qed.



End Entities.

Section EventFacts.

Import Events.
Variable C : Type.
Variable same_callback : C -> C -> bool.
Hypothesis same_callback_spec :
  forall a b, same_callback a b = true <-> a = b.

Lemma read_store (cbs : Callbacks C) (event : string) (l : list C) :
  read (store cbs event l) event = Registered l.
Proof. unfold read, store. rewrite String.eqb_refl. reflexivity. Qed.

Lemma read_store_other (cbs : Callbacks C) (event other : string)
    (l : list C) :
  other <> event -> read (store cbs event l) other = read cbs other.
Proof.
  intro N. unfold read, store. apply String.eqb_neq in N. rewrite N.
  reflexivity.
Qed.

Lemma filter_calls {D : Type} (callback : C) (data : D) (l : list C) :
  map (fun cb => (cb, data))
      (filter (fun cb => negb (same_callback cb callback)) l)
  = filter (fun call => negb (same_callback (fst call) callback))
           (map (fun cb => (cb, data)) l).
Proof.
  induction l as [|cb l IH]; trivial.
  cbn [filter map fst]. destruct (same_callback cb callback);
    cbn [negb map]; rewrite IH; reflexivity.
Qed.

(** X14: under an event name that [Object.prototype] does not define,
    [off] removes every registration of the callback for that event and
    nothing else: afterwards [trigger] never calls it for the event, calls
    the other callbacks of the event as before and in the same order, and
    does for every other name what it did; [on] appends, so the new
    callback is called last.  Under a name that [Object.prototype] defines
    ('constructor', 'toString', '__proto__', ...) the object made by [{}]
    holds a value that is no array, and [on], [off] and [trigger] all
    throw. *)
Theorem off_removes_the_callback {D : Type} (cbs : Callbacks C)
    (event : string) (callback : C) (data : D) :
  (inherited event = false ->
   exists after added calls,
     off same_callback cbs event callback = Some after
     /\ on cbs event callback = Some added
     /\ trigger cbs event data = Some calls
     /\ trigger after event data
        = Some (filter (fun call => negb (same_callback (fst call) callback))
                       calls)
     /\ (forall calls', trigger after event data = Some calls' ->
           ~ In (callback, data) calls')
     /\ trigger added event data = Some (calls ++ [(callback, data)])
     /\ (forall other, other <> event ->
           trigger after other data = trigger cbs other data
           /\ trigger added other data = trigger cbs other data))
  /\ (inherited event = true -> cbs event = None ->
      on cbs event callback = None
      /\ off same_callback cbs event callback = None
      /\ trigger cbs event data = None).
Proof.
  split.
  - intro N.
    assert (exists registered after,
              trigger cbs event data
              = Some (map (fun cb => (cb, data)) registered)
              /\ off same_callback cbs event callback = Some after
              /\ trigger after event data
                 = Some (map (fun cb => (cb, data))
                           (filter (fun cb => negb (same_callback cb callback))
                                   registered))
              /\ (forall other, other <> event ->
                    trigger after other data = trigger cbs other data)
              /\ on cbs event callback
                 = Some (store cbs event (registered ++ [callback])))
      as (registered & after & T & O & TA & TO & A).
    { unfold trigger, off, on.
      destruct (read cbs event) as [|registered|] eqn:R.
      - exists [], cbs. rewrite R. repeat split; trivial.
      - exists registered. eexists. rewrite read_store.
        repeat split; trivial.
        intros other Ne. rewrite read_store_other by exact Ne. reflexivity.
      - unfold read in R. rewrite N in R.
        destruct (cbs event); discriminate. }
    exists after, (store cbs event (registered ++ [callback])).
    eexists. split; [exact O|]. split; [exact A|]. split; [exact T|].
    rewrite TA, filter_calls. split; [reflexivity|]. split.
    + intros calls' E. injection E as <-. intro H.
      apply filter_In in H. destruct H as [_ H]. cbn [fst] in H.
      assert (same_callback callback callback = true) as S
        by (apply same_callback_spec; reflexivity).
      rewrite S in H. discriminate.
    + split.
      * unfold trigger. rewrite read_store, map_app. reflexivity.
      * intros other Ne. split; [apply TO; exact Ne|].
        unfold trigger. rewrite read_store_other by exact Ne. reflexivity.
  - intros I E. unfold on, off, trigger, read. rewrite E, I.
    repeat split.
Qed.

End EventFacts.

Lemma off_removes_the_callback_witness :
  exists after,
    Events.off Nat.eqb
      (Events.store (Events.store Events.empty "offRoadCollision" [1%nat])
         "offRoadCollision" [1%nat; 2%nat])
      "offRoadCollision" 1%nat = Some after
    /\ Events.trigger after "offRoadCollision" tt = Some [(2%nat, tt)].
Proof.
  destruct (proj1 (@off_removes_the_callback nat Nat.eqb Nat.eqb_eq unit
                     (Events.store
                        (Events.store Events.empty "offRoadCollision"
                           [1%nat])
                        "offRoadCollision" [1%nat; 2%nat])
                     "offRoadCollision"%string 1%nat tt) eq_refl)
    as (after & added & calls & O & _ & T & TA & _).
  exists after. split; [exact O|].
  rewrite TA. vm_compute in T. injection T as <-. reflexivity.
Defined.

Section ScoreFacts.

Import Physics Collisions.

Lemma le_zero_max (a : num) :
  a <> NaN -> (Fin 0 <=? Math_max a (Fin 0)) = true.
Proof.
  destruct a as [q| | |]; try congruence; intros _; simpl; trivial.
  destruct (Qltb q 0) eqn:E; simpl; trivial.
  apply Qle_bool_iff. qprops. exact E.
Qed.

(** X15: handling the collisions of a frame never makes a score that is a
    number at or above 0 negative: the penalty of 50 stops at 0 and is
    taken once however many obstacles were hit, and the 100 of a
    collectible is added once. *)
Theorem score_never_negative {E : Type} (outcome : Outcome E) (score : num)
    (v : Vehicle) (random : num) :
  (Fin 0 <=? score) = true ->
  (Fin 0 <=? fst (handleCollisions outcome score v random)) = true
  /\ fst (handleCollisions outcome score v random)
     = (let score1 := match hitObstacles outcome with
                      | [] => score
                      | _ => Math_max (score - Fin 50) (Fin 0)
                      end in
        match hitCollectibles outcome with
        | [] => score1
        | _ => score1 + Fin 100
        end).
Proof.
  intro H. unfold handleCollisions.
  assert (P : (Fin 0 <=? Math_max (score - Fin 50) (Fin 0)) = true).
  { apply le_zero_max. destruct score; simpl in *; congruence. }
  assert (A : forall s, (Fin 0 <=? s) = true -> (Fin 0 <=? s + Fin 100) = true).
  { intros [q| | |] Hs; simpl in *; trivial.
    apply Qle_bool_iff. apply Qle_bool_iff in Hs. lra. }
  destruct (hitObstacles outcome), (hitCollectibles outcome); cbn [fst];
    split; trivial; auto.
Qed.

Lemma score_never_negative_witness :
  (Fin 0
   <=? fst (handleCollisions
              {| hitObstacles := [tt; tt]; hitCollectibles := [];
                 obstaclesLeft := []; collectiblesLeft := [] |}
              (Fin 30) constructor (Fin 0.5))) = true.
Proof.
  exact (proj1 (@score_never_negative unit
                  {| hitObstacles := [tt; tt]; hitCollectibles := [];
                     obstaclesLeft := []; collectiblesLeft := [] |}
                  (Fin 30) constructor (Fin 0.5) eq_refl)).
Defined.

End ScoreFacts.

(** ** Steering, suspension and forces *)

Section Handling.

Import Physics.
Context {M : MathLib}.

Lemma max_steering_value :
  MAX_STEERING_ANGLE = Fin (3.141592653589793 / 4).
Proof. reflexivity. Qed.

(** X16: [updateControls] keeps the steering angle within the lock: from
    an angle between -MAX_STEERING_ANGLE and MAX_STEERING_ANGLE and a delta
    time that is not negative, the new angle lies between them again,
    whatever keys are down. *)
Theorem steering_stays_within_the_lock (v : Vehicle) (inp : Input)
    (dt : num) :
  (- MAX_STEERING_ANGLE <=? steeringAngle v) = true ->
  (steeringAngle v <=? MAX_STEERING_ANGLE) = true ->
  (Fin 0 <=? dt) = true ->
  (- MAX_STEERING_ANGLE <=? steeringAngle (updateControls v inp dt)) = true
  /\ (steeringAngle (updateControls v inp dt) <=? MAX_STEERING_ANGLE) = true.
Proof.
  cbn [updateControls steeringAngle]. unfold steer.
  rewrite max_steering_value.
  set (m := (3.141592653589793 / 4)%Q).
  assert (0 < m)%Q as Hm by reflexivity.
  destruct (steeringAngle v) as [a| | |]; try discriminate.
  destruct dt as [d| | |]; try discriminate; intros L U D;
    cbn in L, U, D; qprops;
    destruct (turnLeft inp), (turnRight inp); cbn;
    repeat (qcase; cbn); qprops;
    split; try reflexivity; try (apply Qle_bool_iff); try lra.
  all: try (pose proof (Qabs_nonneg a); lra).
  all: try (pose proof (Qle_Qabs a); pose proof (Qle_Qabs (- a));
            rewrite Qabs_opp in *; lra).
  all: exfalso;
    first [rewrite (Qabs_pos a) in * by lra
          |rewrite (Qabs_neg a) in * by lra]; lra.
Qed.

(** X17: with no turn key down the steering angle goes back towards 0
    without passing it: within one step of 0 it becomes 0, otherwise it
    keeps its sign and loses STEERING_RETURN_SPEED * dt. *)
Theorem steering_returns_without_overshoot (v : Vehicle) (inp : Input)
    (a d : Q) :
  turnLeft inp = false -> turnRight inp = false ->
  steeringAngle v = Fin a -> (0 <= d)%Q ->
  exists a',
    steeringAngle (updateControls v inp (Fin d)) = Fin a'
    /\ (Qabs a' <= Qabs a)%Q
    /\ (0 <= a * a')%Q
    /\ ((Qabs a < 5 * d)%Q -> a' == 0)%Q
    /\ ((5 * d <= Qabs a)%Q -> Qabs a' == Qabs a - 5 * d)%Q.
Proof.
  intros Hl Hr Ha Hd. cbn [updateControls steeringAngle]. unfold steer.
  rewrite Hl, Hr, Ha. cbn.
  destruct (Qltb (Qabs a) (5.0 * d)) eqn:E; qprops.
  - exists 0%Q. split; [reflexivity|].
    pose proof (Qabs_nonneg a). change (Qabs 0) with 0%Q.
    split; [lra|]. split; [nra|]. split; [reflexivity|]. lra.
  - destruct (Qltb 0 a) eqn:P; cbn; qprops.
    + exists (a - 1 * 5.0 * d)%Q. split; [reflexivity|].
      rewrite (Qabs_pos a) in * by lra.
      assert (0 <= a - 1 * 5.0 * d)%Q as N by lra.
      rewrite (Qabs_pos _ N). repeat split; try lra; nra.
    + destruct (Qltb a 0) eqn:N; cbn; qprops.
      * exists (a - -1 * 5.0 * d)%Q. split; [reflexivity|].
        rewrite (Qabs_neg a) in * by lra.
        assert (a - -1 * 5.0 * d <= 0)%Q as N' by lra.
        rewrite (Qabs_neg _ N'). repeat split; try lra; nra.
      * exists (a - 0 * 5.0 * d)%Q. split; [reflexivity|].
        assert (a == 0)%Q as Z by lra.
        assert (a - 0 * 5.0 * d == 0)%Q as Z' by lra.
        assert (Qabs (a - 0 * 5.0 * d) == 0)%Q as A' by (rewrite Z'; reflexivity).
        assert (Qabs a == 0)%Q as A by (rewrite Z; reflexivity).
        split; [lra|]. split; [nra|]. split; [intros _; exact Z'|]. lra.
Qed.

(** The height test a wheel makes, from its place on the vehicle. *)
Lemma wheel_on_ground (v : Vehicle) (w : Wheel) (x z py : Q) :
  wheel_position w = vec3 (Fin x) (Fin 0) (Fin z) ->
  vy (position v) = Fin py ->
  onGround (updateWheel v w) = (Fin py <? WHEEL_RADIUS + SUSPENSION_TRAVEL).
Proof.
  intros Hw Hp. cbn [updateWheel onGround]. unfold getWheelWorldPosition.
  rewrite Hw. cbn [applyRotationY vadd vx vy vz]. rewrite Hp.
  assert (forall c s : num,
            (Fin 0 * Fin x + Fin 1 * Fin 0 + Fin 0 * Fin z + Fin 0)
            * (Fin 1 / (Fin 0 * Fin x + Fin 0 * Fin 0 + Fin 0 * Fin z + Fin 1))
            = Fin ((0 * x + 1 * 0 + 0 * z + 0)
                   * (1 / (0 * x + 0 * 0 + 0 * z + 1)))) as E.
  { intros _ _. cbn -[Qmult Qplus Qdiv Qeq_bool].
    assert (Qeq_bool (0 * x + 0 * 0 + 0 * z + 1) 0 = false) as ->
      by (apply Qeq_bool_ne; lra).
    reflexivity. }
  rewrite (E (Fin 0) (Fin 0)).
  set (k := ((0 * x + 1 * 0 + 0 * z + 0)
             * (1 / (0 * x + 0 * 0 + 0 * z + 1)))%Q).
  assert (k == 0)%Q as K by (unfold k; field; lra).
  cbn -[Qmult Qplus Qdiv Qminus k].
  destruct (Qltb 0 (0.8 + 0.5 - (k + py - 0))) eqn:A;
    destruct (Qltb py (0.8 + 0.5)) eqn:B; cbn; trivial;
    try rewrite A; qprops; try lra.
Qed.

(** X18: ground contact depends on the height alone: for a vehicle on its
    four wheels at a finite height, [updateSuspension] finds every wheel on
    the ground, and the vehicle grounded, exactly when the height is below
    WHEEL_RADIUS + SUSPENSION_TRAVEL, whatever the yaw is. *)
Theorem grounded_below_the_rest_height (v : Vehicle) (py : Q) :
  standardWheels v ->
  vy (position v) = Fin py ->
  isGrounded (updateSuspension v)
  = (Fin py <? WHEEL_RADIUS + SUSPENSION_TRAVEL)
  /\ Forall (fun w => onGround w
                      = (Fin py <? WHEEL_RADIUS + SUSPENSION_TRAVEL))
            (wheels (updateSuspension v)).
Proof.
  intros Hw Hp. unfold standardWheels in Hw.
  assert (map wheel_position (wheels constructor)
          = [vec3 (Fin (- 4 / 2)) (Fin 0) (Fin (6 / 2));
             vec3 (Fin (4 / 2)) (Fin 0) (Fin (6 / 2));
             vec3 (Fin (- 4 / 2)) (Fin 0) (Fin (- 6 / 2));
             vec3 (Fin (4 / 2)) (Fin 0) (Fin (- 6 / 2))]) as C
    by reflexivity.
  rewrite C in Hw. clear C.
  destruct (wheels v) as [|w1 [|w2 [|w3 [|w4 [|w5 ws]]]]] eqn:W;
    try discriminate.
  injection Hw as H1 H2 H3 H4.
  cbn [updateSuspension isGrounded wheels]. rewrite W.
  cbn [map existsb].
  rewrite (wheel_on_ground v w1 H1 Hp), (wheel_on_ground v w2 H2 Hp),
    (wheel_on_ground v w3 H3 Hp), (wheel_on_ground v w4 H4 Hp).
  split.
  - destruct (Fin py <? _); reflexivity.
  - repeat apply Forall_cons; try apply Forall_nil;
      eapply wheel_on_ground; eassumption.
Qed.

(** The sign of a number times the number is its absolute value. *)
Lemma sign_times (q : Q) :
  exists s, Math_sign (Fin q) = Fin s /\ (s * q == Qabs q)%Q
            /\ (q == 0 -> s == 0)%Q.
Proof.
  simpl. destruct (Qltb 0 q) eqn:P; qprops.
  - exists 1%Q. rewrite (Qabs_pos q) by lra. repeat split; lra.
  - destruct (Qltb q 0) eqn:N; qprops.
    + exists (-1)%Q. rewrite (Qabs_neg q) by lra. repeat split; lra.
    + exists 0%Q. assert (q == 0)%Q as Z by lra.
      assert (Qabs q == 0)%Q as A by (rewrite Z; reflexivity).
      repeat split; lra.
Qed.

Lemma sign_unit (q : Q) :
  exists s, Math_sign (Fin q) = Fin s /\ (s * q == Qabs q)%Q
            /\ (q == 0 -> s == 0)%Q /\ (-1 <= s <= 1)%Q.
Proof.
  simpl. destruct (Qltb 0 q) eqn:P; qprops.
  - exists 1%Q. rewrite (Qabs_pos q) by lra. repeat split; lra.
  - destruct (Qltb q 0) eqn:N; qprops.
    + exists (-1)%Q. rewrite (Qabs_neg q) by lra. repeat split; lra.
    + exists 0%Q. assert (q == 0)%Q as Z by lra.
      assert (Qabs q == 0)%Q as A by (rewrite Z; reflexivity).
      repeat split; lra.
Qed.

(** X19: without throttle and without reverse nothing pushes the vehicle
    on: at a speed of magnitude up to 1000000 the sum of tractive force
    (brake or engine braking), drag and rolling resistance is a number of
    magnitude up to 200000000 that opposes the speed, and is 0 at rest. *)
Theorem no_push_without_throttle (v : Vehicle) (q : Q) (braking : bool) :
  speed v = Fin q -> (Qabs q <= 1000000)%Q ->
  throttle v = Fin 0.0 -> reverse v = Fin 0.0 -> brake v = flag braking ->
  exists F,
    tractiveForce v + dragForce v + rollingResistance v = Fin F
    /\ (Qabs F <= 200000000)%Q
    /\ (F * q <= 0)%Q
    /\ (q == 0 -> F == 0)%Q.
Proof.
  intros Hs Hq Ht Hr Hb.
  unfold tractiveForce, dragForce, rollingResistance.
  rewrite Hs, Ht, Hr, Hb.
  destruct (sign_unit q) as (s & -> & S1 & S0 & SL & SU).
  pose proof (Qabs_nonneg q) as A.
  assert (0 <= q * q)%Q as SQ by nra.
  assert (q * q <= 1000000000000)%Q as SB.
  { assert (q * q == Qabs q * Qabs q)%Q as ->.
    { destruct (Qlt_le_dec q 0) as [L|L].
      - rewrite (Qabs_neg q) by lra. ring.
      - rewrite (Qabs_pos q) by lra. ring. }
    nra. }
  assert (forall k, 0 <= k -> (- s * k) * q <= 0)%Q as N.
  { intros k Hk. assert (- s * k * q == - (k * (s * q)))%Q as -> by ring.
    rewrite S1. nra. }
  assert (forall k b, 0 <= k <= b -> - b <= - s * k <= b)%Q as B
    by (intros k b [K0 K1]; nra).
  pose proof (B 1.0 1.0 ltac:(lra))%Q as B1.
  pose proof (B (800 * 6.0 * 1.0) 4800 ltac:(lra))%Q as B2.
  pose proof (B (0.00015 * (q * q)) 150000000 ltac:(lra))%Q as B3.
  pose proof (B (0.03 * Qabs q) 30000 ltac:(lra))%Q as B4.
  pose proof (B (0.001 * Qabs q) 1000 ltac:(lra))%Q as B5.
  destruct (isGrounded v), braking, (isOffRoad v);
    cbn -[Qmult Qplus Qopp Qabs];
    eexists; (split; [reflexivity|]); (split; [|split]).
  all: try (apply Qabs_Qle_condition; lra).
  all: try (intro Z; specialize (S0 Z); rewrite S0, Z; ring).
  all: try (intro Z; specialize (S0 Z); rewrite S0, Z;
            change (Qabs 0) with 0%Q; ring).
  all: pose proof (N 1.0 ltac:(lra))%Q as N1;
    pose proof (N (800 * 6.0 * 1.0) ltac:(lra))%Q as N2;
    pose proof (N (0.00015 * (q * q)) ltac:(nra))%Q as N3;
    pose proof (N (0.03 * Qabs q) ltac:(nra))%Q as N4;
    pose proof (N (0.001 * Qabs q) ltac:(nra))%Q as N5; nra.
Qed.

End Handling.

(** ** What a frame reports *)

Section FrameResult.

Import Physics.
Context {M : MathLib}.

Lemma isOffRoad_initialBoost (v : Vehicle) (inp : Input) :
  isOffRoad (initialBoost v inp) = isOffRoad v.
Proof. unfold initialBoost. destruct (_ && _); reflexivity. Qed.

(** The events of [checkSurfaceInteraction]: one at most, and only on the
    frame the vehicle leaves the road, with an event system at hand. *)
Lemma checkSurfaceInteraction_events (v v' : Vehicle)
    (w : option WorldView) (dt : num) (evs : list string) :
  checkSurfaceInteraction v w dt = Some (v', evs) ->
  (evs = [] \/ evs = ["offRoadCollision"%string])
  /\ (evs <> [] ->
      isOffRoad v = false /\ isOffRoad v' = true /\ hasEvents w = true).
Proof.
  unfold checkSurfaceInteraction.
  destruct (surfaceProbe v w) as [[|] x].
  - destruct (input v); [|discriminate]. intro E. injection E as <- <-.
    cbn [isOffRoad].
    match goal with
    | |- context [if ?c && hasEvents w then _ else _] => destruct c eqn:H
    end; cbn [andb].
    + destruct (hasEvents w); split; auto; try congruence.
      intros _. apply andb_true_iff in H. destruct H as [O _].
      apply negb_true_iff in O. auto.
    + split; auto. congruence.
  - intro E. injection E as <- <-. split; auto. congruence.
Qed.

(** X20: the off-road event is edge-triggered.  A frame triggers
    'offRoadCollision' once at most, and only when the vehicle was on the
    road before the frame, is off it after, and the world has an event
    system; a vehicle that starts the frame off the road triggers
    nothing. *)
Theorem offRoad_event_is_edge_triggered (v : Vehicle) (inp : Input)
    (deltaTime : num) (w : option WorldView) :
  exists r,
    update v inp deltaTime w = Some r
    /\ (triggered r = [] \/ triggered r = ["offRoadCollision"%string])
    /\ (triggered r <> [] ->
        isOffRoad v = false /\ isOffRoad (vehicle r) = true
        /\ hasEvents w = true)
    /\ (isOffRoad v = true -> triggered r = []).
Proof.
  destruct (update_returns v inp deltaTime w) as [r E].
  exists r. split; [exact E|].
  unfold update, updateFromControls in E.
  destruct (checkSurfaceInteraction _ _ _) as [[v7 evs]|] eqn:C;
    [|discriminate].
  injection E as <-. cbn [triggered vehicle].
  apply checkSurfaceInteraction_events in C.
  cbn [integrate calculateForces updateSuspension updateControls isOffRoad
       updateVehicleVectors updateWheelRotation] in *.
  rewrite isOffRoad_initialBoost in C. cbn [storeInput isOffRoad] in C.
  destruct C as (C1 & C2). split; [exact C1|]. split; [exact C2|].
  intro O. destruct evs as [|e evs]; trivial.
  destruct C2 as (C2 & _); [discriminate|]. congruence.
Qed.

(** X21: when [update] returns, [wasOffRoad] equals [isOffRoad], so the
    off-road comparison in the returned flag is always false: the flag
    says that the position changed or that the speed is above 0.1. *)
Theorem update_flag_ignores_the_road_edge (v : Vehicle) (inp : Input)
    (deltaTime : num) (w : option WorldView) :
  exists r,
    update v inp deltaTime w = Some r
    /\ wasOffRoad (vehicle r) = isOffRoad (vehicle r)
    /\ changed r
       = negb (equals (position v) (position (vehicle r)))
         || (speed (vehicle r) >? Fin 0.1).
Proof.
  destruct (update_returns v inp deltaTime w) as [r E].
  exists r. split; [exact E|].
  unfold update, updateFromControls in E.
  destruct (checkSurfaceInteraction _ _ _) as [[v7 evs]|] eqn:C;
    [|discriminate].
  apply checkSurfaceInteraction_keeps in C.
  destruct C as (_ & _ & _ & _ & _ & _ & _ & _ & C).
  injection E as <-. cbn [vehicle changed updateVehicleVectors
    updateWheelRotation wasOffRoad isOffRoad position speed].
  rewrite C. split; [reflexivity|].
  rewrite Bool.eqb_reflx. cbn [negb]. rewrite orb_false_r. reflexivity.
Qed.

(** X22: the speed boost of a collectible changes [this.speed] only, and
    never above MAX_SPEED; the integration step computes the speed afresh
    from the velocity, so it gives the same vehicle with the boost as
    without it. *)
Theorem collectible_boost_is_overwritten (v : Vehicle) (dt : num) :
  integrate (collectibleBoost v) dt = integrate v dt
  /\ velocity (collectibleBoost v) = velocity v
  /\ position (collectibleBoost v) = position v
  /\ (speed (collectibleBoost v) = NaN
      \/ (speed (collectibleBoost v) <=? MAX_SPEED) = true).
Proof.
  repeat split. cbn [collectibleBoost speed].
  destruct (speed v) as [q| | |]; cbn; auto.
  right. destruct (Qltb 5000 (q + 2)) eqn:E; cbn; trivial.
  apply Qle_bool_iff. qprops. exact E.
Qed.

End FrameResult.

(** ** Collisions and the frame of the vehicle *)

Section Collision.

Import Physics.

(** X23: a collision at a speed that is a number other than 0 slows the
    vehicle without turning it round: the speed loses min(|speed|, 60) of
    its magnitude and keeps its sign, the horizontal velocity is scaled by
    the same ratio, and the vertical velocity is set to 0.5. *)
Theorem collision_slows_without_reversing (v : Vehicle) (random : num)
    (q : Q) :
  speed v = Fin q -> ~ (q == 0)%Q ->
  let v' := fst (collideWithObstacle v random) in
  exists q',
    speed v' = Fin q'
    /\ (Qabs q' == Qabs q - Qmin (Qabs q) 60)%Q
    /\ (0 <= q * q')%Q
    /\ speedReduction (snd (collideWithObstacle v random))
       =~ Fin (Qmin (Qabs q) 60)
    /\ velocity v'
       = set_y (multiplyScalar (velocity v) (Fin (q' / q))) (Fin 0.5).
Proof.
  intros Hs Hq v'. unfold v', collideWithObstacle.
  cbn [fst snd speed velocity speedReduction]. rewrite Hs.
  destruct (sign_times q) as (s & -> & S1 & _).
  pose proof (Qabs_nonneg q) as A.
  assert (Math_min (Math_abs (Fin q)) (Fin 60)
          = Fin (if Qltb 60 (Qabs q) then 60 else Qabs q)) as ->.
  { cbn. destruct (Qltb 60 (Qabs q)); reflexivity. }
  set (red := if Qltb 60 (Qabs q) then 60%Q else Qabs q).
  assert (red == Qmin (Qabs q) 60)%Q as R.
  { unfold red. destruct (Qltb 60 (Qabs q)) eqn:E; qprops.
    - rewrite Q.min_r; lra.
    - rewrite Q.min_l; lra. }
  assert (0 <= Qabs q - red)%Q as P.
  { rewrite R. pose proof (Q.le_min_l (Qabs q) 60). lra. }
  assert (Math_max (Fin 0) (Math_abs (Fin q) - Fin red)
          = Fin (if Qltb 0 (Qabs q - red) then Qabs q - red else 0)) as ->.
  { cbn. destruct (Qltb 0 (Qabs q - red)); reflexivity. }
  set (m := if Qltb 0 (Qabs q - red) then (Qabs q - red)%Q else 0%Q).
  assert (m == Qabs q - red)%Q as Em.
  { unfold m. destruct (Qltb 0 (Qabs q - red)) eqn:E; qprops; lra. }
  exists (s * m)%Q. split; [reflexivity|].
  assert (Qabs s == 1)%Q as S.
  { assert (Qabs (s * q) == Qabs q)%Q as H
      by (rewrite S1; apply Qabs_pos; exact A).
    rewrite Qabs_Qmult in H.
    assert (0 < Qabs q)%Q.
    { destruct (Qlt_le_dec 0 (Qabs q)) as [G|G]; trivial.
      exfalso. apply Hq. pose proof (Qle_Qabs q) as X1.
      pose proof (Qle_Qabs (- q)) as X2. rewrite Qabs_opp in X2. lra. }
    pose proof (Qabs_nonneg s). nra. }
  split; [|split; [|split]].
  - rewrite Qabs_Qmult, S, (Qabs_pos m) by lra. rewrite <- R. lra.
  - assert (q * (s * m) == m * (s * q))%Q as -> by ring.
    rewrite S1. nra.
  - cbn. exact R.
  - cbn [div mul]. apply Qeq_bool_ne in Hq. rewrite Hq. reflexivity.
Qed.

End Collision.

Section Surroundings.

Import Physics.
Context {M : MathLib}.

Lemma normalize_scales (x y z : Q) :
  exists k,
    normalize (vec3 (Fin x) (Fin y) (Fin z))
    = vec3 (Fin (x * k)) (Fin (y * k)) (Fin (z * k)).
Proof.
  unfold normalize, THREE.length. cbn [vx vy vz mul add].
  set (S := (x * x + y * y + z * z)%Q).
  assert (exists d, or_else (Math_sqrt (Fin S)) (Fin 1) = Fin d
                    /\ Qeq_bool d 0 = false) as (d & -> & D).
  { unfold Math_sqrt. destruct (Qltb S 0); [exists 1%Q; split; reflexivity|].
    destruct (Qeq_bool S 0); [exists 1%Q; split; reflexivity|].
    unfold or_else, truthy.
    destruct (Qeq_bool (lib_sqrt S) 0) eqn:E; cbn [negb].
    - exists 1%Q. split; reflexivity.
    - exists (lib_sqrt S). split; [reflexivity|exact E]. }
  exists (1 / d)%Q. unfold multiplyScalar. cbn [div vx vy vz]. rewrite D.
  reflexivity.
Qed.

(** X24: at a finite yaw [updateVehicleVectors] leaves direction and right
    horizontal and perpendicular to each other, and up without a
    horizontal part, whatever the sine, cosine and square root of the
    host return. *)
Theorem vehicle_frame_is_horizontal_and_square (v : Vehicle) (yaw : Q) :
  rotation_y v = Fin yaw ->
  exists dx dy dz rx ry rz ux uy uz,
    direction (updateVehicleVectors v) = vec3 (Fin dx) (Fin dy) (Fin dz)
    /\ right (updateVehicleVectors v) = vec3 (Fin rx) (Fin ry) (Fin rz)
    /\ up (updateVehicleVectors v) = vec3 (Fin ux) (Fin uy) (Fin uz)
    /\ (dy == 0 /\ ry == 0 /\ ux == 0 /\ uz == 0)%Q
    /\ (dx * rx + dy * ry + dz * rz == 0)%Q.
Proof.
  intro H. cbn [updateVehicleVectors direction right up]. rewrite H.
  unfold applyRotationY, Math_cos, Math_sin.
  set (c := lib_cos yaw). set (s := lib_sin yaw).
  cbn [vx vy vz mul add neg div].
  assert (Qeq_bool (0 * 0 + 0 * 0 + 0 * 1 + 1) 0 = false) as -> by reflexivity.
  assert (Qeq_bool (0 * 1 + 0 * 0 + 0 * 0 + 1) 0 = false) as -> by reflexivity.
  cbn [mul].
  match goal with
  | |- context [normalize (vec3 (Fin ?a) (Fin ?b) (Fin ?c))] =>
      destruct (normalize_scales a b c) as (k1 & ->)
  end.
  match goal with
  | |- context [normalize (vec3 (Fin ?a) (Fin ?b) (Fin ?c))] =>
      destruct (normalize_scales a b c) as (k2 & ->)
  end.
  destruct (normalize_scales 0 1 0) as (k3 & ->).
  do 9 eexists. split; [reflexivity|]. split; [reflexivity|].
  split; [reflexivity|]. split; [repeat split; field|]. field.
Qed.

Lemma lt_le_trans_num (a b c : num) :
  (a <? b) = true -> (b <=? c) = true -> (a <=? c) = true.
Proof.
  destruct a, b, c; simpl; try discriminate; trivial; intros H1 H2;
    qprops; apply Qle_bool_iff; lra.
Qed.

(** The distance in z the search loop compares. *)
Lemma closerSegment_invariant (p : Q) (segments seen : list RoadSegment)
    (best : option RoadSegment * num) :
  Forall (fun s => finite (vz (segPosition s))) segments ->
  match best with
  | (None, d) => d = PInf /\ seen = []
  | (Some s, d) =>
      In s seen /\ finite d
      /\ d = Math_abs (vz (segPosition s) - Fin p)
      /\ Forall (fun s' =>
                   (d <=? Math_abs (vz (segPosition s') - Fin p)) = true)
                seen
  end ->
  match fold_left (closerSegment (Fin p)) segments best with
  | (None, d) => d = PInf /\ seen ++ segments = []
  | (Some s, d) =>
      In s (seen ++ segments) /\ finite d
      /\ d = Math_abs (vz (segPosition s) - Fin p)
      /\ Forall (fun s' =>
                   (d <=? Math_abs (vz (segPosition s') - Fin p)) = true)
                (seen ++ segments)
  end.
Proof.
  revert seen best. induction segments as [|x rest IH]; intros seen best F I.
  - cbn [fold_left]. rewrite app_nil_r. exact I.
  - inversion F as [|? ? [zx Hx] Frest]; subst.
    cbn [fold_left].
    replace (seen ++ x :: rest) with ((seen ++ [x]) ++ rest)
      by (rewrite <- app_assoc; reflexivity).
    apply IH; [exact Frest|].
    unfold closerSegment. rewrite Hx. cbn [sub Math_abs snd].
    set (dx := Qabs (zx - p)).
    assert (Self : (Fin dx <=? Fin dx) = true)
      by (apply Qle_bool_iff; lra).
    destruct best as [[s|] d]; cbn [snd].
    + destruct I as (In_s & [dq ->] & Ed & All).
      destruct (Fin dx <? Fin dq) eqn:L.
      * split; [apply in_or_app; right; left; reflexivity|].
        split; [apply finite_Fin|]. split; [rewrite Hx; reflexivity|].
        apply Forall_app. split.
        -- eapply Forall_impl; [|exact All]. intros s' H'.
           eapply lt_le_trans_num; eassumption.
        -- constructor; [rewrite Hx; exact Self|constructor].
      * split; [apply in_or_app; left; exact In_s|].
        split; [apply finite_Fin|]. split; [exact Ed|].
        apply Forall_app. split; [exact All|].
        constructor; [|constructor]. rewrite Hx. cbn [sub Math_abs].
        fold dx. cbn in L |- *. qprops. apply Qle_bool_iff. exact L.
    + destruct I as (-> & ->). cbn [lt app].
      split; [left; reflexivity|]. split; [apply finite_Fin|].
      split; [rewrite Hx; reflexivity|].
      constructor; [rewrite Hx; exact Self|constructor].
Qed.

(** X25: the search of [checkSurfaceInteraction] finds a nearest segment:
    among segments at finite z it returns none only for an empty array,
    and otherwise a segment of the array whose distance in z from the
    vehicle is the one returned and is not above that of any segment. *)
Theorem closestSegment_is_nearest (p : Q) (segments : list RoadSegment) :
  Forall (fun s => finite (vz (segPosition s))) segments ->
  match closestSegment (Fin p) segments with
  | (None, d) => d = PInf /\ segments = []
  | (Some s, d) =>
      In s segments
      /\ d = Math_abs (vz (segPosition s) - Fin p)
      /\ Forall (fun s' =>
                   (d <=? Math_abs (vz (segPosition s') - Fin p)) = true)
                segments
  end.
Proof.
  intro F. unfold closestSegment.
  pose proof (@closerSegment_invariant p segments [] (None, PInf) F
                (conj eq_refl eq_refl)) as H.
  cbn [app] in H.
  destruct (fold_left _ _ _) as [[s|] d]; [|exact H].
  destruct H as (A & _ & B & C). auto.
Qed.

End Surroundings.

Lemma intersectsBox_apart_in_z (a b : Box3) :
  (vz (bmax b) <? vz (bmin a)) = true \/ (vz (bmin b) >? vz (bmax a)) = true ->
  intersectsBox a b = false.
Proof.
  unfold intersectsBox. intros [H|H]; rewrite H, ?orb_true_r; reflexivity.
Qed.

(** X26: the bounding box is built from two corners along the frame, not
    from their extremes.  With [e] the z part of
    3.5 direction + 1.7 right + 0.5 up, a vehicle turned so that [e] is
    negative has a box whose min lies above its max in z, and which meets
    no box less than [- 2 e] deep in z, wherever that box is. *)
Theorem turned_vehicle_has_an_inverted_box (v : Physics.Vehicle)
    (p d r u : Vector3) (pz dz rz uz : Q) (other : Box3) (a b : Q) :
  Physics.position v = p -> Physics.direction v = d ->
  Physics.right v = r -> Physics.up v = u ->
  vz p = Fin pz -> vz d = Fin dz -> vz r = Fin rz -> vz u = Fin uz ->
  (dz * 3.5 + rz * 1.7 + uz * 0.5 < 0)%Q ->
  vz (bmin other) = Fin a -> vz (bmax other) = Fin b ->
  (b - a < - 2 * (dz * 3.5 + rz * 1.7 + uz * 0.5))%Q ->
  exists box,
    Physics.getBoundingBox true v = Some box
    /\ (vz (bmax box) <? vz (bmin box)) = true
    /\ intersectsBox box other = false.
Proof.
  intros Hp Hd Hr Hu Zp Zd Zr Zu He Ha Hb Hab.
  unfold Physics.getBoundingBox.
  rewrite Hp, Hd, Hr, Hu. eexists. split; [reflexivity|].
  split.
  - cbn [bmin bmax vsub vadd multiplyScalar vz]. rewrite Zp, Zd, Zr, Zu.
    cbn [JS.mul JS.add JS.sub JS.lt]. apply Qltb_lt. lra.
  - apply intersectsBox_apart_in_z. rewrite Ha, Hb.
    cbn [bmin bmax vsub vadd multiplyScalar vz]. rewrite Zp, Zd, Zr, Zu.
    unfold JS.gt. cbn [JS.mul JS.add JS.sub JS.lt].
    destruct (Qlt_le_dec b (pz - dz * 3.5 - rz * 1.7 - uz * 0.5)) as [L|L].
    + left. apply Qltb_lt. lra.
    + right. apply Qltb_lt. lra.
Qed.

Section SampleHandling.

Import Physics.
#[local] Existing Instance SampleMath.lib.

Lemma steering_stays_within_the_lock_witness :
  (- MAX_STEERING_ANGLE
   <=? steeringAngle
         (updateControls constructor
            {| accelerate := true; in_brake := false; in_reverse := false;
               turnLeft := true; turnRight := false |} (Fin 0.016))) = true
  /\ (steeringAngle
        (updateControls constructor
           {| accelerate := true; in_brake := false; in_reverse := false;
              turnLeft := true; turnRight := false |} (Fin 0.016))
      <=? MAX_STEERING_ANGLE) = true.
Proof.
  apply (@steering_stays_within_the_lock SampleMath.lib); reflexivity.
Defined.

Lemma steering_returns_witness :
  exists a',
    steeringAngle
      (updateControls
         (updateControls constructor
            {| accelerate := true; in_brake := false; in_reverse := false;
               turnLeft := true; turnRight := false |} (Fin 0.016))
         idle (Fin 0.016)) = Fin a'
    /\ (a' == 0)%Q.
Proof.
  destruct (@steering_returns_without_overshoot SampleMath.lib
              (updateControls constructor
                 {| accelerate := true; in_brake := false;
                    in_reverse := false;
                    turnLeft := true; turnRight := false |} (Fin 0.016))
              idle _ 0.016 eq_refl eq_refl eq_refl)
    as (a' & E & _ & _ & Z & _).
  - discriminate.
  - exists a'. split; [exact E|]. apply Z. reflexivity.
Defined.

Lemma grounded_below_the_rest_height_witness :
  isGrounded (updateSuspension constructor)
  = (Fin 0.8 <? WHEEL_RADIUS + SUSPENSION_TRAVEL).
Proof.
  exact (proj1 (@grounded_below_the_rest_height SampleMath.lib constructor
                  0.8 eq_refl eq_refl)).
Defined.

Lemma no_push_without_throttle_witness :
  exists F,
    tractiveForce
      (updateControls (collectibleBoost constructor) idle (Fin 0.016))
    + dragForce
        (updateControls (collectibleBoost constructor) idle (Fin 0.016))
    + rollingResistance
        (updateControls (collectibleBoost constructor) idle (Fin 0.016))
    = Fin F
    /\ (F < 0)%Q.
Proof.
  destruct (@no_push_without_throttle SampleMath.lib
              (updateControls (collectibleBoost constructor) idle
                 (Fin 0.016)) _ false eq_refl)
    as (F & E & _ & _); try reflexivity.
  { apply Qabs_Qle_condition. split; vm_compute; discriminate. }
  exists F. split; [exact E|].
  vm_compute in E. injection E as <-. reflexivity.
Defined.

Lemma collision_slows_witness :
  exists q',
    speed (fst (collideWithObstacle (collectibleBoost constructor)
                  (Fin 0.25))) = Fin q'
    /\ (q' == 0)%Q.
Proof.
  destruct (@collision_slows_without_reversing
              (collectibleBoost constructor) (Fin 0.25) _ eq_refl)
    as (q' & E & A & _).
  - discriminate.
  - exists q'. split; [exact E|].
    vm_compute in E. injection E as <-. reflexivity.
Defined.

Lemma vehicle_frame_witness :
  exists dx dy dz rx ry rz ux uy uz,
    direction (updateVehicleVectors constructor)
    = vec3 (Fin dx) (Fin dy) (Fin dz)
    /\ right (updateVehicleVectors constructor)
       = vec3 (Fin rx) (Fin ry) (Fin rz)
    /\ up (updateVehicleVectors constructor)
       = vec3 (Fin ux) (Fin uy) (Fin uz)
    /\ (dy == 0 /\ ry == 0 /\ ux == 0 /\ uz == 0)%Q
    /\ (dx * rx + dy * ry + dz * rz == 0)%Q.
Proof.
  exact (@vehicle_frame_is_horizontal_and_square SampleMath.lib constructor
           0 eq_refl).
Defined.

Lemma closestSegment_witness :
  match closestSegment (Fin 120)
          [ {| segPosition := vec3 (Fin 0) (Fin 0) (Fin 100);
               segRotationY := Fin 0 |};
            {| segPosition := vec3 (Fin 0) (Fin 0) (Fin 110);
               segRotationY := Fin 0 |};
            {| segPosition := vec3 (Fin 0) (Fin 0) (Fin 130);
               segRotationY := Fin 0 |} ] with
  | (None, d) => False
  | (Some s, d) => vz (segPosition s) = Fin 110 /\ d =~ Fin 10
  end.
Proof.
  pose proof (@closestSegment_is_nearest 120
                [ {| segPosition := vec3 (Fin 0) (Fin 0) (Fin 100);
                     segRotationY := Fin 0 |};
                  {| segPosition := vec3 (Fin 0) (Fin 0) (Fin 110);
                     segRotationY := Fin 0 |};
                  {| segPosition := vec3 (Fin 0) (Fin 0) (Fin 130);
                     segRotationY := Fin 0 |} ]) as H.
  destruct (closestSegment _ _) as [[s|] d] eqn:E.
  - destruct H as (_ & -> & _); [repeat constructor; apply finite_Fin|].
    vm_compute in E. injection E as <- _. split; reflexivity.
  - destruct H as (_ & H); [repeat constructor; apply finite_Fin|].
    discriminate H.
Defined.

Lemma turned_vehicle_witness :
  exists box,
    getBoundingBox true
      {| position := vec3 (Fin 2) (Fin 0.8) (Fin 40);
         velocity := zero3; acceleration := zero3;
         direction := vec3 (Fin 0) (Fin 0) (Fin (-1));
         right := vec3 (Fin (-1)) (Fin 0) (Fin 0);
         up := vec3 (Fin 0) (Fin 1) (Fin 0);
         rotation_y := Fin 3.141592653589793;
         angularVelocity := Fin 0; angularAcceleration := NaN;
         speed := Fin 0; wheelSpeed := Fin 0; steeringAngle := Fin 0;
         throttle := Fin 0; brake := Fin 0; reverse := Fin 0;
         isGrounded := true; isOffRoad := false; wasOffRoad := false;
         wheels := wheels constructor; frontWheels := []; rearWheels := [];
         input := None; debugForces := None |} = Some box
    /\ (vz (bmax box) <? vz (bmin box)) = true
    /\ intersectsBox box
         {| bmin := vec3 (Fin 0.5) (Fin 0) (Fin 38.5);
            bmax := vec3 (Fin 3.5) (Fin 3) (Fin 41.5) |} = false.
Proof.
  eapply turned_vehicle_has_an_inverted_box
    with (pz := 40) (dz := -1) (rz := 0) (uz := 0) (a := 38.5) (b := 41.5);
    reflexivity.
Defined.

End SampleHandling.

Section Integration.

Import Physics.


End Integration.

Section SampleIntegration.

Import Physics.


End SampleIntegration.
